(** * Fixed-point dot-product drivers: a shallow embedding and its properties

    The development follows the C sources of the repository:

    - [software/drivers/dot_product_accel.c]: the Q16.16 codec
      ([double_to_fixed], [fixed_to_double], [fixed64_to_double]), the
      register setters, [dot_product_accel_compute_chunk] in its two builds
      (accelerator present / software fallback) and the chunked
      [dot_product_accel_dot_product];
    - [inference_dumb.h]: the 8-lane [logistic_*] driver with
      [logistic_process_chunks], [logistic_process_chunks_float] and the
      predictors;
    - [inference_accel.h]: the handshake unit and [inference_accel_wait_done];
    - [training/iris_lr_model.h]: the 64-lane driver's [logistic_wait_done].

    Conventions.  A C integer of width w is a [Z] and every conversion to such
    a type is written out ([to_uint32], [to_int32], [to_uint64], [to_int64]).
    A [size_t] that only counts elements is a [nat]: the sources guard every
    subtraction on it.  A [double] or [float] value is a rational ([Q]): every
    finite floating-point number is one, and the codec only multiplies or
    divides by a power of two, which is exact on them.  [float_to_fixed]
    multiplies a [float] by an arbitrary scale factor: there the scale factor
    and the product are rounded to the nearest [float] as the machine does
    ([round_float]).  A pointer that may be
    [NULL] is an [option]; [&a[k]] is [skipn k a]; reading [a[i]] is
    [nth i a 0], the C code being defined only where [i] is inside the
    array. *)

From Stdlib Require Import ZArith QArith Qround Qabs List Bool Lia Lqa PeanoNat.
From Stdlib Require Import Qpower Floats.SpecFloat.
Import ListNotations.

Local Open Scope Z_scope.

(** ** Machine integers *)

Definition to_uint32 (z : Z) : Z := z mod 2 ^ 32.
Definition to_int32 (z : Z) : Z := (z + 2 ^ 31) mod 2 ^ 32 - 2 ^ 31.
Definition to_uint64 (z : Z) : Z := z mod 2 ^ 64.
Definition to_int64 (z : Z) : Z := (z + 2 ^ 63) mod 2 ^ 64 - 2 ^ 63.

Definition in_int32 (z : Z) : Prop := - 2 ^ 31 <= z < 2 ^ 31.

(** ** Fixed-point codec ([dot_product_accel.c], lines 5-65) *)

Definition FIXED_POINT_FRACTIONAL_BITS : Z := 16.

(** The conversion of a floating-point value to an integer type drops the
    fractional part (C11 6.3.1.4): truncation toward zero, which on the
    fraction [n/d] is the quotient [Z.quot n d]. *)
Definition c_trunc (q : Q) : Z := Z.quot (Qnum q) (Zpos (Qden q)).

(** [(int32_t)(value * (1 << fractional_bits))].  C defines the cast only when
    the truncated value fits [int32_t]; outside, the model wraps. *)
Definition double_to_fixed (value : Q) (fractional_bits : Z) : Z :=
  to_int32 (c_trunc (value * inject_Z (Z.shiftl 1 fractional_bits))).

(** [(double)value / (1 << fractional_bits)] *)
Definition fixed_to_double (value : Z) (fractional_bits : Z) : Q :=
  (inject_Z value / inject_Z (Z.shiftl 1 fractional_bits))%Q.

Definition fixed64_to_double (value : Z) (fractional_bits : Z) : Q :=
  (inject_Z value / inject_Z (Z.shiftl 1 fractional_bits))%Q.

(** ** Loops, local arrays and register banks *)

(** [for (i = 0; i < n; i++) body], threading the state. *)
Definition for_loop {S : Type} (n : nat) (body : nat -> S -> S) (s : S) : S :=
  fold_left (fun st i => body i st) (seq 0 n) s.

(** [a[i] = v] on a local array; the sources only store inside the array. *)
Fixpoint array_set {A : Type} (a : list A) (i : nat) (v : A) : list A :=
  match a, i with
  | [], _ => []
  | _ :: t, O => v :: t
  | h :: t, S j => h :: array_set t j v
  end.

(** A bank of 32-bit registers, one per lane, addressed by lane index
    ([base + i * 4] in the sources). *)
Definition reg_file : Type := nat -> Z.

Definition reg_write (r : reg_file) (i : nat) (v : Z) : reg_file :=
  fun j => if Nat.eqb j i then v else r j.

(** The accelerator as the driver sees it: the input and weight banks, and
    the number of times the result register has been read. *)
Record accel : Type := mk_accel {
  input_regs : reg_file;
  weight_regs : reg_file;
  result_reads : nat
}.

Definition set_input_regs (d : accel) (r : reg_file) : accel :=
  {| input_regs := r; weight_regs := weight_regs d; result_reads := result_reads d |}.

Definition set_weight_regs (d : accel) (r : reg_file) : accel :=
  {| input_regs := input_regs d; weight_regs := r; result_reads := result_reads d |}.

Definition count_read (d : accel) : accel :=
  {| input_regs := input_regs d; weight_regs := weight_regs d;
     result_reads := S (result_reads d) |}.

(** The values of the first [n] lanes of a bank. *)
Definition lanes (n : nat) (r : reg_file) : list Z := map r (seq 0 n).


(** [csr_write_simple(v, INPUT_ADDR + i * 4)] and its weight counterpart. *)
Definition csr_write_input (d : accel) (i : nat) (v : Z) : accel :=
  set_input_regs d (reg_write (input_regs d) i v).

Definition csr_write_weight (d : accel) (i : nat) (v : Z) : accel :=
  set_weight_regs d (reg_write (weight_regs d) i v).

(** The unit after reset: every lane zero, the result never read. *)
Definition accel_zero : accel :=
  {| input_regs := fun _ => 0; weight_regs := fun _ => 0; result_reads := 0%nat |}.

(** Modelled from the spec: the arithmetic of the logistic unit, whose hardware
    description is not among the C sources.  The per-chunk primitive computes
    the sum of [inputs[i] * weights[i]] over its lanes; the result register
    holds 32 bits of it.  The drivers take the unit as a parameter; this is the
    instance they are run on. *)
Definition dot_lanes (xs ws : list Z) : Z :=
  fold_right Z.add 0 (map (fun p => fst p * snd p) (combine xs ws)).

(** Modelled from the spec: the arithmetic of the dot-product unit behind
    [dot_product_accel.c], also absent from the C sources: a fixed-point
    multiply-accumulate that truncates each intermediate product, here the
    product of the signed Q16.16 operands divided by 2^16 toward zero. *)
Definition q16_mac_lanes (xs ws : list Z) : Z :=
  fold_right Z.add 0
    (map (fun p => Z.quot (to_int32 (fst p) * to_int32 (snd p)) (2 ^ 16)) (combine xs ws)).

(** The vectors of the chunked self-test in the examples of
    [inference_dumb.h]: three chunks of 8 with sums 36, 72 and 8 against
    weights that are all one. *)
Definition test_data : list Z :=
  [1; 2; 3; 4; 5; 6; 7; 8; 2; 4; 6; 8; 10; 12; 14; 16; 1; 1; 1; 1; 1; 1; 1; 1].

Definition test_weights : list Z := repeat 1 24.

(** The real number that a Q16.16 integer stands for. *)
Definition q16 (z : Z) : Q := fixed_to_double z FIXED_POINT_FRACTIONAL_BITS.

(** [f 0 + ... + f (n-1)] *)
Definition sum_upto (n : nat) (f : nat -> Z) : Z :=
  fold_right Z.add 0 (map f (seq 0 n)).

Section Drivers.

(** The lane counts are build-time constants: [DOT_PRODUCT_ACCEL_INPUT_SIZE]
    comes from a header that is not part of the sources;
    [LOGISTIC_INPUT_SIZE] is 8 in [inference_dumb.h] and 64 in
    [training/iris_lr_model.h]. *)
Variable DOT_PRODUCT_ACCEL_INPUT_SIZE : nat.
Variable LOGISTIC_INPUT_SIZE : nat.

(** The hardware is described outside the C sources.  Each unit is
    combinational: the value of its result register is a function of the
    values of its input lanes and weight lanes. *)
Variable dot_product_accel_unit : list Z -> list Z -> Z.
Variable logistic_unit : list Z -> list Z -> Z.

(** The successive values read from the status register of the handshake
    unit and from the done register of the 64-lane unit. *)
Variable inference_accel_status : nat -> Z.
Variable logistic_done : nat -> Z.

(** ** [software/drivers/dot_product_accel.c] *)

(** [dot_product_accel_result_read()]: the 32-bit result register. *)
Definition dot_product_accel_result_read (d : accel) : Z :=
  to_uint32 (dot_product_accel_unit
               (lanes DOT_PRODUCT_ACCEL_INPUT_SIZE (input_regs d))
               (lanes DOT_PRODUCT_ACCEL_INPUT_SIZE (weight_regs d))).

Definition dot_product_input_write (values : list Z) (d : accel) : accel :=
  for_loop DOT_PRODUCT_ACCEL_INPUT_SIZE
    (fun i dev => csr_write_input dev i (nth i values 0)) d.

Definition dot_product_weight_write (values : list Z) (d : accel) : accel :=
  for_loop DOT_PRODUCT_ACCEL_INPUT_SIZE
    (fun i dev => csr_write_weight dev i (nth i values 0)) d.

(** [DOT_PRODUCT_ACCEL_AVAILABLE] selects the build; [available] is its value.
    Without the accelerator the bodies of [dot_product_accel_init] and of the
    two setters are empty. *)
Definition dot_product_accel_init (available : bool) (d : accel) : accel :=
  if available then
    let zeros := repeat 0 DOT_PRODUCT_ACCEL_INPUT_SIZE in
    dot_product_weight_write zeros (dot_product_input_write zeros d)
  else d.

(** [count > SIZE ? SIZE : count] *)
Definition actual_count (count : Z) : Z :=
  if count >? Z.of_nat DOT_PRODUCT_ACCEL_INPUT_SIZE
  then Z.of_nat DOT_PRODUCT_ACCEL_INPUT_SIZE else count.

(** The local array [fixed[SIZE] = {0}] after the conversion loop
    [for (i = 0; i < actual_count; i++) fixed[i] = (uint32_t)double_to_fixed(...)]. *)
Definition fixed_array (values : list Q) (count : Z) : list Z :=
  for_loop (Z.to_nat (actual_count count))
    (fun i arr =>
       array_set arr i
         (to_uint32 (double_to_fixed (nth i values 0%Q) FIXED_POINT_FRACTIONAL_BITS)))
    (repeat 0 DOT_PRODUCT_ACCEL_INPUT_SIZE).

Definition dot_product_accel_set_inputs (available : bool)
    (inputs : list Q) (count : Z) (d : accel) : accel :=
  if available then dot_product_input_write (fixed_array inputs count) d else d.

Definition dot_product_accel_set_weights (available : bool)
    (weights : list Q) (count : Z) (d : accel) : accel :=
  if available then dot_product_weight_write (fixed_array weights count) d else d.

Definition dot_product_accel_get_result (available : bool) (d : accel) : Z * accel :=
  if available
  then (to_int32 (dot_product_accel_result_read d), count_read d)
  else (0, d).

(** The fallback accumulates in [int32_t]; an overflow of [result += ...],
    which C leaves undefined, wraps in the model. *)
Definition dot_product_accel_compute_chunk (available : bool)
    (inputs weights : list Q) (chunk_size : Z) (d : accel) : Z * accel :=
  if available then
    let d1 := dot_product_accel_set_inputs true inputs chunk_size d in
    let d2 := dot_product_accel_set_weights true weights chunk_size d1 in
    dot_product_accel_get_result true d2
  else
    (for_loop (Z.to_nat chunk_size)
       (fun i result =>
          to_int32 (result
                    + double_to_fixed (nth i inputs 0%Q * nth i weights 0%Q)
                        FIXED_POINT_FRACTIONAL_BITS))
       0,
     d).

(** The state of the loop of [dot_product_accel_dot_product]. *)
Record dp_state : Type := mk_dp {
  total_result : Z;
  processed : nat;
  dp_dev : accel
}.

(** One call of the chunk primitive at offset [processed], on [chunk_size]
    elements, and [total_result += chunk_result] in [int64_t]. *)
Definition dp_chunk (available : bool) (inputs weights : list Q)
    (chunk_size : nat) (st : dp_state) : dp_state :=
  let '(chunk_result, d) :=
    dot_product_accel_compute_chunk available
      (skipn (processed st) inputs) (skipn (processed st) weights)
      (Z.of_nat chunk_size) (dp_dev st) in
  {| total_result := to_int64 (total_result st + chunk_result);
     processed := processed st;
     dp_dev := d |}.

(** [while (processed + SIZE <= size) { ...; processed += SIZE; }].  The loop
    is run on fuel; [None] is a run that has not left the loop. *)
Fixpoint dp_full_chunks (fuel : nat) (available : bool) (inputs weights : list Q)
    (size : nat) (st : dp_state) : option dp_state :=
  match fuel with
  | O => None
  | S fuel' =>
      if Nat.leb (processed st + DOT_PRODUCT_ACCEL_INPUT_SIZE) size then
        let st1 := dp_chunk available inputs weights DOT_PRODUCT_ACCEL_INPUT_SIZE st in
        dp_full_chunks fuel' available inputs weights size
          {| total_result := total_result st1;
             processed := processed st1 + DOT_PRODUCT_ACCEL_INPUT_SIZE;
             dp_dev := dp_dev st1 |}
      else Some st
  end.

(** The part after the loop: the remainder chunk and the conversion. *)
Definition dp_finish (available : bool) (inputs weights : list Q)
    (size : nat) (st : dp_state) : Q * accel :=
  let st' :=
    if Nat.ltb (processed st) size
    then dp_chunk available inputs weights (size - processed st) st
    else st in
  (fixed64_to_double (total_result st') FIXED_POINT_FRACTIONAL_BITS, dp_dev st').

Definition dot_product_accel_dot_product_fuel (fuel : nat) (available : bool)
    (size : nat) (inputs weights : list Q) (d : accel) : option (Q * accel) :=
  match dp_full_chunks fuel available inputs weights size
          {| total_result := 0; processed := 0; dp_dev := d |} with
  | None => None
  | Some st => Some (dp_finish available inputs weights size st)
  end.

(** [size + 1] tests of the loop condition are enough whenever the lane count
    is positive (lemma [dp_full_chunks_runs]). *)
Definition dot_product_accel_dot_product (available : bool)
    (size : nat) (inputs weights : list Q) (d : accel) : option (Q * accel) :=
  dot_product_accel_dot_product_fuel (S size) available size inputs weights d.

(** The same call through pointers that may be [NULL].  The function has no
    check: with [size = 0] no element is read and the pointers do not matter;
    otherwise an absent vector is dereferenced, which C leaves undefined
    ([None]). *)
Definition dot_product_accel_dot_product_ptr (available : bool)
    (size : nat) (inputs weights : option (list Q)) (d : accel) : option (Q * accel) :=
  match size, inputs, weights with
  | O, _, _ => dot_product_accel_dot_product available 0 [] [] d
  | _, Some i, Some w => dot_product_accel_dot_product available size i w d
  | _, _, _ => None
  end.

(** ** [inference_dumb.h] *)

(** [logistic_result_read()]: the 32-bit result register of the logistic unit;
    every call of [logistic_get_result] is one use of the accelerator. *)
Definition logistic_get_result (d : accel) : Z * accel :=
  (to_uint32 (logistic_unit
                (lanes LOGISTIC_INPUT_SIZE (input_regs d))
                (lanes LOGISTIC_INPUT_SIZE (weight_regs d))),
   count_read d).

Definition logistic_set_inputs_direct (inputs : list Z) (d : accel) : accel :=
  for_loop LOGISTIC_INPUT_SIZE (fun i dev => csr_write_input dev i (nth i inputs 0)) d.

Definition logistic_set_weights_direct (weights : list Z) (d : accel) : accel :=
  for_loop LOGISTIC_INPUT_SIZE (fun i dev => csr_write_weight dev i (nth i weights 0)) d.

Definition logistic_init (d : accel) : accel :=
  let zeros := repeat 0 LOGISTIC_INPUT_SIZE in
  logistic_set_weights_direct zeros (logistic_set_inputs_direct zeros d).

Definition logistic_compute_dot_product (inputs weights : option (list Z)) (d : accel)
  : Z * accel :=
  match inputs, weights with
  | Some i, Some w =>
      logistic_get_result (logistic_set_weights_direct w (logistic_set_inputs_direct i d))
  | _, _ => (0, d)
  end.

(** *** Single-precision arithmetic

    A [float] is an IEEE 754 binary32 number: a multiple [m * 2^e] of a power
    of two with [|m| < 2^24] and [-149 <= e].  An arithmetic operation on
    [float]s returns the [float] nearest to the exact result, the one with an
    even [m] when two are equally near. *)

(** [2^e], for an exponent of either sign. *)
Definition Qpow2 (e : Z) : Q := Qpower (2 # 1) e.

(** The exponent of the binade of [q <> 0]: [2^e <= |q| < 2^(e + 1)]. *)
Definition Qlog2 (q : Q) : Z :=
  let e := Z.log2 (Z.abs (Qnum q)) - Z.log2 (Zpos (Qden q)) in
  if Qle_bool (Qpow2 e) (Qabs q) then e else e - 1.

(** The integer nearest to [q], the even one of two that are equally near. *)
Definition round_half_even (q : Q) : Z :=
  let f := Qfloor q in
  match Qcompare (q - inject_Z f) (1 # 2) with
  | Lt => f
  | Eq => if Z.even f then f else f + 1
  | Gt => f + 1
  end.

(** The [float] nearest to [q]: [q] is rounded to a multiple of [2^e], where
    [e] leaves 24 bits to the significand and is at least -149 (there the
    subnormal numbers start).  Beyond the largest [float] the machine gives
    an infinity, which no conversion to an integer is defined on; the model
    goes on with the finite value. *)
Definition round_float (q : Q) : Q :=
  if Qeq_bool q 0 then 0%Q
  else
    let e := Z.max (Qlog2 q - 23) (-149) in
    (inject_Z (round_half_even (q / Qpow2 e)) * Qpow2 e)%Q.

(** The value of a number of the Standard Library's specification of IEEE 754
    arithmetic, against which [round_float] is checked. *)
Definition SF2Q (f : spec_float) : Q :=
  match f with
  | S754_finite s m e => ((if s then -1 else 1) * inject_Z (Zpos m) * Qpow2 e)%Q
  | _ => 0%Q
  end.

(** [(uint32_t)(value * scale_factor)] with [value] a [float]: the
    [uint32_t] scale factor is converted to [float], the product is a [float]
    product, and the conversion to [uint32_t] truncates.  C defines the cast
    only when the truncated value fits [uint32_t]; outside, the model
    wraps. *)
Definition float_to_fixed (value : Q) (scale_factor : Z) : Z :=
  to_uint32 (c_trunc (round_float (value * round_float (inject_Z scale_factor)))).

(** The conversion loop of [logistic_compute_dot_product_float]: it stores the
    fixed-point values of both vectors (the two local arrays are not
    initialised in the source; the loop stores every element). *)
Definition float_fixed_arrays (inputs weights : list Q) (scale_factor : Z)
  : list Z * list Z :=
  for_loop LOGISTIC_INPUT_SIZE
    (fun i arrays =>
       (array_set (fst arrays) i (float_to_fixed (nth i inputs 0%Q) scale_factor),
        array_set (snd arrays) i (float_to_fixed (nth i weights 0%Q) scale_factor)))
    (repeat 0 LOGISTIC_INPUT_SIZE, repeat 0 LOGISTIC_INPUT_SIZE).

Definition logistic_compute_dot_product_float (inputs weights : option (list Q))
    (scale_factor : Z) (d : accel) : Z * accel :=
  match inputs, weights with
  | Some i, Some w =>
      if scale_factor =? 0 then (0, d)
      else
        let '(fixed_inputs, fixed_weights) := float_fixed_arrays i w scale_factor in
        logistic_compute_dot_product (Some fixed_inputs) (Some fixed_weights) d
  | _, _ => (0, d)
  end.

(** The state of the loop of [logistic_process_chunks]: the two counters, the
    cell [*accumulator] and the device. *)
Record chunk_state : Type := mk_chunk_state {
  chunks_processed : nat;
  remaining_data : nat;
  accumulator : Z;
  cs_dev : accel
}.

(** [*accumulator += chunk_result; chunks_processed++] *)
Definition add_chunk (st : chunk_state) (remaining : nat) (r : Z * accel) : chunk_state :=
  {| chunks_processed := S (chunks_processed st);
     remaining_data := remaining;
     accumulator := to_uint64 (accumulator st + fst r);
     cs_dev := snd r |}.

(** [while (remaining_data >= LOGISTIC_INPUT_SIZE) { ... }] on fuel. *)
Fixpoint process_full_chunks (fuel : nat) (inputs weights : list Z) (st : chunk_state)
  : option chunk_state :=
  match fuel with
  | O => None
  | S fuel' =>
      if Nat.leb LOGISTIC_INPUT_SIZE (remaining_data st) then
        let offset := (chunks_processed st * LOGISTIC_INPUT_SIZE)%nat in
        let r := logistic_compute_dot_product
                   (Some (skipn offset inputs)) (Some (skipn offset weights)) (cs_dev st) in
        process_full_chunks fuel' inputs weights
          (add_chunk st (remaining_data st - LOGISTIC_INPUT_SIZE) r)
      else Some st
  end.

(** The two local arrays of the partial chunk: [{0}], then the copy loop
    [partial_inputs[i] = inputs[offset + i]; partial_weights[i] = weights[offset + i]]. *)
Definition partial_arrays {A : Type} (zero : A) (inputs weights : list A)
    (offset remaining : nat) : list A * list A :=
  for_loop remaining
    (fun i arrays =>
       (array_set (fst arrays) i (nth (offset + i) inputs zero),
        array_set (snd arrays) i (nth (offset + i) weights zero)))
    (repeat zero LOGISTIC_INPUT_SIZE, repeat zero LOGISTIC_INPUT_SIZE).

(** [if (remaining_data > 0) { partial arrays, zero padded; one more chunk }] *)
Definition process_partial_chunk (inputs weights : list Z) (st : chunk_state) : chunk_state :=
  if Nat.ltb 0 (remaining_data st) then
    let '(partial_inputs, partial_weights) :=
      partial_arrays 0 inputs weights
        (chunks_processed st * LOGISTIC_INPUT_SIZE) (remaining_data st) in
    add_chunk st (remaining_data st)
      (logistic_compute_dot_product (Some partial_inputs) (Some partial_weights) (cs_dev st))
  else st.

(** The result of a call: the returned [int], the cell [*accumulator] ([None]
    for a [NULL] pointer) and the device. *)
Record chunks_result : Type := mk_chunks_result {
  cr_return : Z;
  cr_accumulator : option Z;
  cr_dev : accel
}.

Definition logistic_process_chunks_fuel (fuel : nat) (inputs weights : option (list Z))
    (data_size : nat) (acc : option Z) (d : accel) : option chunks_result :=
  match inputs, weights, acc with
  | Some i, Some w, Some a =>
      match process_full_chunks fuel i w
              {| chunks_processed := 0; remaining_data := data_size;
                 accumulator := a; cs_dev := d |} with
      | None => None
      | Some st =>
          let st' := process_partial_chunk i w st in
          Some {| cr_return := to_int32 (Z.of_nat (chunks_processed st'));
                  cr_accumulator := Some (accumulator st');
                  cr_dev := cs_dev st' |}
      end
  | _, _, _ => Some {| cr_return := -1; cr_accumulator := acc; cr_dev := d |}
  end.

Definition logistic_process_chunks (inputs weights : option (list Z))
    (data_size : nat) (acc : option Z) (d : accel) : option chunks_result :=
  logistic_process_chunks_fuel (S data_size) inputs weights data_size acc d.

(** The float variant: the same loop over [logistic_compute_dot_product_float]. *)
Fixpoint process_full_chunks_float (fuel : nat) (inputs weights : list Q)
    (scale_factor : Z) (st : chunk_state) : option chunk_state :=
  match fuel with
  | O => None
  | S fuel' =>
      if Nat.leb LOGISTIC_INPUT_SIZE (remaining_data st) then
        let offset := (chunks_processed st * LOGISTIC_INPUT_SIZE)%nat in
        let r := logistic_compute_dot_product_float
                   (Some (skipn offset inputs)) (Some (skipn offset weights))
                   scale_factor (cs_dev st) in
        process_full_chunks_float fuel' inputs weights scale_factor
          (add_chunk st (remaining_data st - LOGISTIC_INPUT_SIZE) r)
      else Some st
  end.

Definition process_partial_chunk_float (inputs weights : list Q) (scale_factor : Z)
    (st : chunk_state) : chunk_state :=
  if Nat.ltb 0 (remaining_data st) then
    let '(partial_inputs, partial_weights) :=
      partial_arrays 0%Q inputs weights
        (chunks_processed st * LOGISTIC_INPUT_SIZE) (remaining_data st) in
    add_chunk st (remaining_data st)
      (logistic_compute_dot_product_float (Some partial_inputs) (Some partial_weights)
         scale_factor (cs_dev st))
  else st.

Definition logistic_process_chunks_float_fuel (fuel : nat)
    (inputs weights : option (list Q)) (data_size : nat) (scale_factor : Z)
    (acc : option Z) (d : accel) : option chunks_result :=
  match inputs, weights, acc with
  | Some i, Some w, Some a =>
      if scale_factor =? 0
      then Some {| cr_return := -1; cr_accumulator := acc; cr_dev := d |}
      else
        match process_full_chunks_float fuel i w scale_factor
                {| chunks_processed := 0; remaining_data := data_size;
                   accumulator := a; cs_dev := d |} with
        | None => None
        | Some st =>
            let st' := process_partial_chunk_float i w scale_factor st in
            Some {| cr_return := to_int32 (Z.of_nat (chunks_processed st'));
                    cr_accumulator := Some (accumulator st');
                    cr_dev := cs_dev st' |}
        end
  | _, _, _ => Some {| cr_return := -1; cr_accumulator := acc; cr_dev := d |}
  end.

Definition logistic_process_chunks_float (inputs weights : option (list Q))
    (data_size : nat) (scale_factor : Z) (acc : option Z) (d : accel)
  : option chunks_result :=
  logistic_process_chunks_float_fuel (S data_size) inputs weights data_size scale_factor acc d.

(** [uint64_t accumulator = 0; chunks = logistic_process_chunks(..., &accumulator);
    if (chunks < 0) return 0; return (int64_t)accumulator + bias;] *)
Definition logistic_predict_large_dataset (inputs weights : option (list Z))
    (data_size : nat) (bias : Z) (d : accel) : option (Z * accel) :=
  match inputs, weights with
  | Some _, Some _ =>
      match logistic_process_chunks inputs weights data_size (Some 0) d with
      | None => None
      | Some r =>
          if cr_return r <? 0 then Some (0, cr_dev r)
          else
            match cr_accumulator r with
            | Some a => Some (to_int64 (to_int64 a + bias), cr_dev r)
            | None => Some (0, cr_dev r)
            end
      end
  | _, _ => Some (0, d)
  end.

Definition logistic_predict_raw (inputs weights : option (list Z)) (bias : Z) (d : accel)
  : Z * accel :=
  let '(dot_product, d') := logistic_compute_dot_product inputs weights d in
  (to_int32 (to_int32 dot_product + bias), d').

(** [logistic_self_test]: 0 when the unit returns 36 on [1..8] against ones
    and 0 on zeros against ones, -1 otherwise. *)
Definition logistic_self_test (d : accel) : Z * accel :=
  let test_inputs := [1; 2; 3; 4; 5; 6; 7; 8] in
  let test_weights := [1; 1; 1; 1; 1; 1; 1; 1] in
  let '(result, d1) := logistic_compute_dot_product (Some test_inputs) (Some test_weights) d in
  let expected := 1 + 2 + 3 + 4 + 5 + 6 + 7 + 8 in
  if negb (result =? expected) then (-1, d1)
  else
    let zeros := repeat 0 LOGISTIC_INPUT_SIZE in
    let '(result', d2) := logistic_compute_dot_product (Some zeros) (Some test_weights) d1 in
    if negb (result' =? 0) then (-1, d2) else (0, d2).

(** ** [inference_accel.h] *)

Definition INFERENCE_ACCEL_STATUS_READY : Z := Z.shiftl 1 0.
Definition INFERENCE_ACCEL_STATUS_DONE : Z := Z.shiftl 1 1.
Definition INFERENCE_ACCEL_STATUS_BUSY : Z := Z.shiftl 1 2.

(** [(inference_accel_status_read() & INFERENCE_ACCEL_STATUS_DONE) != 0], on
    the [poll]-th value of the status register. *)
Definition inference_accel_is_done (poll : nat) : bool :=
  negb (Z.land (inference_accel_status poll) INFERENCE_ACCEL_STATUS_DONE =? 0).

(** [while (!inference_accel_is_done()) { }].  The function returns nothing;
    the model returns the number of status reads made so far when the loop is
    left, and [None] when [fuel] reads did not leave it. *)
Fixpoint inference_accel_wait_done (fuel : nat) (polls : nat) : option nat :=
  match fuel with
  | O => None
  | S fuel' =>
      if inference_accel_is_done polls then Some (S polls)
      else inference_accel_wait_done fuel' (S polls)
  end.

(** ** [training/iris_lr_model.h]: the 64-lane driver's wait *)

Definition LOGISTIC_TIMEOUT_MS : Z := 1000.

Inductive logistic_status_t : Type :=
| LOGISTIC_OK
| LOGISTIC_ERROR_TIMEOUT
| LOGISTIC_ERROR_INVALID_PARAM
| LOGISTIC_ERROR_BUSY.

Definition logistic_status_code (s : logistic_status_t) : Z :=
  match s with
  | LOGISTIC_OK => 0
  | LOGISTIC_ERROR_TIMEOUT => -1
  | LOGISTIC_ERROR_INVALID_PARAM => -2
  | LOGISTIC_ERROR_BUSY => -3
  end.

Record logistic_ctx_t : Type := mk_ctx {
  initialized : bool;
  timeout_ms : Z
}.

(** What the driver reads besides the context: the placeholder clock
    [system_time_ms] and the number of reads of the done register so far. *)
Record lr_state : Type := mk_lr {
  system_time_ms : Z;
  done_reads : nat
}.

(** [return system_time_ms++;] *)
Definition get_time_ms (s : lr_state) : Z * lr_state :=
  (system_time_ms s,
   {| system_time_ms := to_uint32 (system_time_ms s + 1); done_reads := done_reads s |}).

Definition logistic_is_done (ctx : option logistic_ctx_t) (s : lr_state) : bool * lr_state :=
  match ctx with
  | None => (false, s)
  | Some c =>
      if negb (initialized c) then (false, s)
      else (negb (Z.land (logistic_done (done_reads s)) 1 =? 0),
            {| system_time_ms := system_time_ms s; done_reads := S (done_reads s) |})
  end.

(** [while (!logistic_is_done(ctx)) { if ((get_time_ms() - start_time) >
    ctx->timeout_ms) return LOGISTIC_ERROR_TIMEOUT; } return LOGISTIC_OK;] *)
Fixpoint logistic_wait_loop (fuel : nat) (c : logistic_ctx_t) (start_time : Z)
    (s : lr_state) : option (logistic_status_t * lr_state) :=
  match fuel with
  | O => None
  | S fuel' =>
      let '(done, s1) := logistic_is_done (Some c) s in
      if done then Some (LOGISTIC_OK, s1)
      else
        let '(now, s2) := get_time_ms s1 in
        if to_uint32 (now - start_time) >? timeout_ms c
        then Some (LOGISTIC_ERROR_TIMEOUT, s2)
        else logistic_wait_loop fuel' c start_time s2
  end.

Definition logistic_wait_done (fuel : nat) (ctx : option logistic_ctx_t) (s : lr_state)
  : option (logistic_status_t * lr_state) :=
  match ctx with
  | None => Some (LOGISTIC_ERROR_INVALID_PARAM, s)
  | Some c =>
      if negb (initialized c) then Some (LOGISTIC_ERROR_INVALID_PARAM, s)
      else
        let '(start_time, s1) := get_time_ms s in
        logistic_wait_loop fuel c start_time s1
  end.

(** [while (!logistic_is_done(ctx) && (get_time_ms() - start_time) < 100) { }]:
    the clock is read only when the unit is not done. *)
Fixpoint logistic_reset_loop (fuel : nat) (c : logistic_ctx_t) (start_time : Z)
    (s : lr_state) : option lr_state :=
  match fuel with
  | O => None
  | S fuel' =>
      let '(done, s1) := logistic_is_done (Some c) s in
      if done then Some s1
      else
        let '(now, s2) := get_time_ms s1 in
        if to_uint32 (now - start_time) <? 100
        then logistic_reset_loop fuel' c start_time s2
        else Some s2
  end.

Definition logistic_reset (fuel : nat) (ctx : option logistic_ctx_t) (s : lr_state)
  : option (logistic_status_t * lr_state) :=
  match ctx with
  | None => Some (LOGISTIC_ERROR_INVALID_PARAM, s)
  | Some c =>
      let '(start_time, s1) := get_time_ms s in
      match logistic_reset_loop fuel c start_time s1 with
      | None => None
      | Some s2 => Some (LOGISTIC_OK, s2)
      end
  end.

(** [logistic_init(ctx, timeout_ms)] of the 64-lane driver (the 8-lane driver
    has a function of the same name): it returns the status, the context it
    has written and the state. *)
Definition logistic_ctx_init (fuel : nat) (ctx : option logistic_ctx_t) (timeout : Z)
    (s : lr_state) : option (logistic_status_t * option logistic_ctx_t * lr_state) :=
  match ctx with
  | None => Some (LOGISTIC_ERROR_INVALID_PARAM, None, s)
  | Some _ =>
      let c := {| initialized := true;
                  timeout_ms := if timeout >? 0 then timeout else LOGISTIC_TIMEOUT_MS |} in
      match logistic_reset fuel (Some c) s with
      | None => None
      | Some (status, s') => Some (status, Some c, s')
      end
  end.

(** ** What the chunked engines are compared with *)

(** The number of chunks of [size] elements: [ceil (size / lane_count)]. *)
Definition ceil_div (size lane_count : nat) : nat :=
  ((size + lane_count - 1) / lane_count)%nat.

(** The lanes of chunk [k] of the first [size] elements of [v]: the elements
    [k * LOGISTIC_INPUT_SIZE + i] that exist, zero beyond them. *)
Definition chunk_lanes (v : list Z) (size k : nat) : list Z :=
  map (fun i =>
         if Nat.ltb (k * LOGISTIC_INPUT_SIZE + i) size
         then nth (k * LOGISTIC_INPUT_SIZE + i) v 0 else 0)
      (seq 0 LOGISTIC_INPUT_SIZE).

(** The unit's 32-bit result on chunk [k]. *)
Definition chunk_result (inputs weights : list Z) (size k : nat) : Z :=
  to_uint32 (logistic_unit (chunk_lanes inputs size k) (chunk_lanes weights size k)).

(** The mathematical dot product of the first [size] elements. *)
Definition dot_product (inputs weights : list Z) (size : nat) : Z :=
  sum_upto size (fun i => nth i inputs 0 * nth i weights 0).

(** The value of one call of [dot_product_accel_compute_chunk]; it does not
    depend on what the registers held before (lemma [compute_chunk_value]). *)
Definition chunk_value (available : bool) (inputs weights : list Q) (chunk_size : nat) : Z :=
  fst (dot_product_accel_compute_chunk available inputs weights (Z.of_nat chunk_size)
         accel_zero).

(** Chunk [k] of [dot_product_accel_dot_product] on [size] elements: it starts
    at element [k * SIZE] and has [SIZE] elements, or what is left of them. *)
Definition dp_chunk_value (available : bool) (inputs weights : list Q) (size k : nat) : Z :=
  chunk_value available
    (skipn (k * DOT_PRODUCT_ACCEL_INPUT_SIZE) inputs)
    (skipn (k * DOT_PRODUCT_ACCEL_INPUT_SIZE) weights)
    (Nat.min DOT_PRODUCT_ACCEL_INPUT_SIZE (size - k * DOT_PRODUCT_ACCEL_INPUT_SIZE)).

(** The unit's result on chunk [k] of the float engine: the elements are
    padded with [0.0f] and then converted with [float_to_fixed]. *)
Definition chunk_result_float (inputs weights : list Q) (scale_factor : Z) (size k : nat) : Z :=
  to_uint32
    (logistic_unit
       (map (fun i =>
               float_to_fixed
                 (if Nat.ltb (k * LOGISTIC_INPUT_SIZE + i) size
                  then nth (k * LOGISTIC_INPUT_SIZE + i) inputs 0%Q else 0%Q)
                 scale_factor)
            (seq 0 LOGISTIC_INPUT_SIZE))
       (map (fun i =>
               float_to_fixed
                 (if Nat.ltb (k * LOGISTIC_INPUT_SIZE + i) size
                  then nth (k * LOGISTIC_INPUT_SIZE + i) weights 0%Q else 0%Q)
                 scale_factor)
            (seq 0 LOGISTIC_INPUT_SIZE))).

(** ** More of [inference_accel.h]: the Q16.16 macros *)

(** [((int32_t)((x) * 65536.0))] *)
Definition FLOAT_TO_FIXED (x : Q) : Z := to_int32 (c_trunc (x * inject_Z 65536)).

(** [(((double)(x)) / 65536.0)] *)
Definition FIXED_TO_FLOAT (x : Z) : Q := (inject_Z x / inject_Z 65536)%Q.

(** ** More of [inference_dumb.h] *)

(** [logistic_set_input(index, value)]: the read-modify-write of one lane
    through a 64-bit temporary.  [reg_addr] is word [reg_index] of the bank
    and [reg_addr + 4] the word after it; the bank is storage, the function
    reads it back.  The two branches of the source on [reg_index] are the same
    statements.  A shift of the 64-bit temporary by 64 bits or more is
    undefined in C: [None]. *)
Definition logistic_set_input (index value : Z) (d : accel) : option accel :=
  if index >=? Z.of_nat LOGISTIC_INPUT_SIZE then Some d
  else
    let reg_index := Z.to_nat (index / 4) in
    let bit_offset := (index mod 4) * 32 in
    if bit_offset >=? 64 then None
    else
      let current_val := to_uint32 (input_regs d reg_index) in
      let current_val :=
        Z.land current_val (to_uint64 (Z.lnot (to_uint64 (Z.shiftl 4294967295 bit_offset)))) in
      let current_val := Z.lor current_val (to_uint64 (Z.shiftl value bit_offset)) in
      let d1 := csr_write_input d reg_index (to_uint32 current_val) in
      if bit_offset >=? 32
      then Some (csr_write_input d1 (S reg_index) (to_uint32 (Z.shiftr current_val 32)))
      else Some d1.

Definition logistic_set_weight (index value : Z) (d : accel) : option accel :=
  if index >=? Z.of_nat LOGISTIC_INPUT_SIZE then Some d
  else
    let reg_index := Z.to_nat (index / 4) in
    let bit_offset := (index mod 4) * 32 in
    if bit_offset >=? 64 then None
    else
      let current_val := to_uint32 (weight_regs d reg_index) in
      let current_val :=
        Z.land current_val (to_uint64 (Z.lnot (to_uint64 (Z.shiftl 4294967295 bit_offset)))) in
      let current_val := Z.lor current_val (to_uint64 (Z.shiftl value bit_offset)) in
      let d1 := csr_write_weight d reg_index (to_uint32 current_val) in
      if bit_offset >=? 32
      then Some (csr_write_weight d1 (S reg_index) (to_uint32 (Z.shiftr current_val 32)))
      else Some d1.

(** [if (!inputs) return -1; logistic_set_inputs_direct(inputs); return 0;] *)
Definition logistic_set_inputs (inputs : option (list Z)) (d : accel) : Z * accel :=
  match inputs with
  | None => (-1, d)
  | Some i => (0, logistic_set_inputs_direct i d)
  end.

Definition logistic_set_weights (weights : option (list Z)) (d : accel) : Z * accel :=
  match weights with
  | None => (-1, d)
  | Some w => (0, logistic_set_weights_direct w d)
  end.

(** [logistic_predict_large_dataset_float]: as the integer predictor, over
    [logistic_process_chunks_float]. *)
Definition logistic_predict_large_dataset_float (inputs weights : option (list Q))
    (data_size : nat) (scale_factor bias : Z) (d : accel) : option (Z * accel) :=
  match inputs, weights with
  | Some _, Some _ =>
      if scale_factor =? 0 then Some (0, d)
      else
        match logistic_process_chunks_float inputs weights data_size scale_factor
                (Some 0) d with
        | None => None
        | Some r =>
            if cr_return r <? 0 then Some (0, cr_dev r)
            else
              match cr_accumulator r with
              | Some a => Some (to_int64 (to_int64 a + bias), cr_dev r)
              | None => Some (0, cr_dev r)
              end
        end
  | _, _ => Some (0, d)
  end.


(** ** More of [training/iris_lr_model.h]: the registers of the 64-lane driver *)

(** Conversion to [uint8_t], the type of a register index. *)
Definition to_uint8 (z : Z) : Z := z mod 2 ^ 8.

(** What the 64-lane driver writes and reads: the two banks, the bias
    register, the values written to the start register (oldest first), and
    the clock and done register of [lr_state]. *)
Record lr_regs : Type := mk_lr_regs {
  lr_input_data : reg_file;
  lr_weights : reg_file;
  lr_bias : Z;
  lr_start_writes : list Z;
  lr_clock : lr_state
}.

Definition set_lr_input_data (m : lr_regs) (r : reg_file) : lr_regs :=
  {| lr_input_data := r; lr_weights := lr_weights m; lr_bias := lr_bias m;
     lr_start_writes := lr_start_writes m; lr_clock := lr_clock m |}.

Definition set_lr_weights (m : lr_regs) (r : reg_file) : lr_regs :=
  {| lr_input_data := lr_input_data m; lr_weights := r; lr_bias := lr_bias m;
     lr_start_writes := lr_start_writes m; lr_clock := lr_clock m |}.

Definition set_lr_bias (m : lr_regs) (b : Z) : lr_regs :=
  {| lr_input_data := lr_input_data m; lr_weights := lr_weights m; lr_bias := b;
     lr_start_writes := lr_start_writes m; lr_clock := lr_clock m |}.

Definition set_lr_clock (m : lr_regs) (s : lr_state) : lr_regs :=
  {| lr_input_data := lr_input_data m; lr_weights := lr_weights m; lr_bias := lr_bias m;
     lr_start_writes := lr_start_writes m; lr_clock := s |}.

(** [logistic_start_write(v)] *)
Definition logistic_start_write (v : Z) (m : lr_regs) : lr_regs :=
  {| lr_input_data := lr_input_data m; lr_weights := lr_weights m; lr_bias := lr_bias m;
     lr_start_writes := lr_start_writes m ++ [v]; lr_clock := lr_clock m |}.

(** The output register of the 64-lane unit: what it holds is decided by the
    hardware, from whatever the driver has done so far. *)
Variable logistic_output : lr_regs -> Z.

(** [logistic_write_input_data_reg(index, value)], [index] a [uint8_t]. *)
Definition logistic_write_input_data_reg (index value : Z) (m : lr_regs)
  : logistic_status_t * lr_regs :=
  if index >=? Z.of_nat LOGISTIC_INPUT_SIZE then (LOGISTIC_ERROR_INVALID_PARAM, m)
  else (LOGISTIC_OK, set_lr_input_data m (reg_write (lr_input_data m) (Z.to_nat index) value)).

Definition logistic_write_weight_reg (index value : Z) (m : lr_regs)
  : logistic_status_t * lr_regs :=
  if index >=? Z.of_nat LOGISTIC_INPUT_SIZE then (LOGISTIC_ERROR_INVALID_PARAM, m)
  else (LOGISTIC_OK, set_lr_weights m (reg_write (lr_weights m) (Z.to_nat index) value)).

(** [logistic_read_input_data_reg(index, value)]: the status and what is
    stored in [*value]; [value] is absent when the pointer is [NULL]. *)
Definition logistic_read_input_data_reg (index : Z) (value : option Z) (m : lr_regs)
  : logistic_status_t * option Z :=
  match value with
  | None => (LOGISTIC_ERROR_INVALID_PARAM, value)
  | Some _ =>
      if index >=? Z.of_nat LOGISTIC_INPUT_SIZE then (LOGISTIC_ERROR_INVALID_PARAM, value)
      else (LOGISTIC_OK, Some (lr_input_data m (Z.to_nat index)))
  end.

Definition logistic_read_weight_reg (index : Z) (value : option Z) (m : lr_regs)
  : logistic_status_t * option Z :=
  match value with
  | None => (LOGISTIC_ERROR_INVALID_PARAM, value)
  | Some _ =>
      if index >=? Z.of_nat LOGISTIC_INPUT_SIZE then (LOGISTIC_ERROR_INVALID_PARAM, value)
      else (LOGISTIC_OK, Some (lr_weights m (Z.to_nat index)))
  end.

(** [for (int i = ...; i < LOGISTIC_INPUT_SIZE; i++) { status = write(i,
    data[i]); if (status != LOGISTIC_OK) return status; } return LOGISTIC_OK;]
    with [n] iterations left; the [int] counter becomes a [uint8_t] at the
    call. *)
Fixpoint logistic_write_array_from (write : Z -> Z -> lr_regs -> logistic_status_t * lr_regs)
    (n : nat) (i : Z) (data : list Z) (m : lr_regs) : logistic_status_t * lr_regs :=
  match n with
  | O => (LOGISTIC_OK, m)
  | S n' =>
      let '(status, m1) := write (to_uint8 i) (nth (Z.to_nat i) data 0) m in
      match status with
      | LOGISTIC_OK => logistic_write_array_from write n' (i + 1) data m1
      | _ => (status, m1)
      end
  end.

Definition logistic_write_input_data_array (data : list Z) (m : lr_regs)
  : logistic_status_t * lr_regs :=
  logistic_write_array_from logistic_write_input_data_reg LOGISTIC_INPUT_SIZE 0 data m.

Definition logistic_write_weights_array (weights : list Z) (m : lr_regs)
  : logistic_status_t * lr_regs :=
  logistic_write_array_from logistic_write_weight_reg LOGISTIC_INPUT_SIZE 0 weights m.

(** [!ctx || !ctx->initialized] *)
Definition ctx_unusable (ctx : option logistic_ctx_t) : bool :=
  match ctx with
  | None => true
  | Some c => negb (initialized c)
  end.

Definition logistic_set_input_data (ctx : option logistic_ctx_t) (input_data : option (list Z))
    (m : lr_regs) : logistic_status_t * lr_regs :=
  if ctx_unusable ctx then (LOGISTIC_ERROR_INVALID_PARAM, m)
  else
    match input_data with
    | None => (LOGISTIC_ERROR_INVALID_PARAM, m)
    | Some data => logistic_write_input_data_array data m
    end.

(** [logistic_set_weights(ctx, weights)] of the 64-lane driver (the 8-lane
    driver has a function of the same name). *)
Definition logistic_ctx_set_weights (ctx : option logistic_ctx_t) (weights : option (list Z))
    (m : lr_regs) : logistic_status_t * lr_regs :=
  if ctx_unusable ctx then (LOGISTIC_ERROR_INVALID_PARAM, m)
  else
    match weights with
    | None => (LOGISTIC_ERROR_INVALID_PARAM, m)
    | Some w => logistic_write_weights_array w m
    end.

Definition logistic_set_bias (ctx : option logistic_ctx_t) (bias : Z) (m : lr_regs)
  : logistic_status_t * lr_regs :=
  if ctx_unusable ctx then (LOGISTIC_ERROR_INVALID_PARAM, m)
  else (LOGISTIC_OK, set_lr_bias m bias).

Definition logistic_start_inference (ctx : option logistic_ctx_t) (m : lr_regs)
  : logistic_status_t * lr_regs :=
  if ctx_unusable ctx then (LOGISTIC_ERROR_INVALID_PARAM, m)
  else
    let '(done, s1) := logistic_is_done ctx (lr_clock m) in
    if negb done then (LOGISTIC_ERROR_BUSY, set_lr_clock m s1)
    else (LOGISTIC_OK, logistic_start_write 1 (set_lr_clock m s1)).

(** [logistic_get_result(ctx, result)] of the 64-lane driver: the status and
    what is stored in [*result]. *)
Definition logistic_ctx_get_result (ctx : option logistic_ctx_t) (result : option Z)
    (m : lr_regs) : logistic_status_t * option Z :=
  if ctx_unusable ctx then (LOGISTIC_ERROR_INVALID_PARAM, result)
  else
    match result with
    | None => (LOGISTIC_ERROR_INVALID_PARAM, result)
    | Some _ => (LOGISTIC_OK, Some (to_uint32 (logistic_output m)))
    end.

(** [logistic_inference(ctx, input_data, weights, bias, result)]: the status,
    what [*result] holds afterwards and the registers; [None] when the wait
    was not left within [fuel] polls. *)
Definition logistic_inference (fuel : nat) (ctx : option logistic_ctx_t)
    (input_data weights : option (list Z)) (bias : Z) (result : option Z) (m : lr_regs)
  : option (logistic_status_t * option Z * lr_regs) :=
  if ctx_unusable ctx then Some (LOGISTIC_ERROR_INVALID_PARAM, result, m)
  else
    match input_data, weights, result with
    | Some _, Some _, Some _ =>
        let '(status, m1) := logistic_set_input_data ctx input_data m in
        match status with
        | LOGISTIC_OK =>
            let '(status, m2) := logistic_ctx_set_weights ctx weights m1 in
            match status with
            | LOGISTIC_OK =>
                let '(status, m3) := logistic_set_bias ctx bias m2 in
                match status with
                | LOGISTIC_OK =>
                    let '(status, m4) := logistic_start_inference ctx m3 in
                    match status with
                    | LOGISTIC_OK =>
                        match logistic_wait_done fuel ctx (lr_clock m4) with
                        | None => None
                        | Some (LOGISTIC_OK, s5) =>
                            let m5 := set_lr_clock m4 s5 in
                            let '(status, r) := logistic_ctx_get_result ctx result m5 in
                            Some (status, r, m5)
                        | Some (status, s5) => Some (status, result, set_lr_clock m4 s5)
                        end
                    | _ => Some (status, result, m4)
                    end
                | _ => Some (status, result, m3)
                end
            | _ => Some (status, result, m2)
            end
        | _ => Some (status, result, m1)
        end
    | _, _, _ => Some (LOGISTIC_ERROR_INVALID_PARAM, result, m)
    end.

(** ** More of [inference_accel.h]: the handshake *)

Definition INFERENCE_ACCEL_CTRL_START : Z := Z.shiftl 1 0.
Definition INFERENCE_ACCEL_CTRL_RESET : Z := Z.shiftl 1 1.

(** A write to one of the unit's registers, with the 32-bit value written. *)
Inductive ia_write : Type :=
| IA_CONTROL (v : Z)
| IA_INPUT_DATA (v : Z)
| IA_WEIGHT (v : Z)
| IA_BIAS (v : Z).

(** The handshake unit as the driver sees it: the number of reads of the
    status register so far and the register writes so far, oldest first. *)
Record ia_state : Type := mk_ia {
  ia_polls : nat;
  ia_writes : list ia_write
}.

Definition ia_csr_write (w : ia_write) (s : ia_state) : ia_state :=
  {| ia_polls := ia_polls s; ia_writes := ia_writes s ++ [w] |}.

(** The result register of the handshake unit: what it holds is decided by
    the hardware, from whatever the driver has done so far. *)
Variable inference_accel_result : ia_state -> Z.

(** [inference_accel_result_read()], a [uint32_t] as the [dot_product_accel]
    and [logistic] result registers are. *)
Definition inference_accel_result_read (s : ia_state) : Z :=
  to_uint32 (inference_accel_result s).

Definition inference_accel_reset (s : ia_state) : ia_state :=
  ia_csr_write (IA_CONTROL 0) (ia_csr_write (IA_CONTROL INFERENCE_ACCEL_CTRL_RESET) s).

Definition inference_accel_init (s : ia_state) : ia_state := inference_accel_reset s.

Definition inference_accel_is_ready (poll : nat) : bool :=
  negb (Z.land (inference_accel_status poll) INFERENCE_ACCEL_STATUS_READY =? 0).

Definition inference_accel_is_busy (poll : nat) : bool :=
  negb (Z.land (inference_accel_status poll) INFERENCE_ACCEL_STATUS_BUSY =? 0).

Definition inference_accel_set_params (weight bias : Q) (s : ia_state) : ia_state :=
  ia_csr_write (IA_BIAS (to_uint32 (FLOAT_TO_FIXED bias)))
    (ia_csr_write (IA_WEIGHT (to_uint32 (FLOAT_TO_FIXED weight))) s).

Definition inference_accel_set_params_fixed (weight_fixed bias_fixed : Z) (s : ia_state)
  : ia_state :=
  ia_csr_write (IA_BIAS (to_uint32 bias_fixed))
    (ia_csr_write (IA_WEIGHT (to_uint32 weight_fixed)) s).

(** [while (!inference_accel_is_ready()) { }] in
    [inference_accel_compute_fixed]: the number of status reads made when the
    loop is left, [None] when [fuel] reads did not leave it. *)
Fixpoint wait_ready_loop (fuel : nat) (polls : nat) : option nat :=
  match fuel with
  | O => None
  | S fuel' =>
      if inference_accel_is_ready polls then Some (S polls)
      else wait_ready_loop fuel' (S polls)
  end.

(** [inference_accel_compute_fixed(input_fixed)]; [fuel] bounds each of its
    two loops. *)
Definition inference_accel_compute_fixed (fuel : nat) (input_fixed : Z) (s : ia_state)
  : option (Z * ia_state) :=
  match wait_ready_loop fuel (ia_polls s) with
  | None => None
  | Some p1 =>
      let s1 := {| ia_polls := p1; ia_writes := ia_writes s |} in
      let s2 := ia_csr_write (IA_INPUT_DATA (to_uint32 input_fixed)) s1 in
      let s3 := ia_csr_write (IA_CONTROL INFERENCE_ACCEL_CTRL_START) s2 in
      let s4 := ia_csr_write (IA_CONTROL 0) s3 in
      match inference_accel_wait_done fuel (ia_polls s4) with
      | None => None
      | Some p2 =>
          let s5 := {| ia_polls := p2; ia_writes := ia_writes s4 |} in
          Some (to_int32 (inference_accel_result_read s5), s5)
      end
  end.

Definition inference_accel_compute (fuel : nat) (input : Q) (s : ia_state)
  : option (Z * ia_state) :=
  inference_accel_compute_fixed fuel (FLOAT_TO_FIXED input) s.

(** [FIXED_TO_FLOAT(inference_accel_result_read())]: the macro is applied to
    the [uint32_t] that the read returns. *)
Definition inference_accel_get_result_float (s : ia_state) : Q :=
  FIXED_TO_FLOAT (inference_accel_result_read s).

Definition inference_accel_get_result_fixed (s : ia_state) : Z :=
  to_int32 (inference_accel_result_read s).

(** ** [software/drivers/timer.c] and the benchmarks: the stopwatch *)

(** The successive values read from the value register of [timer0], and the
    clock frequency of the build ([CONFIG_CLOCK_FREQUENCY], an [int]
    constant of a generated header). *)
Variable timer0_value : nat -> Z.
Variable CONFIG_CLOCK_FREQUENCY : Z.

Inductive timer_write : Type :=
| TIMER0_EN (v : Z)
| TIMER0_RELOAD (v : Z)
| TIMER0_LOAD (v : Z)
| TIMER0_UPDATE_VALUE (v : Z).

(** The two globals of the stopwatch, the writes to the timer so far (oldest
    first) and the number of reads of its value register. *)
Record stopwatch : Type := mk_stopwatch {
  start_ticks : Z;
  elapsed_ticks : Z;
  timer0_writes : list timer_write;
  timer0_reads : nat
}.

Definition timer0_write (w : timer_write) (t : stopwatch) : stopwatch :=
  {| start_ticks := start_ticks t; elapsed_ticks := elapsed_ticks t;
     timer0_writes := timer0_writes t ++ [w]; timer0_reads := timer0_reads t |}.

(** [timer0_value_read()] *)
Definition timer0_value_read (t : stopwatch) : Z * stopwatch :=
  (to_uint32 (timer0_value (timer0_reads t)),
   {| start_ticks := start_ticks t; elapsed_ticks := elapsed_ticks t;
      timer0_writes := timer0_writes t; timer0_reads := S (timer0_reads t) |}).

Definition get_elapsed_ticks (t : stopwatch) : Z := elapsed_ticks t.

Definition start_stopwatch (t : stopwatch) : stopwatch :=
  let t := timer0_write (TIMER0_EN 0) t in
  let t := timer0_write (TIMER0_RELOAD 4294967295) t in
  let t := timer0_write (TIMER0_LOAD 4294967295) t in
  let t := timer0_write (TIMER0_EN 1) t in
  let t := timer0_write (TIMER0_UPDATE_VALUE 1) t in
  let '(v, t) := timer0_value_read t in
  {| start_ticks := v; elapsed_ticks := elapsed_ticks t;
     timer0_writes := timer0_writes t; timer0_reads := timer0_reads t |}.

Definition stop_stopwatch (t : stopwatch) : stopwatch :=
  let t := timer0_write (TIMER0_UPDATE_VALUE 1) t in
  let '(end_ticks, t) := timer0_value_read t in
  {| start_ticks := start_ticks t; elapsed_ticks := to_uint32 (start_ticks t - end_ticks);
     timer0_writes := timer0_writes t; timer0_reads := timer0_reads t |}.

(** The numbers that [print_elapsed_time] computes from [ticks] and prints,
    in the types it prints them with. *)
Record elapsed_report : Type := mk_report {
  rep_ticks : Z;
  rep_minutes : Z;
  rep_rem_seconds : Z;
  rep_rem_milliseconds : Z;
  rep_milliseconds : Z;
  rep_MHz : Z
}.

(** [print_elapsed_time(ticks, name)]: [CONFIG_CLOCK_FREQUENCY / 1000000] is
    an [int] division, converted to [uint32_t] for the division of [ticks];
    a division by zero is undefined: [None]. *)
Definition print_elapsed_time (ticks : Z) : option elapsed_report :=
  let divisor := to_uint32 (Z.quot CONFIG_CLOCK_FREQUENCY 1000000) in
  if divisor =? 0 then None
  else
    let microseconds := ticks / divisor in
    let milliseconds := microseconds / 1000 in
    let seconds := milliseconds / 1000 in
    let minutes := seconds / 60 in
    let rem_seconds := seconds mod 60 in
    let rem_milliseconds := milliseconds mod 1000 in
    let MHz := to_uint32 (Z.quot CONFIG_CLOCK_FREQUENCY 1000000) in
    Some {| rep_ticks := ticks;
            rep_minutes := to_int32 minutes;
            rep_rem_seconds := to_int32 rem_seconds;
            rep_rem_milliseconds := to_int32 rem_milliseconds;
            rep_milliseconds := milliseconds;
            rep_MHz := MHz |}.

(** ** The console of the demo ([unnamed/part_002]) *)

(** The characters of the C string that starts an array: those before the
    first NUL. *)
Fixpoint c_string (s : list Z) : list Z :=
  match s with
  | [] => []
  | h :: t => if h =? 0 then [] else h :: c_string t
  end.

(** The statics of [readstr] ([s], [ptr]) and what has been written to
    [stdout]. *)
Record console : Type := mk_console {
  line_s : list Z;
  line_ptr : Z;
  console_out : list Z
}.

(** [readstr()]: [input] is absent when [readchar_nonblock()] is 0 and is
    the character [c[0]] otherwise.  The result is the string returned,
    absent for [NULL].  [ptr] is compared with [sizeof(s) - 1] as a
    [size_t]; [fputs(c, stdout)] writes the string [c], which is empty when
    [c[0]] is NUL. *)
Definition readstr (input : option Z) (st : console) : option (list Z) * console :=
  match input with
  | None => (None, st)
  | Some c0 =>
      if (c0 =? 127) || (c0 =? 8) then
        if line_ptr st >? 0
        then (None, {| line_s := line_s st; line_ptr := to_int32 (line_ptr st - 1);
                       console_out := console_out st ++ [8; 32; 8] |})
        else (None, st)
      else if c0 =? 7 then (None, st)
      else if (c0 =? 13) || (c0 =? 10) then
        let s' := array_set (line_s st) (Z.to_nat (line_ptr st)) 0 in
        (Some (c_string s'),
         {| line_s := s'; line_ptr := 0; console_out := console_out st ++ [10] |})
      else if to_uint32 (line_ptr st) >=? 64 - 1 then (None, st)
      else
        (None, {| line_s := array_set (line_s st) (Z.to_nat (line_ptr st)) c0;
                  line_ptr := to_int32 (line_ptr st + 1);
                  console_out := console_out st ++ c_string [c0; 0] |})
  end.

(** The characters typed one after the other, none of which ends the line. *)
Definition readstr_all (cs : list Z) (st : console) : console :=
  fold_left (fun st c => snd (readstr (Some c) st)) cs st.

(** [strchr(s, c)] for [c] other than NUL: the index of the first [c]. *)
Fixpoint strchr (s : list Z) (c : Z) : option nat :=
  match s with
  | [] => None
  | h :: t => if h =? c then Some O else option_map S (strchr t c)
  end.

(** [get_token(&str)]: the token returned and the string [*str] points to
    afterwards. *)
Definition get_token (str : list Z) : list Z * list Z :=
  match strchr str 32 with
  | None => (str, [])
  | Some k => (firstn k str, skipn (S k) str)
  end.

(** A character that [readstr] stores: not NUL, and none of those its
    [switch] treats apart (bell, backspace, line feed, carriage return,
    delete). *)
Definition plain_char (c : Z) : Prop :=
  c <> 0 /\ c <> 7 /\ c <> 8 /\ c <> 10 /\ c <> 13 /\ c <> 127.

(** The statics of [readstr] as they are between two calls: [s] has its 64
    elements and [ptr] is the index of one of them, the last one left free
    for the terminator. *)
Definition console_ok (st : console) : Prop :=
  length (line_s st) = 64%nat /\ 0 <= line_ptr st <= 63.

(** The statics of [readstr] after the characters [typed] have been stored:
    [ptr] counts them and they are the first elements of [s]. *)
Definition console_holds (st : console) (typed : list Z) : Prop :=
  length (line_s st) = 64%nat
  /\ line_ptr st = Z.of_nat (length typed)
  /\ (length typed <= 63)%nat
  /\ firstn (length typed) (line_s st) = typed
  /\ Forall (fun c => c <> 0) typed.

(** ** Values the drivers are run on *)

(** A done register that shows its bit from the [n]-th read on. *)
Definition done_after (n : nat) : nat -> Z := fun k => if Nat.ltb k n then 0 else 1.

Definition demo_ctx : logistic_ctx_t := {| initialized := true; timeout_ms := 5 |}.

Definition lr_state_zero : lr_state := {| system_time_ms := 0; done_reads := 0 |}.

Definition lr_regs_zero : lr_regs :=
  {| lr_input_data := fun _ => 0; lr_weights := fun _ => 0; lr_bias := 0;
     lr_start_writes := []; lr_clock := lr_state_zero |}.

(** An output register that holds the bias plus what the first two lanes
    multiply to. *)
Definition demo_output (m : lr_regs) : Z :=
  lr_bias m + lr_input_data m 0%nat * lr_weights m 0%nat
  + lr_input_data m 1%nat * lr_weights m 1%nat.

(** A timer read at 5 and then, 11 ticks later, past zero. *)
Definition demo_timer (n : nat) : Z :=
  match n with
  | O => 5
  | S _ => 2 ^ 32 - 6
  end.

Definition stopwatch_zero : stopwatch :=
  {| start_ticks := 0; elapsed_ticks := 0; timer0_writes := []; timer0_reads := 0 |}.

Definition console_empty : console :=
  {| line_s := repeat 0 64; line_ptr := 0; console_out := [] |}.
(** ** Facts on the casts *)

Lemma to_int32_id z : in_int32 z -> to_int32 z = z.
Proof.
  unfold in_int32, to_int32. intros H.
  rewrite Z.mod_small; lia.
Qed.

Lemma to_uint64_range z : 0 <= to_uint64 z < 2 ^ 64.
Proof. unfold to_uint64. apply Z.mod_pos_bound. lia. Qed.

Lemma to_int32_mod z : to_int32 (z mod 2 ^ 32) = to_int32 z.
Proof.
  unfold to_int32.
  rewrite Z.add_mod_idemp_l by lia. reflexivity.
Qed.

Lemma to_int32_congr a b : a mod 2 ^ 32 = b mod 2 ^ 32 -> to_int32 a = to_int32 b.
Proof.
  intros H. rewrite <- (to_int32_mod a), <- (to_int32_mod b), H. reflexivity.
Qed.

Lemma to_int32_add_l a b : to_int32 (to_int32 a + b) = to_int32 (a + b).
Proof.
  apply to_int32_congr. unfold to_int32.
  rewrite <- Zplus_mod_idemp_l.
  rewrite Zminus_mod_idemp_l.
  rewrite Zplus_mod_idemp_l. f_equal. lia.
Qed.

Lemma to_uint32_to_int32 z : to_int32 (to_uint32 z) = to_int32 z.
Proof. apply to_int32_mod. Qed.

Lemma to_int64_range z : - 2 ^ 63 <= to_int64 z < 2 ^ 63.
Proof.
  unfold to_int64.
  pose proof (Z.mod_pos_bound (z + 2 ^ 63) (2 ^ 64) ltac:(lia)). lia.
Qed.

Lemma to_int64_id z : - 2 ^ 63 <= z < 2 ^ 63 -> to_int64 z = z.
Proof. intros H. unfold to_int64. rewrite Z.mod_small; lia. Qed.

Lemma to_int64_add_l a b : to_int64 (to_int64 a + b) = to_int64 (a + b).
Proof.
  unfold to_int64. f_equal.
  replace ((a + 2 ^ 63) mod 2 ^ 64 - 2 ^ 63 + b + 2 ^ 63)
    with ((a + 2 ^ 63) mod 2 ^ 64 + b) by lia.
  rewrite Zplus_mod_idemp_l. f_equal. lia.
Qed.

Lemma to_int64_uint64_add a b : to_int64 (to_uint64 a + b) = to_int64 (a + b).
Proof.
  unfold to_int64, to_uint64. f_equal.
  rewrite <- Z.add_assoc, Zplus_mod_idemp_l. f_equal. lia.
Qed.

Lemma to_uint64_add_l a b : to_uint64 (to_uint64 a + b) = to_uint64 (a + b).
Proof. unfold to_uint64. apply Zplus_mod_idemp_l. Qed.

Lemma to_uint64_id z : 0 <= z < 2 ^ 64 -> to_uint64 z = z.
Proof. intros H. unfold to_uint64. apply Z.mod_small. exact H. Qed.

(** ** Facts on truncation *)

Lemma shiftl_1_pow F : 0 <= F -> Z.shiftl 1 F = 2 ^ F.
Proof. intros H. rewrite Z.shiftl_mul_pow2 by exact H. lia. Qed.

Lemma c_trunc_inject_Z z : c_trunc (inject_Z z) = z.
Proof. unfold c_trunc. simpl. apply Z.quot_1_r. Qed.

(** Truncation toward zero is the floor of a non-negative value and the
    ceiling of a negative one. *)
Lemma c_trunc_floor q : (0 <= q)%Q -> c_trunc q = Qfloor q.
Proof.
  destruct q as [n d]. unfold Qle, c_trunc, Qfloor. simpl. intros H.
  apply Z.quot_div_nonneg; lia.
Qed.

Lemma c_trunc_ceiling q : (q <= 0)%Q -> c_trunc q = Qceiling q.
Proof.
  destruct q as [n d]. unfold Qle, c_trunc, Qceiling, Qfloor, Qopp. simpl. intros H.
  replace n with (- (- n)) at 1 by lia.
  rewrite Z.quot_opp_l by lia.
  rewrite Z.quot_div_nonneg by lia. reflexivity.
Qed.

(** The truncated value is less than one unit away from the value. *)
Lemma c_trunc_error q : (Qabs (inject_Z (c_trunc q) - q) < 1)%Q.
Proof.
  destruct (Qlt_le_dec q 0) as [Hq | Hq].
  - rewrite c_trunc_ceiling by (apply Qlt_le_weak; exact Hq).
    pose proof (Qceiling_lt q) as H. pose proof (Qle_ceiling q) as H'.
    unfold Z.sub in H. rewrite inject_Z_plus in H.
    change (inject_Z (- (1))) with (-1 # 1)%Q in H.
    apply Qabs_case; intros _; lra.
  - rewrite c_trunc_floor by exact Hq.
    pose proof (Qlt_floor q) as H. pose proof (Qfloor_le q) as H'.
    rewrite inject_Z_plus in H.
    change (inject_Z 1) with (1 # 1)%Q in H.
    apply Qabs_case; intros _; lra.
Qed.

Lemma c_trunc_in_int32 (y : Q) :
  (inject_Z (- 2 ^ 31) <= y)%Q -> (y < inject_Z (2 ^ 31))%Q -> in_int32 (c_trunc y).
Proof.
  intros Hlo Hhi. unfold in_int32.
  destruct (Qlt_le_dec y 0) as [Hy | Hy].
  - rewrite c_trunc_ceiling by (apply Qlt_le_weak; exact Hy). split.
    + rewrite <- (Qceiling_Z (- 2 ^ 31)). apply Qceiling_resp_le. exact Hlo.
    + apply Z.le_lt_trans with 0; [ | lia ].
      change 0 with (Qceiling (inject_Z 0)).
      apply Qceiling_resp_le. apply Qlt_le_weak. exact Hy.
  - rewrite c_trunc_floor by exact Hy. split.
    + apply Z.le_trans with 0; [ lia | ].
      change 0 with (Qfloor (inject_Z 0)) at 1.
      apply Qfloor_resp_le. exact Hy.
    + pose proof (Qfloor_le y) as H.
      rewrite Zlt_Qlt. eapply Qle_lt_trans; [ exact H | exact Hhi ].
Qed.

Lemma inject_Z_pos (s : Z) : 0 < s -> (0 < inject_Z s)%Q.
Proof. intros H. unfold Qlt. simpl. lia. Qed.

Lemma scale_round_trip (x : Q) (s : Z) (t : Z) :
  0 < s ->
  (Qabs (inject_Z t - x * inject_Z s) < 1)%Q ->
  (Qabs (inject_Z t / inject_Z s - x) < 1 / inject_Z s)%Q.
Proof.
  intros Hs H.
  assert (Hs' : (0 < inject_Z s)%Q) by (apply inject_Z_pos; exact Hs).
  assert (Hne : ~ (inject_Z s == 0)%Q) by (intro E; rewrite E in Hs'; discriminate).
  assert (E : (inject_Z t / inject_Z s - x
               == (inject_Z t - x * inject_Z s) * / inject_Z s)%Q) by (field; exact Hne).
  rewrite E, Qabs_Qmult.
  rewrite (Qabs_pos (/ inject_Z s)) by (apply Qlt_le_weak, Qinv_lt_0_compat; exact Hs').
  unfold Qdiv. apply Qmult_lt_compat_r; [ apply Qinv_lt_0_compat; exact Hs' | exact H ].
Qed.

(** C7.  In the safe range (0 <= F <= 30, so that [1 << F] is defined, and
    [x * 2^F] inside [int32_t]) [double_to_fixed x F] is [x * 2^F] truncated
    toward zero (the floor of a non-negative value, the ceiling of a negative
    one: no rounding), [fixed_to_double fixed F] is [fixed / 2^F], and decoding
    the encoding of [x] is less than [2^-F] away from [x]. *)
Theorem codec_truncation_round_trip (x : Q) (F : Z) :
  0 <= F <= 30 ->
  (inject_Z (- 2 ^ 31) <= x * inject_Z (2 ^ F))%Q ->
  (x * inject_Z (2 ^ F) < inject_Z (2 ^ 31))%Q ->
  double_to_fixed x F
    = (if Qle_bool 0 x then Qfloor (x * inject_Z (2 ^ F))
       else Qceiling (x * inject_Z (2 ^ F)))
  /\ (forall fixed : Z,
        (fixed_to_double fixed F == inject_Z fixed / inject_Z (2 ^ F))%Q)
  /\ (Qabs (fixed_to_double (double_to_fixed x F) F - x) < 1 / inject_Z (2 ^ F))%Q.
Proof.
  intros HF Hlo Hhi.
  assert (Hpow : 0 < 2 ^ F) by (apply Z.pow_pos_nonneg; lia).
  assert (Hs : (0 < inject_Z (2 ^ F))%Q) by (apply inject_Z_pos; exact Hpow).
  assert (Henc : double_to_fixed x F = c_trunc (x * inject_Z (2 ^ F))).
  { unfold double_to_fixed. rewrite shiftl_1_pow by lia.
    apply to_int32_id. apply c_trunc_in_int32; assumption. }
  split; [ | split ].
  - rewrite Henc. destruct (Qle_bool 0 x) eqn:Hx.
    + apply c_trunc_floor. apply Qle_bool_iff in Hx.
      apply Qmult_le_0_compat; [ exact Hx | apply Qlt_le_weak; exact Hs ].
    + apply c_trunc_ceiling.
      assert (Hneg : (x < 0)%Q).
      { apply Qnot_le_lt. intro Hc. apply Qle_bool_iff in Hc. congruence. }
      setoid_replace 0%Q with (0 * inject_Z (2 ^ F))%Q by ring.
      apply Qmult_le_compat_r; [ apply Qlt_le_weak; exact Hneg | apply Qlt_le_weak; exact Hs ].
  - intros fixed. unfold fixed_to_double. rewrite shiftl_1_pow by lia. reflexivity.
  - rewrite Henc. unfold fixed_to_double. rewrite shiftl_1_pow by lia.
    apply scale_round_trip; [ exact Hpow | apply c_trunc_error ].
Qed.

Lemma for_loop_S {S : Type} (n : nat) (body : nat -> S -> S) (s : S) :
  for_loop (Datatypes.S n) body s = body n (for_loop n body s).
Proof.
  unfold for_loop. rewrite seq_S, fold_left_app. reflexivity.
Qed.

(** A loop on a pair of arrays that handles each on its own. *)
Lemma for_loop_pair {A B : Type} (n : nat) (f : nat -> A -> A) (g : nat -> B -> B)
    (a : A) (b : B) :
  for_loop n (fun i p => (f i (fst p), g i (snd p))) (a, b)
  = (for_loop n f a, for_loop n g b).
Proof.
  induction n as [ | n IH ].
  - reflexivity.
  - rewrite !for_loop_S, IH. reflexivity.
Qed.

Lemma length_array_set {A : Type} (a : list A) i v : length (array_set a i v) = length a.
Proof.
  revert i. induction a as [ | h t IH ]; intros [ | j ]; simpl; auto.
Qed.

Lemma nth_array_set {A : Type} (a : list A) i v j (dflt : A) :
  (i < length a)%nat ->
  nth j (array_set a i v) dflt = if Nat.eqb j i then v else nth j a dflt.
Proof.
  revert i j. induction a as [ | h t IH ]; intros i j Hi; simpl in Hi; [ lia | ].
  destruct i as [ | i ]; destruct j as [ | j ]; simpl; auto.
  apply IH. lia.
Qed.

(** A loop that stores [f i] at index [i] for [i < n]. *)
Lemma for_loop_fill {A : Type} (f : nat -> A) (n : nat) (a : list A) (dflt : A) :
  (n <= length a)%nat ->
  length (for_loop n (fun i arr => array_set arr i (f i)) a) = length a /\
  forall j, nth j (for_loop n (fun i arr => array_set arr i (f i)) a) dflt
            = if Nat.ltb j n then f j else nth j a dflt.
Proof.
  induction n as [ | n IH ]; intros Hn.
  - split; [ reflexivity | intros j; reflexivity ].
  - destruct IH as [IHlen IHnth]; [ lia | ].
    rewrite for_loop_S. split.
    + rewrite length_array_set. exact IHlen.
    + intros j. rewrite nth_array_set by lia. rewrite IHnth.
      destruct (Nat.eqb_spec j n) as [-> | Hne].
      * rewrite (proj2 (Nat.ltb_lt n (S n))) by lia. reflexivity.
      * destruct (Nat.ltb_spec j n); destruct (Nat.ltb_spec j (S n)); try lia; reflexivity.
Qed.

Lemma nth_repeat_0 {A : Type} (z : A) n j : nth j (repeat z n) z = z.
Proof.
  revert j. induction n as [ | n IH ]; intros [ | j ]; simpl; auto.
Qed.

(** ** The register setters *)

Lemma input_write_loop (f : nat -> Z) (n : nat) (d : accel) :
  (forall j, input_regs (for_loop n (fun i dev => csr_write_input dev i (f i)) d) j
             = if Nat.ltb j n then f j else input_regs d j)
  /\ weight_regs (for_loop n (fun i dev => csr_write_input dev i (f i)) d) = weight_regs d
  /\ result_reads (for_loop n (fun i dev => csr_write_input dev i (f i)) d) = result_reads d.
Proof.
  induction n as [ | n [IHi [IHw IHr]] ].
  - repeat split.
  - rewrite for_loop_S. simpl. repeat split; [ | exact IHw | exact IHr ].
    intros j. unfold reg_write. rewrite IHi.
    destruct (Nat.eqb_spec j n) as [-> | Hne].
    + rewrite (proj2 (Nat.ltb_lt n (S n))) by lia. reflexivity.
    + destruct (Nat.ltb_spec j n); destruct (Nat.ltb_spec j (S n)); try lia; reflexivity.
Qed.

Lemma weight_write_loop (f : nat -> Z) (n : nat) (d : accel) :
  (forall j, weight_regs (for_loop n (fun i dev => csr_write_weight dev i (f i)) d) j
             = if Nat.ltb j n then f j else weight_regs d j)
  /\ input_regs (for_loop n (fun i dev => csr_write_weight dev i (f i)) d) = input_regs d
  /\ result_reads (for_loop n (fun i dev => csr_write_weight dev i (f i)) d) = result_reads d.
Proof.
  induction n as [ | n [IHw [IHi IHr]] ].
  - repeat split.
  - rewrite for_loop_S. simpl. repeat split; [ | exact IHi | exact IHr ].
    intros j. unfold reg_write. rewrite IHw.
    destruct (Nat.eqb_spec j n) as [-> | Hne].
    + rewrite (proj2 (Nat.ltb_lt n (S n))) by lia. reflexivity.
    + destruct (Nat.ltb_spec j n); destruct (Nat.ltb_spec j (S n)); try lia; reflexivity.
Qed.

Lemma actual_count_le (count : Z) :
  (Z.to_nat (actual_count count) <= DOT_PRODUCT_ACCEL_INPUT_SIZE)%nat.
Proof.
  unfold actual_count. destruct (Z.gtb_spec count (Z.of_nat DOT_PRODUCT_ACCEL_INPUT_SIZE)); lia.
Qed.


(** The converted local array: the encodings of the first [actual_count]
    values, then zeros. *)
Lemma nth_fixed_array (values : list Q) (count : Z) (j : nat) :
  nth j (fixed_array values count) 0
  = if Nat.ltb j (Z.to_nat (actual_count count))
    then to_uint32 (double_to_fixed (nth j values 0%Q) FIXED_POINT_FRACTIONAL_BITS)
    else 0.
Proof.
  unfold fixed_array.
  destruct (for_loop_fill
              (fun i => to_uint32 (double_to_fixed (nth i values 0%Q) FIXED_POINT_FRACTIONAL_BITS))
              (Z.to_nat (actual_count count))
              (repeat 0 DOT_PRODUCT_ACCEL_INPUT_SIZE) 0) as [_ Hnth].
  - rewrite repeat_length. apply actual_count_le.
  - rewrite Hnth, nth_repeat_0. reflexivity.
Qed.

Lemma set_inputs_regs (values : list Q) (count : Z) (d : accel) (j : nat) :
  input_regs (dot_product_accel_set_inputs true values count d) j
  = if Nat.ltb j DOT_PRODUCT_ACCEL_INPUT_SIZE
    then nth j (fixed_array values count) 0
    else input_regs d j.
Proof.
  unfold dot_product_accel_set_inputs, dot_product_input_write.
  apply (input_write_loop (fun i => nth i (fixed_array values count) 0)).
Qed.

Lemma set_weights_regs (values : list Q) (count : Z) (d : accel) (j : nat) :
  weight_regs (dot_product_accel_set_weights true values count d) j
  = if Nat.ltb j DOT_PRODUCT_ACCEL_INPUT_SIZE
    then nth j (fixed_array values count) 0
    else weight_regs d j.
Proof.
  unfold dot_product_accel_set_weights, dot_product_weight_write.
  apply (weight_write_loop (fun i => nth i (fixed_array values count) 0)).
Qed.


(** X1.  Initialisation clears every lane of both banks, in
    [dot_product_accel_init] (with the accelerator) and in [logistic_init]. *)
Theorem init_clears_lanes (d : accel) :
  (forall j : nat, (j < DOT_PRODUCT_ACCEL_INPUT_SIZE)%nat ->
     input_regs (dot_product_accel_init true d) j = 0
     /\ weight_regs (dot_product_accel_init true d) j = 0)
  /\ (forall j : nat, (j < LOGISTIC_INPUT_SIZE)%nat ->
        input_regs (logistic_init d) j = 0
        /\ weight_regs (logistic_init d) j = 0).
Proof.
  split; intros j Hj.
  - unfold dot_product_accel_init, dot_product_weight_write, dot_product_input_write.
    destruct (weight_write_loop
                (fun i => nth i (repeat 0 DOT_PRODUCT_ACCEL_INPUT_SIZE) 0)
                DOT_PRODUCT_ACCEL_INPUT_SIZE
                (for_loop DOT_PRODUCT_ACCEL_INPUT_SIZE
                   (fun i dev =>
                      csr_write_input dev i (nth i (repeat 0 DOT_PRODUCT_ACCEL_INPUT_SIZE) 0))
                   d)) as [Hw [Hi _]].
    rewrite Hi, Hw.
    destruct (input_write_loop
                (fun i => nth i (repeat 0 DOT_PRODUCT_ACCEL_INPUT_SIZE) 0)
                DOT_PRODUCT_ACCEL_INPUT_SIZE d) as [Hin _].
    rewrite Hin. rewrite (proj2 (Nat.ltb_lt _ _) Hj), nth_repeat_0. split; reflexivity.
  - unfold logistic_init, logistic_set_weights_direct, logistic_set_inputs_direct.
    destruct (weight_write_loop
                (fun i => nth i (repeat 0 LOGISTIC_INPUT_SIZE) 0)
                LOGISTIC_INPUT_SIZE
                (for_loop LOGISTIC_INPUT_SIZE
                   (fun i dev =>
                      csr_write_input dev i (nth i (repeat 0 LOGISTIC_INPUT_SIZE) 0))
                   d)) as [Hw [Hi _]].
    rewrite Hi, Hw.
    destruct (input_write_loop
                (fun i => nth i (repeat 0 LOGISTIC_INPUT_SIZE) 0)
                LOGISTIC_INPUT_SIZE d) as [Hin _].
    rewrite Hin. rewrite (proj2 (Nat.ltb_lt _ _) Hj), nth_repeat_0. split; reflexivity.
Qed.

(** ** Sums over lanes *)

Lemma sum_upto_S n f : sum_upto (S n) f = sum_upto n f + f n.
Proof.
  unfold sum_upto. rewrite seq_S, map_app, fold_right_app. simpl.
  generalize (map f (seq 0 n)). intros l.
  induction l as [ | h t IH ]; simpl; [ lia | rewrite IH; lia ].
Qed.

Lemma sum_upto_ext n f g :
  (forall i, (i < n)%nat -> f i = g i) -> sum_upto n f = sum_upto n g.
Proof.
  intros H. unfold sum_upto. f_equal. apply map_ext_in.
  intros i Hi. apply in_seq in Hi. apply H. lia.
Qed.

(** Lanes past [n] that contribute zero do not change a sum. *)
Lemma sum_upto_padded n m f :
  (n <= m)%nat ->
  sum_upto m (fun i => if Nat.ltb i n then f i else 0) = sum_upto n f.
Proof.
  induction m as [ | m IH ]; intros H.
  - replace n with O by lia. reflexivity.
  - rewrite sum_upto_S. destruct (Nat.eq_dec n (S m)) as [-> | Hne].
    + rewrite (sum_upto_S m f).
      rewrite (proj2 (Nat.ltb_lt m (S m))) by lia.
      f_equal. apply sum_upto_ext. intros i Hi.
      rewrite (proj2 (Nat.ltb_lt i (S m))) by lia. reflexivity.
    + rewrite IH by lia. rewrite (proj2 (Nat.ltb_ge m n)) by lia. lia.
Qed.

Lemma combine_map_seq {A B : Type} (f : nat -> A) (g : nat -> B) (l : list nat) :
  combine (map f l) (map g l) = map (fun i => (f i, g i)) l.
Proof.
  induction l as [ | h t IH ]; simpl; [ reflexivity | rewrite IH; reflexivity ].
Qed.


Lemma q16_mac_lanes_seq n (f g : nat -> Z) :
  q16_mac_lanes (map f (seq 0 n)) (map g (seq 0 n))
  = sum_upto n (fun i => Z.quot (to_int32 (f i) * to_int32 (g i)) (2 ^ 16)).
Proof.
  unfold q16_mac_lanes, sum_upto. rewrite combine_map_seq, map_map. reflexivity.
Qed.

(** An [int32_t] accumulation loop is the wrapped sum of its terms. *)
Lemma for_loop_sum_int32 n (t : nat -> Z) :
  for_loop n (fun i result => to_int32 (result + t i)) 0 = to_int32 (sum_upto n t).
Proof.
  induction n as [ | n IH ].
  - reflexivity.
  - rewrite for_loop_S, IH, sum_upto_S. apply to_int32_add_l.
Qed.

Lemma for_loop_ext {S : Type} n (f g : nat -> S -> S) (s : S) :
  (forall i st, (i < n)%nat -> f i st = g i st) -> for_loop n f s = for_loop n g s.
Proof.
  induction n as [ | n IH ]; intros H.
  - reflexivity.
  - rewrite !for_loop_S, IH by (intros; apply H; lia). apply H. lia.
Qed.

(** ** The two builds of [dot_product_accel_compute_chunk] *)

Lemma c_trunc_Qeq (p q : Q) : (p == q)%Q -> c_trunc p = c_trunc q.
Proof.
  intros E. destruct (Qlt_le_dec p 0) as [Hp | Hp].
  - rewrite (c_trunc_ceiling p) by (apply Qlt_le_weak; exact Hp).
    rewrite (c_trunc_ceiling q) by (rewrite <- E; apply Qlt_le_weak; exact Hp).
    apply Qceiling_comp. exact E.
  - rewrite (c_trunc_floor p) by exact Hp.
    rewrite (c_trunc_floor q) by (rewrite <- E; exact Hp).
    apply Qfloor_comp. exact E.
Qed.

(** With the accelerator, the chunk result is the unit's result on the
    converted arrays, whatever the registers held before. *)
Lemma compute_chunk_hw (inputs weights : list Q) (chunk_size : Z) (d : accel) :
  dot_product_accel_compute_chunk true inputs weights chunk_size d
  = (to_int32 (dot_product_accel_unit
                 (map (fun j => nth j (fixed_array inputs chunk_size) 0)
                      (seq 0 DOT_PRODUCT_ACCEL_INPUT_SIZE))
                 (map (fun j => nth j (fixed_array weights chunk_size) 0)
                      (seq 0 DOT_PRODUCT_ACCEL_INPUT_SIZE))),
     count_read (dot_product_accel_set_weights true weights chunk_size
                   (dot_product_accel_set_inputs true inputs chunk_size d))).
Proof.
  unfold dot_product_accel_compute_chunk, dot_product_accel_get_result,
    dot_product_accel_result_read.
  rewrite to_uint32_to_int32. f_equal. f_equal. f_equal.
  - unfold dot_product_accel_set_weights at 1, dot_product_weight_write.
    destruct (weight_write_loop (fun i => nth i (fixed_array weights chunk_size) 0)
                DOT_PRODUCT_ACCEL_INPUT_SIZE
                (dot_product_accel_set_inputs true inputs chunk_size d)) as [_ [Hi _]].
    rewrite Hi. apply map_ext_in. intros j Hj. apply in_seq in Hj.
    rewrite set_inputs_regs. rewrite (proj2 (Nat.ltb_lt _ _)) by lia. reflexivity.
  - apply map_ext_in. intros j Hj. apply in_seq in Hj.
    rewrite set_weights_regs. rewrite (proj2 (Nat.ltb_lt _ _)) by lia. reflexivity.
Qed.

(** Without it, the chunk result is the wrapped sum of the truncated products. *)
Lemma compute_chunk_sw (inputs weights : list Q) (chunk_size : Z) (d : accel) :
  dot_product_accel_compute_chunk false inputs weights chunk_size d
  = (to_int32 (sum_upto (Z.to_nat chunk_size)
                 (fun i => double_to_fixed (nth i inputs 0%Q * nth i weights 0%Q)
                             FIXED_POINT_FRACTIONAL_BITS)),
     d).
Proof.
  unfold dot_product_accel_compute_chunk. f_equal.
  apply (for_loop_sum_int32 (Z.to_nat chunk_size)
           (fun i => double_to_fixed (nth i inputs 0%Q * nth i weights 0%Q)
                       FIXED_POINT_FRACTIONAL_BITS)).
Qed.

(** The conversion loop only sees the encodings of the values. *)
Lemma fixed_array_ext (xs ys : list Q) (count : Z) :
  (forall i, double_to_fixed (nth i xs 0%Q) FIXED_POINT_FRACTIONAL_BITS
             = double_to_fixed (nth i ys 0%Q) FIXED_POINT_FRACTIONAL_BITS) ->
  fixed_array xs count = fixed_array ys count.
Proof.
  intros H. unfold fixed_array. apply for_loop_ext. intros i st _. rewrite H. reflexivity.
Qed.

(** Encoding the value of a Q16.16 integer gives the integer back. *)
Lemma double_to_fixed_q16 (z : Z) :
  double_to_fixed (q16 z) FIXED_POINT_FRACTIONAL_BITS = to_int32 z.
Proof.
  unfold double_to_fixed, q16, fixed_to_double, FIXED_POINT_FRACTIONAL_BITS. f_equal.
  rewrite <- (c_trunc_inject_Z z) at 2. apply c_trunc_Qeq.
  change (Z.shiftl 1 16) with 65536. field.
Qed.

(** The fallback truncates the product of two Q16.16 values to the quotient
    of the integer product by 2^16. *)
Lemma double_to_fixed_q16_mul (a b : Z) :
  double_to_fixed (q16 a * q16 b) FIXED_POINT_FRACTIONAL_BITS
  = to_int32 (Z.quot (a * b) (2 ^ 16)).
Proof.
  unfold double_to_fixed, q16, fixed_to_double, FIXED_POINT_FRACTIONAL_BITS. f_equal.
  change (Z.shiftl 1 16) with 65536. change (2 ^ 16) with 65536.
  transitivity (c_trunc ((a * b) # 65536)); [ | reflexivity ].
  apply c_trunc_Qeq.
  rewrite (Qmake_Qdiv (a * b) 65536), inject_Z_mult.
  change (inject_Z (Z.pos 65536)) with (inject_Z 65536).
  field.
Qed.

Lemma nth_map_q16 (a : list Z) (i : nat) :
  (i < length a)%nat -> nth i (map q16 a) 0%Q = q16 (nth i a 0).
Proof.
  intros H. rewrite (nth_indep (map q16 a) 0%Q (q16 0)) by (rewrite length_map; exact H).
  apply map_nth.
Qed.

Lemma Forall_in_int32_nth (a : list Z) (i : nat) :
  Forall in_int32 a -> in_int32 (nth i a 0).
Proof.
  intros H. destruct (Nat.lt_ge_cases i (length a)) as [Hi | Hi].
  - rewrite Forall_forall in H. apply H. apply nth_In. exact Hi.
  - rewrite nth_overflow by exact Hi. unfold in_int32. lia.
Qed.

Lemma quot_in_int32 (p : Z) : Z.abs p < 2 ^ 47 -> in_int32 (Z.quot p (2 ^ 16)).
Proof.
  intros H. unfold in_int32.
  pose proof (Z.quot_rem' p (2 ^ 16)) as E.
  pose proof (Z.rem_bound_abs p (2 ^ 16) ltac:(lia)) as B.
  assert (S : (0 <= p -> 0 <= Z.rem p (2 ^ 16)) /\ (p <= 0 -> Z.rem p (2 ^ 16) <= 0)).
  { split; intros Hp; [ apply Z.rem_nonneg | apply Z.rem_nonpos ]; lia. }
  change (2 ^ 16) with 65536 in *.
  lia.
Qed.

(** The lane of the converted array for a vector of Q16.16 values. *)
Lemma fixed_array_q16_lane (a : list Z) (chunk_size : Z) (i : nat) :
  0 <= chunk_size <= Z.of_nat DOT_PRODUCT_ACCEL_INPUT_SIZE ->
  chunk_size <= Z.of_nat (length a) ->
  Forall in_int32 a ->
  to_int32 (nth i (fixed_array (map q16 a) chunk_size) 0)
  = if Nat.ltb i (Z.to_nat chunk_size) then nth i a 0 else 0.
Proof.
  intros Hc Hlen Ha. rewrite nth_fixed_array.
  assert (Hact : actual_count chunk_size = chunk_size).
  { unfold actual_count.
    destruct (Z.gtb_spec chunk_size (Z.of_nat DOT_PRODUCT_ACCEL_INPUT_SIZE)); lia. }
  rewrite Hact. destruct (Nat.ltb_spec i (Z.to_nat chunk_size)) as [Hi | Hi].
  - rewrite nth_map_q16 by lia.
    rewrite double_to_fixed_q16, to_uint32_to_int32.
    rewrite (to_int32_id (nth i a 0)) by (apply Forall_in_int32_nth; exact Ha).
    apply to_int32_id. apply Forall_in_int32_nth. exact Ha.
  - reflexivity.
Qed.

(** C1, amended.  On an accelerator that is a truncating Q16.16
    multiply-accumulate, the two builds of [dot_product_accel_compute_chunk]
    return the same [int32_t] when the chunk fits the lanes and every input
    and weight is exactly a Q16.16 value (products below 2^47, so that the
    [double] product is exact and its conversion is defined). *)
Theorem compute_chunk_builds_agree_on_q16 (a b : list Z) (chunk_size : Z) (d : accel) :
  (forall xs ws : list Z,
      length xs = DOT_PRODUCT_ACCEL_INPUT_SIZE ->
      length ws = DOT_PRODUCT_ACCEL_INPUT_SIZE ->
      to_int32 (dot_product_accel_unit xs ws) = to_int32 (q16_mac_lanes xs ws)) ->
  0 <= chunk_size <= Z.of_nat DOT_PRODUCT_ACCEL_INPUT_SIZE ->
  chunk_size <= Z.of_nat (length a) ->
  chunk_size <= Z.of_nat (length b) ->
  Forall in_int32 a ->
  Forall in_int32 b ->
  (forall i : nat, (i < Z.to_nat chunk_size)%nat -> Z.abs (nth i a 0 * nth i b 0) < 2 ^ 47) ->
  fst (dot_product_accel_compute_chunk true (map q16 a) (map q16 b) chunk_size d)
  = fst (dot_product_accel_compute_chunk false (map q16 a) (map q16 b) chunk_size d).
Proof.
  intros Hunit Hc Hla Hlb Ha Hb Hprod.
  rewrite compute_chunk_hw, compute_chunk_sw. simpl fst.
  rewrite Hunit by (rewrite length_map, length_seq; reflexivity).
  rewrite q16_mac_lanes_seq. f_equal.
  rewrite (sum_upto_ext _ _
             (fun i => if Nat.ltb i (Z.to_nat chunk_size)
                       then Z.quot (nth i a 0 * nth i b 0) (2 ^ 16) else 0)).
  - rewrite sum_upto_padded by lia. apply sum_upto_ext. intros i Hi.
    rewrite !nth_map_q16 by lia.
    rewrite double_to_fixed_q16_mul. symmetry. apply to_int32_id.
    apply quot_in_int32. apply Hprod. exact Hi.
  - intros i _.
    rewrite (fixed_array_q16_lane a chunk_size i Hc Hla Ha).
    rewrite (fixed_array_q16_lane b chunk_size i Hc Hlb Hb).
    destruct (Nat.ltb i (Z.to_nat chunk_size)); reflexivity.
Qed.

(** ** The chunk loop of [logistic_process_chunks] *)

Lemma sum_upto_shift n f : sum_upto (S n) f = f O + sum_upto n (fun k => f (S k)).
Proof.
  induction n as [ | n IH ].
  - unfold sum_upto. simpl. lia.
  - rewrite sum_upto_S, IH, (sum_upto_S n (fun k => f (S k))). lia.
Qed.

Lemma ceil_div_split (size n : nat) :
  (0 < n)%nat ->
  ceil_div size n = (size / n + (if Nat.eqb (size mod n) 0 then 0 else 1))%nat.
Proof.
  intros Hn. unfold ceil_div.
  pose proof (Nat.div_mod_eq size n) as E.
  pose proof (Nat.mod_upper_bound size n ltac:(lia)) as B.
  destruct (Nat.eqb_spec (size mod n) 0) as [Hz | Hnz].
  - replace (size + n - 1)%nat with ((n - 1) + (size / n) * n)%nat by nia.
    rewrite Nat.div_add by lia. rewrite Nat.div_small by lia. lia.
  - replace (size + n - 1)%nat with ((size mod n - 1) + (size / n + 1) * n)%nat by nia.
    rewrite Nat.div_add by lia. rewrite Nat.div_small by lia. lia.
Qed.

Lemma ceil_div_0 (n : nat) : (0 < n)%nat -> ceil_div 0 n = 0%nat.
Proof.
  intros Hn. rewrite ceil_div_split by exact Hn.
  rewrite Nat.Div0.div_0_l, Nat.Div0.mod_0_l. reflexivity.
Qed.

(** One call of the chunk primitive: the unit's result on the first
    [LOGISTIC_INPUT_SIZE] elements of each vector, and one read. *)
Lemma compute_dot_product_some (i w : list Z) (d : accel) :
  logistic_compute_dot_product (Some i) (Some w) d
  = (to_uint32 (logistic_unit
                  (map (fun j => nth j i 0) (seq 0 LOGISTIC_INPUT_SIZE))
                  (map (fun j => nth j w 0) (seq 0 LOGISTIC_INPUT_SIZE))),
     count_read (logistic_set_weights_direct w (logistic_set_inputs_direct i d))).
Proof.
  unfold logistic_compute_dot_product, logistic_get_result.
  f_equal. f_equal. f_equal.
  - unfold logistic_set_weights_direct.
    destruct (weight_write_loop (fun k => nth k w 0) LOGISTIC_INPUT_SIZE
                (logistic_set_inputs_direct i d)) as [_ [Hi _]].
    rewrite Hi. apply map_ext_in. intros j Hj. apply in_seq in Hj.
    unfold logistic_set_inputs_direct.
    destruct (input_write_loop (fun k => nth k i 0) LOGISTIC_INPUT_SIZE d) as [Hin _].
    rewrite Hin. rewrite (proj2 (Nat.ltb_lt _ _)) by lia. reflexivity.
  - apply map_ext_in. intros j Hj. apply in_seq in Hj.
    unfold logistic_set_weights_direct.
    destruct (weight_write_loop (fun k => nth k w 0) LOGISTIC_INPUT_SIZE
                (logistic_set_inputs_direct i d)) as [Hw _].
    rewrite Hw. rewrite (proj2 (Nat.ltb_lt _ _)) by lia. reflexivity.
Qed.

Lemma compute_dot_product_reads (i w : list Z) (d : accel) :
  result_reads (snd (logistic_compute_dot_product (Some i) (Some w) d))
  = S (result_reads d).
Proof.
  rewrite compute_dot_product_some. simpl. f_equal.
  unfold logistic_set_weights_direct.
  destruct (weight_write_loop (fun k => nth k w 0) LOGISTIC_INPUT_SIZE
              (logistic_set_inputs_direct i d)) as [_ [_ Hr]].
  rewrite Hr. unfold logistic_set_inputs_direct.
  destruct (input_write_loop (fun k => nth k i 0) LOGISTIC_INPUT_SIZE d) as [_ [_ Hr']].
  exact Hr'.
Qed.

(** A full chunk at index [c] is chunk [c] of the data. *)
Lemma full_chunk_result (inputs weights : list Z) (size c : nat) (d : accel) :
  (c * LOGISTIC_INPUT_SIZE + LOGISTIC_INPUT_SIZE <= size)%nat ->
  fst (logistic_compute_dot_product
         (Some (skipn (c * LOGISTIC_INPUT_SIZE) inputs))
         (Some (skipn (c * LOGISTIC_INPUT_SIZE) weights)) d)
  = chunk_result inputs weights size c.
Proof.
  intros H. rewrite compute_dot_product_some. simpl. unfold chunk_result, chunk_lanes.
  f_equal. f_equal; apply map_ext_in; intros j Hj; apply in_seq in Hj;
    rewrite nth_skipn; rewrite (proj2 (Nat.ltb_lt _ _)) by lia; reflexivity.
Qed.

Lemma div_mod_step (r n : nat) :
  (0 < n)%nat -> (n <= r)%nat ->
  (r / n = S ((r - n) / n))%nat /\ (r mod n = (r - n) mod n)%nat.
Proof.
  intros Hn Hr.
  replace r with ((r - n) + 1 * n)%nat at 1 3 by lia.
  rewrite Nat.div_add by lia. rewrite Nat.Div0.mod_add. split; lia.
Qed.

(** The two chunk loops have one shape: a loop that obeys the unfolding
    equation below, around a chunk primitive that returns [f c] on chunk [c]
    and reads the result register once, leaves after
    [remaining / LOGISTIC_INPUT_SIZE] chunks, each added to the accumulator. *)
Lemma chunk_loop_runs
    (loop : nat -> chunk_state -> option chunk_state)
    (step : chunk_state -> Z * accel) (f : nat -> Z) (size : nat) :
  (0 < LOGISTIC_INPUT_SIZE)%nat ->
  (forall st, loop O st = None) ->
  (forall fuel st,
      loop (S fuel) st
      = if Nat.leb LOGISTIC_INPUT_SIZE (remaining_data st)
        then loop fuel (add_chunk st (remaining_data st - LOGISTIC_INPUT_SIZE) (step st))
        else Some st) ->
  (forall st,
      (chunks_processed st * LOGISTIC_INPUT_SIZE + LOGISTIC_INPUT_SIZE <= size)%nat ->
      fst (step st) = f (chunks_processed st)) ->
  (forall st, result_reads (snd (step st)) = S (result_reads (cs_dev st))) ->
  forall (fuel : nat) (st : chunk_state),
    (chunks_processed st * LOGISTIC_INPUT_SIZE + remaining_data st = size)%nat ->
    (remaining_data st / LOGISTIC_INPUT_SIZE < fuel)%nat ->
    0 <= accumulator st < 2 ^ 64 ->
    exists st' : chunk_state,
      loop fuel st = Some st'
      /\ chunks_processed st'
         = (chunks_processed st + remaining_data st / LOGISTIC_INPUT_SIZE)%nat
      /\ remaining_data st' = (remaining_data st mod LOGISTIC_INPUT_SIZE)%nat
      /\ accumulator st'
         = to_uint64 (accumulator st
                      + sum_upto (remaining_data st / LOGISTIC_INPUT_SIZE)
                          (fun k => f (chunks_processed st + k)%nat))
      /\ result_reads (cs_dev st')
         = (result_reads (cs_dev st) + remaining_data st / LOGISTIC_INPUT_SIZE)%nat.
Proof.
  intros Hn Hloop0 HloopS Hstep Hreads.
  induction fuel as [ | fuel IH ]; intros st Hinv Hfuel Hacc; [ lia | ].
  rewrite HloopS.
  destruct (Nat.leb_spec LOGISTIC_INPUT_SIZE (remaining_data st)) as [Hge | Hlt].
  - destruct (div_mod_step (remaining_data st) LOGISTIC_INPUT_SIZE Hn Hge) as [Hdiv Hmod].
    match goal with |- context [loop fuel ?s] => set (st1 := s) end.
    destruct (IH st1) as [st' [Hrun [Hc [Hr [Ha Hd]]]]].
    + subst st1. unfold add_chunk. cbn [chunks_processed remaining_data]. lia.
    + subst st1. unfold add_chunk. cbn [remaining_data]. lia.
    + subst st1. unfold add_chunk. cbn [accumulator]. apply to_uint64_range.
    + exists st'. split; [ exact Hrun | ].
      subst st1. unfold add_chunk in Hc, Hr, Ha, Hd.
      cbn [chunks_processed remaining_data accumulator cs_dev] in Hc, Hr, Ha, Hd.
      rewrite Hreads in Hd.
      rewrite Hstep in Ha by lia.
      rewrite to_uint64_add_l in Ha.
      repeat split.
      * rewrite Hc, Hdiv. lia.
      * rewrite Hr, Hmod. reflexivity.
      * rewrite Ha, Hdiv, sum_upto_shift. f_equal.
        rewrite Nat.add_0_r, <- Z.add_assoc. f_equal. f_equal.
        apply sum_upto_ext. intros k _. f_equal. lia.
      * rewrite Hd, Hdiv. lia.
  - exists st. rewrite Nat.div_small by exact Hlt. rewrite Nat.mod_small by exact Hlt.
    repeat split; try lia.
    unfold sum_upto. simpl. rewrite Z.add_0_r. symmetry. apply to_uint64_id. exact Hacc.
Qed.

Lemma process_full_chunks_runs (inputs weights : list Z) (size : nat) :
  (0 < LOGISTIC_INPUT_SIZE)%nat ->
  forall (fuel : nat) (st : chunk_state),
    (chunks_processed st * LOGISTIC_INPUT_SIZE + remaining_data st = size)%nat ->
    (remaining_data st / LOGISTIC_INPUT_SIZE < fuel)%nat ->
    0 <= accumulator st < 2 ^ 64 ->
    exists st' : chunk_state,
      process_full_chunks fuel inputs weights st = Some st'
      /\ chunks_processed st'
         = (chunks_processed st + remaining_data st / LOGISTIC_INPUT_SIZE)%nat
      /\ remaining_data st' = (remaining_data st mod LOGISTIC_INPUT_SIZE)%nat
      /\ accumulator st'
         = to_uint64 (accumulator st
                      + sum_upto (remaining_data st / LOGISTIC_INPUT_SIZE)
                          (fun k => chunk_result inputs weights size
                                      (chunks_processed st + k)))
      /\ result_reads (cs_dev st')
         = (result_reads (cs_dev st) + remaining_data st / LOGISTIC_INPUT_SIZE)%nat.
Proof.
  intros Hn.
  apply (chunk_loop_runs
           (fun fuel st => process_full_chunks fuel inputs weights st)
           (fun st =>
              logistic_compute_dot_product
                (Some (skipn (chunks_processed st * LOGISTIC_INPUT_SIZE) inputs))
                (Some (skipn (chunks_processed st * LOGISTIC_INPUT_SIZE) weights))
                (cs_dev st))
           (chunk_result inputs weights size) size Hn).
  - reflexivity.
  - reflexivity.
  - intros st Hfit. apply full_chunk_result. exact Hfit.
  - intros st. apply compute_dot_product_reads.
Qed.

Lemma partial_arrays_eq {A : Type} (zero : A) (inputs weights : list A) (offset r : nat) :
  partial_arrays zero inputs weights offset r
  = (for_loop r (fun i arr => array_set arr i (nth (offset + i) inputs zero))
       (repeat zero LOGISTIC_INPUT_SIZE),
     for_loop r (fun i arr => array_set arr i (nth (offset + i) weights zero))
       (repeat zero LOGISTIC_INPUT_SIZE)).
Proof.
  unfold partial_arrays.
  apply (for_loop_pair r
           (fun i arr => array_set arr i (nth (offset + i) inputs zero))
           (fun i arr => array_set arr i (nth (offset + i) weights zero))).
Qed.

(** The partial chunk: the remaining elements in the first lanes, zeros in
    the others, which is the last chunk of the data. *)
Lemma partial_chunk_result (inputs weights : list Z) (size c r : nat) (d : accel) :
  (c * LOGISTIC_INPUT_SIZE + r = size)%nat ->
  (r < LOGISTIC_INPUT_SIZE)%nat ->
  fst (logistic_compute_dot_product
         (Some (for_loop r
                  (fun i arr => array_set arr i (nth (c * LOGISTIC_INPUT_SIZE + i) inputs 0))
                  (repeat 0 LOGISTIC_INPUT_SIZE)))
         (Some (for_loop r
                  (fun i arr => array_set arr i (nth (c * LOGISTIC_INPUT_SIZE + i) weights 0))
                  (repeat 0 LOGISTIC_INPUT_SIZE))) d)
  = chunk_result inputs weights size c.
Proof.
  intros Hsize Hr. rewrite compute_dot_product_some. simpl. unfold chunk_result, chunk_lanes.
  f_equal. f_equal; apply map_ext_in; intros j Hj; apply in_seq in Hj.
  - destruct (for_loop_fill (fun i => nth (c * LOGISTIC_INPUT_SIZE + i) inputs 0) r
                (repeat 0 LOGISTIC_INPUT_SIZE) 0) as [_ Hnth];
      [ rewrite repeat_length; lia | ].
    rewrite Hnth, nth_repeat_0.
    destruct (Nat.ltb_spec j r);
      destruct (Nat.ltb_spec (c * LOGISTIC_INPUT_SIZE + j) size); try lia; reflexivity.
  - destruct (for_loop_fill (fun i => nth (c * LOGISTIC_INPUT_SIZE + i) weights 0) r
                (repeat 0 LOGISTIC_INPUT_SIZE) 0) as [_ Hnth];
      [ rewrite repeat_length; lia | ].
    rewrite Hnth, nth_repeat_0.
    destruct (Nat.ltb_spec j r);
      destruct (Nat.ltb_spec (c * LOGISTIC_INPUT_SIZE + j) size); try lia; reflexivity.
Qed.

Lemma div_le_self (size n : nat) : (0 < n)%nat -> (size / n <= size)%nat.
Proof.
  intros Hn. pose proof (Nat.div_mod_eq size n). nia.
Qed.

(** The whole call on present pointers. *)
Lemma process_chunks_some (inputs weights : list Z) (size : nat) (a : Z) (d : accel) :
  (0 < LOGISTIC_INPUT_SIZE)%nat ->
  0 <= a < 2 ^ 64 ->
  exists r : chunks_result,
    logistic_process_chunks (Some inputs) (Some weights) size (Some a) d = Some r
    /\ cr_return r = to_int32 (Z.of_nat (ceil_div size LOGISTIC_INPUT_SIZE))
    /\ cr_accumulator r
       = Some (to_uint64 (a + sum_upto (ceil_div size LOGISTIC_INPUT_SIZE)
                                (chunk_result inputs weights size)))
    /\ result_reads (cr_dev r)
       = (result_reads d + ceil_div size LOGISTIC_INPUT_SIZE)%nat.
Proof.
  intros Hn Ha.
  unfold logistic_process_chunks, logistic_process_chunks_fuel.
  destruct (process_full_chunks_runs inputs weights size Hn (S size)
              {| chunks_processed := 0; remaining_data := size;
                 accumulator := a; cs_dev := d |})
    as [st [Hrun [Hc [Hr [Hacc Hd]]]]].
  - reflexivity.
  - cbn [remaining_data]. pose proof (div_le_self size LOGISTIC_INPUT_SIZE Hn). lia.
  - exact Ha.
  - cbn [chunks_processed remaining_data accumulator cs_dev] in Hc, Hr, Hacc, Hd.
    rewrite Hrun. eexists. split; [ reflexivity | ].
    cbn [cr_return cr_accumulator cr_dev].
    rewrite (ceil_div_split size LOGISTIC_INPUT_SIZE Hn).
    pose proof (Nat.mod_upper_bound size LOGISTIC_INPUT_SIZE ltac:(lia)) as Hb.
    pose proof (Nat.div_mod_eq size LOGISTIC_INPUT_SIZE) as Hdm.
    unfold process_partial_chunk. rewrite partial_arrays_eq, Hr.
    destruct (Nat.eqb_spec (size mod LOGISTIC_INPUT_SIZE) 0) as [Hz | Hnz].
    + rewrite Hz. cbn [Nat.ltb Nat.leb]. rewrite Nat.add_0_r.
      repeat split.
      * rewrite Hc. reflexivity.
      * rewrite Hacc. reflexivity.
      * exact Hd.
    + rewrite (proj2 (Nat.ltb_lt 0 _)) by lia.
      unfold add_chunk. cbn [chunks_processed accumulator cs_dev].
      rewrite Hc.
      rewrite (partial_chunk_result inputs weights size) by nia.
      rewrite compute_dot_product_reads, Hacc, Hd, to_uint64_add_l.
      repeat split.
      * f_equal. lia.
      * f_equal. f_equal.
        replace (size / LOGISTIC_INPUT_SIZE + 1)%nat with (S (size / LOGISTIC_INPUT_SIZE)) by lia.
        rewrite sum_upto_S. cbn [Nat.add]. rewrite <- Z.add_assoc. reflexivity.
      * lia.
Qed.

(** *** The float engine *)

Lemma compute_dot_product_float_some (i w : list Q) (scale_factor : Z) (d : accel) :
  scale_factor <> 0 ->
  fst (logistic_compute_dot_product_float (Some i) (Some w) scale_factor d)
  = to_uint32 (logistic_unit
                 (map (fun j => float_to_fixed (nth j i 0%Q) scale_factor)
                      (seq 0 LOGISTIC_INPUT_SIZE))
                 (map (fun j => float_to_fixed (nth j w 0%Q) scale_factor)
                      (seq 0 LOGISTIC_INPUT_SIZE)))
  /\ result_reads (snd (logistic_compute_dot_product_float (Some i) (Some w) scale_factor d))
     = S (result_reads d).
Proof.
  intros Hs. unfold logistic_compute_dot_product_float, float_fixed_arrays.
  rewrite (proj2 (Z.eqb_neq scale_factor 0) Hs).
  rewrite (for_loop_pair LOGISTIC_INPUT_SIZE
             (fun k arr => array_set arr k (float_to_fixed (nth k i 0%Q) scale_factor))
             (fun k arr => array_set arr k (float_to_fixed (nth k w 0%Q) scale_factor))).
  split; [ | apply compute_dot_product_reads ].
  rewrite compute_dot_product_some. cbn [fst]. f_equal.
  f_equal; apply map_ext_in; intros j Hj; apply in_seq in Hj.
  - destruct (for_loop_fill (fun k => float_to_fixed (nth k i 0%Q) scale_factor)
                LOGISTIC_INPUT_SIZE (repeat 0 LOGISTIC_INPUT_SIZE) 0) as [_ Hnth];
      [ rewrite repeat_length; lia | ].
    rewrite Hnth. rewrite (proj2 (Nat.ltb_lt _ _)) by lia. reflexivity.
  - destruct (for_loop_fill (fun k => float_to_fixed (nth k w 0%Q) scale_factor)
                LOGISTIC_INPUT_SIZE (repeat 0 LOGISTIC_INPUT_SIZE) 0) as [_ Hnth];
      [ rewrite repeat_length; lia | ].
    rewrite Hnth. rewrite (proj2 (Nat.ltb_lt _ _)) by lia. reflexivity.
Qed.

Lemma full_chunk_result_float (inputs weights : list Q) (scale_factor : Z) (size c : nat)
    (d : accel) :
  scale_factor <> 0 ->
  (c * LOGISTIC_INPUT_SIZE + LOGISTIC_INPUT_SIZE <= size)%nat ->
  fst (logistic_compute_dot_product_float
         (Some (skipn (c * LOGISTIC_INPUT_SIZE) inputs))
         (Some (skipn (c * LOGISTIC_INPUT_SIZE) weights)) scale_factor d)
  = chunk_result_float inputs weights scale_factor size c.
Proof.
  intros Hs H.
  destruct (compute_dot_product_float_some (skipn (c * LOGISTIC_INPUT_SIZE) inputs)
              (skipn (c * LOGISTIC_INPUT_SIZE) weights) scale_factor d Hs) as [Hv _].
  rewrite Hv. unfold chunk_result_float.
  f_equal. f_equal; apply map_ext_in; intros j Hj; apply in_seq in Hj;
    rewrite nth_skipn; rewrite (proj2 (Nat.ltb_lt _ _)) by lia; reflexivity.
Qed.

Lemma partial_chunk_result_float (inputs weights : list Q) (scale_factor : Z)
    (size c r : nat) (d : accel) :
  scale_factor <> 0 ->
  (c * LOGISTIC_INPUT_SIZE + r = size)%nat ->
  (r < LOGISTIC_INPUT_SIZE)%nat ->
  fst (logistic_compute_dot_product_float
         (Some (for_loop r
                  (fun i arr => array_set arr i (nth (c * LOGISTIC_INPUT_SIZE + i) inputs 0%Q))
                  (repeat 0%Q LOGISTIC_INPUT_SIZE)))
         (Some (for_loop r
                  (fun i arr => array_set arr i (nth (c * LOGISTIC_INPUT_SIZE + i) weights 0%Q))
                  (repeat 0%Q LOGISTIC_INPUT_SIZE))) scale_factor d)
  = chunk_result_float inputs weights scale_factor size c.
Proof.
  intros Hs Hsize Hr.
  match goal with
  | |- fst (logistic_compute_dot_product_float (Some ?a) (Some ?b) _ _) = _ =>
      destruct (compute_dot_product_float_some a b scale_factor d Hs) as [Hv _]
  end.
  rewrite Hv. unfold chunk_result_float.
  f_equal. f_equal; apply map_ext_in; intros j Hj; apply in_seq in Hj; f_equal.
  - destruct (for_loop_fill (fun i => nth (c * LOGISTIC_INPUT_SIZE + i) inputs 0%Q) r
                (repeat 0%Q LOGISTIC_INPUT_SIZE) 0%Q) as [_ Hnth];
      [ rewrite repeat_length; lia | ].
    rewrite Hnth, nth_repeat_0.
    destruct (Nat.ltb_spec j r);
      destruct (Nat.ltb_spec (c * LOGISTIC_INPUT_SIZE + j) size); try lia; reflexivity.
  - destruct (for_loop_fill (fun i => nth (c * LOGISTIC_INPUT_SIZE + i) weights 0%Q) r
                (repeat 0%Q LOGISTIC_INPUT_SIZE) 0%Q) as [_ Hnth];
      [ rewrite repeat_length; lia | ].
    rewrite Hnth, nth_repeat_0.
    destruct (Nat.ltb_spec j r);
      destruct (Nat.ltb_spec (c * LOGISTIC_INPUT_SIZE + j) size); try lia; reflexivity.
Qed.

Lemma process_chunks_float_some (inputs weights : list Q) (size : nat) (scale_factor a : Z)
    (d : accel) :
  (0 < LOGISTIC_INPUT_SIZE)%nat ->
  scale_factor <> 0 ->
  0 <= a < 2 ^ 64 ->
  exists r : chunks_result,
    logistic_process_chunks_float (Some inputs) (Some weights) size scale_factor (Some a) d
    = Some r
    /\ cr_return r = to_int32 (Z.of_nat (ceil_div size LOGISTIC_INPUT_SIZE))
    /\ cr_accumulator r
       = Some (to_uint64 (a + sum_upto (ceil_div size LOGISTIC_INPUT_SIZE)
                                (chunk_result_float inputs weights scale_factor size)))
    /\ result_reads (cr_dev r)
       = (result_reads d + ceil_div size LOGISTIC_INPUT_SIZE)%nat.
Proof.
  intros Hn Hs Ha.
  unfold logistic_process_chunks_float, logistic_process_chunks_float_fuel.
  rewrite (proj2 (Z.eqb_neq scale_factor 0) Hs).
  destruct (chunk_loop_runs
              (fun fuel st => process_full_chunks_float fuel inputs weights scale_factor st)
              (fun st =>
                 logistic_compute_dot_product_float
                   (Some (skipn (chunks_processed st * LOGISTIC_INPUT_SIZE) inputs))
                   (Some (skipn (chunks_processed st * LOGISTIC_INPUT_SIZE) weights))
                   scale_factor (cs_dev st))
              (chunk_result_float inputs weights scale_factor size) size Hn
              ltac:(reflexivity) ltac:(reflexivity)
              ltac:(intros st Hfit; apply full_chunk_result_float; assumption)
              ltac:(intros st; apply compute_dot_product_float_some; assumption)
              (S size)
              {| chunks_processed := 0; remaining_data := size;
                 accumulator := a; cs_dev := d |})
    as [st [Hrun [Hc [Hr [Hacc Hd]]]]].
  - reflexivity.
  - cbn [remaining_data]. pose proof (div_le_self size LOGISTIC_INPUT_SIZE Hn). lia.
  - exact Ha.
  - cbn [chunks_processed remaining_data accumulator cs_dev] in Hc, Hr, Hacc, Hd.
    cbv beta in Hrun. rewrite Hrun. eexists. split; [ reflexivity | ].
    cbn [cr_return cr_accumulator cr_dev].
    rewrite (ceil_div_split size LOGISTIC_INPUT_SIZE Hn).
    pose proof (Nat.mod_upper_bound size LOGISTIC_INPUT_SIZE ltac:(lia)) as Hb.
    pose proof (Nat.div_mod_eq size LOGISTIC_INPUT_SIZE) as Hdm.
    unfold process_partial_chunk_float. rewrite partial_arrays_eq, Hr.
    destruct (Nat.eqb_spec (size mod LOGISTIC_INPUT_SIZE) 0) as [Hz | Hnz].
    + rewrite Hz. cbn [Nat.ltb Nat.leb]. rewrite Nat.add_0_r.
      repeat split.
      * rewrite Hc. reflexivity.
      * rewrite Hacc. reflexivity.
      * exact Hd.
    + rewrite (proj2 (Nat.ltb_lt 0 _)) by lia.
      unfold add_chunk. cbn [chunks_processed accumulator cs_dev].
      rewrite Hc.
      rewrite (partial_chunk_result_float inputs weights scale_factor size) by (try nia; assumption).
      match goal with
      | |- context [snd (logistic_compute_dot_product_float (Some ?x) (Some ?y) _ ?dev)] =>
          destruct (compute_dot_product_float_some x y scale_factor dev Hs) as [_ Hrd]
      end.
      rewrite Hrd, Hacc, Hd, to_uint64_add_l.
      repeat split.
      * f_equal. lia.
      * f_equal. f_equal.
        replace (size / LOGISTIC_INPUT_SIZE + 1)%nat with (S (size / LOGISTIC_INPUT_SIZE)) by lia.
        rewrite sum_upto_S. cbn [Nat.add]. rewrite <- Z.add_assoc. reflexivity.
      * lia.
Qed.

(** C10.  On present pointers [logistic_process_chunks] adds to
    [*accumulator], in [uint64_t], the unit's result on every chunk of the
    first [data_size] elements and never resets it: the final value is the
    initial one plus the sum of the chunk results, a second call continues
    from the total of the first, and a call with [data_size = 0] returns 0 and
    leaves the accumulator as it was. *)
Theorem process_chunks_accumulates
    (inputs weights inputs2 weights2 : list Z) (data_size size2 : nat) (acc0 : Z)
    (d : accel) :
  (0 < LOGISTIC_INPUT_SIZE)%nat ->
  0 <= acc0 < 2 ^ 64 ->
  (data_size <= length inputs)%nat -> (data_size <= length weights)%nat ->
  (size2 <= length inputs2)%nat -> (size2 <= length weights2)%nat ->
  exists r : chunks_result,
    logistic_process_chunks (Some inputs) (Some weights) data_size (Some acc0) d = Some r
    /\ cr_accumulator r
       = Some (to_uint64 (acc0 + sum_upto (ceil_div data_size LOGISTIC_INPUT_SIZE)
                                   (chunk_result inputs weights data_size)))
    /\ (exists r2 : chunks_result,
          logistic_process_chunks (Some inputs2) (Some weights2) size2
            (cr_accumulator r) (cr_dev r) = Some r2
          /\ cr_accumulator r2
             = Some (to_uint64 (acc0
                                + sum_upto (ceil_div data_size LOGISTIC_INPUT_SIZE)
                                    (chunk_result inputs weights data_size)
                                + sum_upto (ceil_div size2 LOGISTIC_INPUT_SIZE)
                                    (chunk_result inputs2 weights2 size2))))
    /\ (exists r0 : chunks_result,
          logistic_process_chunks (Some inputs) (Some weights) 0 (Some acc0) d = Some r0
          /\ cr_return r0 = 0
          /\ cr_accumulator r0 = Some acc0
          /\ result_reads (cr_dev r0) = result_reads d).
Proof.
  intros Hn Ha _ _ _ _.
  destruct (process_chunks_some inputs weights data_size acc0 d Hn Ha)
    as [r [Hrun [_ [Hacc _]]]].
  exists r. split; [ exact Hrun | ]. split; [ exact Hacc | ]. split.
  - rewrite Hacc.
    destruct (process_chunks_some inputs2 weights2 size2
                (to_uint64 (acc0 + sum_upto (ceil_div data_size LOGISTIC_INPUT_SIZE)
                                     (chunk_result inputs weights data_size)))
                (cr_dev r) Hn (to_uint64_range _))
      as [r2 [Hrun2 [_ [Hacc2 _]]]].
    exists r2. split; [ exact Hrun2 | ].
    rewrite Hacc2, to_uint64_add_l. reflexivity.
  - destruct (process_chunks_some inputs weights 0 acc0 d Hn Ha)
      as [r0 [Hrun0 [Hret0 [Hacc0 Hd0]]]].
    exists r0. split; [ exact Hrun0 | ].
    rewrite (ceil_div_0 _ Hn) in Hret0, Hacc0, Hd0. repeat split.
    + exact Hret0.
    + rewrite Hacc0. unfold sum_upto. simpl. rewrite Z.add_0_r, to_uint64_id by exact Ha.
      reflexivity.
    + rewrite Hd0. lia.
Qed.

(** ** The chunk loop of [dot_product_accel_dot_product] *)

Lemma compute_chunk_value (available : bool) (inputs weights : list Q) (n : nat) (d : accel) :
  fst (dot_product_accel_compute_chunk available inputs weights (Z.of_nat n) d)
  = chunk_value available inputs weights n.
Proof.
  unfold chunk_value. destruct available.
  - rewrite !compute_chunk_hw. reflexivity.
  - rewrite !compute_chunk_sw. reflexivity.
Qed.

Lemma compute_chunk_reads (available : bool) (inputs weights : list Q) (n : Z) (d : accel) :
  result_reads (snd (dot_product_accel_compute_chunk available inputs weights n d))
  = ((if available then 1 else 0) + result_reads d)%nat.
Proof.
  destruct available.
  - rewrite compute_chunk_hw. unfold count_read. cbn [snd result_reads Nat.add]. f_equal.
    unfold dot_product_accel_set_weights, dot_product_weight_write.
    destruct (weight_write_loop (fun i => nth i (fixed_array weights n) 0)
                DOT_PRODUCT_ACCEL_INPUT_SIZE
                (dot_product_accel_set_inputs true inputs n d)) as [_ [_ Hr]].
    rewrite Hr. unfold dot_product_accel_set_inputs, dot_product_input_write.
    destruct (input_write_loop (fun i => nth i (fixed_array inputs n) 0)
                DOT_PRODUCT_ACCEL_INPUT_SIZE d) as [_ [_ Hr']].
    exact Hr'.
  - rewrite compute_chunk_sw. reflexivity.
Qed.

Lemma dp_chunk_total (available : bool) (inputs weights : list Q) (n : nat) (st : dp_state) :
  total_result (dp_chunk available inputs weights n st)
  = to_int64 (total_result st
              + chunk_value available (skipn (processed st) inputs)
                  (skipn (processed st) weights) n)
  /\ processed (dp_chunk available inputs weights n st) = processed st
  /\ result_reads (dp_dev (dp_chunk available inputs weights n st))
     = ((if available then 1 else 0) + result_reads (dp_dev st))%nat.
Proof.
  unfold dp_chunk.
  pose proof (compute_chunk_value available (skipn (processed st) inputs)
                (skipn (processed st) weights) n (dp_dev st)) as Hv.
  pose proof (compute_chunk_reads available (skipn (processed st) inputs)
                (skipn (processed st) weights) (Z.of_nat n) (dp_dev st)) as Hr.
  destruct (dot_product_accel_compute_chunk available (skipn (processed st) inputs)
              (skipn (processed st) weights) (Z.of_nat n) (dp_dev st)) as [v d'].
  simpl in *. subst v. repeat split. exact Hr.
Qed.

Lemma dp_full_chunks_runs (available : bool) (inputs weights : list Q) (size : nat) :
  (0 < DOT_PRODUCT_ACCEL_INPUT_SIZE)%nat ->
  forall (fuel c : nat) (st : dp_state),
    processed st = (c * DOT_PRODUCT_ACCEL_INPUT_SIZE)%nat ->
    (c * DOT_PRODUCT_ACCEL_INPUT_SIZE <= size)%nat ->
    ((size - c * DOT_PRODUCT_ACCEL_INPUT_SIZE) / DOT_PRODUCT_ACCEL_INPUT_SIZE < fuel)%nat ->
    - 2 ^ 63 <= total_result st < 2 ^ 63 ->
    exists st' : dp_state,
      dp_full_chunks fuel available inputs weights size st = Some st'
      /\ processed st'
         = ((c + (size - c * DOT_PRODUCT_ACCEL_INPUT_SIZE) / DOT_PRODUCT_ACCEL_INPUT_SIZE)
            * DOT_PRODUCT_ACCEL_INPUT_SIZE)%nat
      /\ total_result st'
         = to_int64 (total_result st
                     + sum_upto ((size - c * DOT_PRODUCT_ACCEL_INPUT_SIZE)
                                 / DOT_PRODUCT_ACCEL_INPUT_SIZE)
                         (fun k => dp_chunk_value available inputs weights size (c + k)))
      /\ result_reads (dp_dev st')
         = ((if available
             then (size - c * DOT_PRODUCT_ACCEL_INPUT_SIZE) / DOT_PRODUCT_ACCEL_INPUT_SIZE
             else 0)
            + result_reads (dp_dev st))%nat.
Proof.
  intros Hn. induction fuel as [ | fuel IH ]; intros c st Hp Hle Hfuel Htot; [ lia | ].
  cbn [dp_full_chunks]. rewrite Hp.
  destruct (Nat.leb_spec (c * DOT_PRODUCT_ACCEL_INPUT_SIZE + DOT_PRODUCT_ACCEL_INPUT_SIZE) size)
    as [Hge | Hlt].
  - destruct (div_mod_step (size - c * DOT_PRODUCT_ACCEL_INPUT_SIZE)
                DOT_PRODUCT_ACCEL_INPUT_SIZE Hn ltac:(lia)) as [Hdiv _].
    replace (size - c * DOT_PRODUCT_ACCEL_INPUT_SIZE - DOT_PRODUCT_ACCEL_INPUT_SIZE)%nat
      with (size - S c * DOT_PRODUCT_ACCEL_INPUT_SIZE)%nat in Hdiv by (simpl; lia).
    destruct (dp_chunk_total available inputs weights DOT_PRODUCT_ACCEL_INPUT_SIZE st)
      as [Ht [Hpr Hrd]].
    match goal with |- context [dp_full_chunks fuel _ _ _ _ ?s] => set (st1 := s) end.
    destruct (IH (S c) st1) as [st' [Hrun [Hp' [Ht' Hr']]]].
    + subst st1. cbn [processed]. rewrite Hpr, Hp. simpl. lia.
    + simpl. lia.
    + lia.
    + subst st1. cbn [total_result]. rewrite Ht. apply to_int64_range.
    + exists st'. split; [ exact Hrun | ].
      subst st1. cbn [total_result dp_dev] in Ht', Hr'.
      rewrite Ht, Hp, to_int64_add_l in Ht'. rewrite Hrd in Hr'.
      repeat split.
      * rewrite Hp', Hdiv. f_equal. lia.
      * rewrite Ht', Hdiv, sum_upto_shift. f_equal.
        rewrite Nat.add_0_r, <- Z.add_assoc. f_equal.
        unfold dp_chunk_value at 2.
        rewrite Nat.min_l by lia. f_equal.
        apply sum_upto_ext. intros k _. f_equal. lia.
      * rewrite Hr', Hdiv. destruct available; lia.
  - exists st. rewrite Nat.div_small by lia.
    repeat split.
    + rewrite Hp. f_equal. lia.
    + unfold sum_upto. simpl. rewrite Z.add_0_r. symmetry. apply to_int64_id. exact Htot.
    + destruct available; reflexivity.
Qed.

(** The whole call: the sum of the chunk values in [int64_t], decoded, and one
    read of the result register per chunk when the accelerator is there. *)
Lemma dot_product_some (available : bool) (size : nat) (inputs weights : list Q) (d : accel) :
  (0 < DOT_PRODUCT_ACCEL_INPUT_SIZE)%nat ->
  exists d' : accel,
    dot_product_accel_dot_product available size inputs weights d
    = Some (fixed64_to_double
              (to_int64 (sum_upto (ceil_div size DOT_PRODUCT_ACCEL_INPUT_SIZE)
                           (dp_chunk_value available inputs weights size)))
              FIXED_POINT_FRACTIONAL_BITS,
            d')
    /\ result_reads d'
       = ((if available then ceil_div size DOT_PRODUCT_ACCEL_INPUT_SIZE else 0)
          + result_reads d)%nat.
Proof.
  intros Hn.
  unfold dot_product_accel_dot_product, dot_product_accel_dot_product_fuel.
  destruct (dp_full_chunks_runs available inputs weights size Hn (S size) 0
              {| total_result := 0; processed := 0; dp_dev := d |})
    as [st [Hrun [Hp [Ht Hr]]]].
  - reflexivity.
  - simpl. lia.
  - simpl. rewrite Nat.sub_0_r.
    pose proof (div_le_self size DOT_PRODUCT_ACCEL_INPUT_SIZE Hn). lia.
  - cbn [total_result]. lia.
  - cbn [total_result dp_dev] in Ht, Hr. simpl Nat.mul in Hp, Ht, Hr.
    rewrite Nat.sub_0_r in Hp, Ht, Hr. simpl Nat.add in Hp, Ht.
    rewrite Z.add_0_l in Ht.
    rewrite Hrun. unfold dp_finish.
    rewrite (ceil_div_split size DOT_PRODUCT_ACCEL_INPUT_SIZE Hn).
    pose proof (Nat.mod_upper_bound size DOT_PRODUCT_ACCEL_INPUT_SIZE ltac:(lia)) as Hb.
    pose proof (Nat.div_mod_eq size DOT_PRODUCT_ACCEL_INPUT_SIZE) as Hdm.
    destruct (Nat.eqb_spec (size mod DOT_PRODUCT_ACCEL_INPUT_SIZE) 0) as [Hz | Hnz].
    + rewrite (proj2 (Nat.ltb_ge (processed st) size)) by (rewrite Hp; nia).
      exists (dp_dev st). rewrite Nat.add_0_r. split.
      * rewrite Ht. reflexivity.
      * exact Hr.
    + rewrite (proj2 (Nat.ltb_lt (processed st) size)) by (rewrite Hp; nia).
      destruct (dp_chunk_total available inputs weights (size - processed st) st)
        as [Ht' [_ Hr']].
      exists (dp_dev (dp_chunk available inputs weights (size - processed st) st)).
      split.
      * rewrite Ht', Ht, to_int64_add_l. f_equal. f_equal. f_equal.
        replace (size / DOT_PRODUCT_ACCEL_INPUT_SIZE + 1)%nat
          with (S (size / DOT_PRODUCT_ACCEL_INPUT_SIZE)) by lia.
        rewrite sum_upto_S. f_equal.
        unfold dp_chunk_value. rewrite Hp.
        replace (size - size / DOT_PRODUCT_ACCEL_INPUT_SIZE * DOT_PRODUCT_ACCEL_INPUT_SIZE)%nat
          with (size mod DOT_PRODUCT_ACCEL_INPUT_SIZE)%nat by nia.
        rewrite Nat.min_r by lia. reflexivity.
      * rewrite Hr', Hr. destruct available; lia.
Qed.

Lemma ceil_div_le_size (size n : nat) : (0 < n)%nat -> (ceil_div size n <= size)%nat.
Proof.
  intros Hn. destruct size as [ | m ]; [ rewrite ceil_div_0 by exact Hn; lia | ].
  rewrite ceil_div_split by exact Hn.
  pose proof (Nat.div_mod_eq (S m) n).
  destruct (Nat.eqb_spec (S m mod n) 0); [ nia | ].
  destruct (Nat.eq_dec n 1) as [E1 | E1].
  - exfalso. rewrite E1 in *. rewrite Nat.mod_1_r in *. lia.
  - nia.
Qed.

(** C2.  For a vector length [size] up to 300 and 8 or 64 lanes, both chunked
    engines use the accelerator exactly [ceil (size / lanes)] times (the
    result register is read once per chunk) and [logistic_process_chunks]
    returns that number; for [size = 0] the number is 0. *)
Theorem chunk_count_is_ceiling
    (inputs weights : list Z) (xs ws : list Q) (size : nat) (acc0 : Z) (d : accel) :
  (LOGISTIC_INPUT_SIZE = 8 \/ LOGISTIC_INPUT_SIZE = 64)%nat ->
  (DOT_PRODUCT_ACCEL_INPUT_SIZE = 8 \/ DOT_PRODUCT_ACCEL_INPUT_SIZE = 64)%nat ->
  (size <= 300)%nat ->
  length inputs = size -> length weights = size ->
  length xs = size -> length ws = size ->
  0 <= acc0 < 2 ^ 64 ->
  (exists r : chunks_result,
      logistic_process_chunks (Some inputs) (Some weights) size (Some acc0) d = Some r
      /\ cr_return r = Z.of_nat (ceil_div size LOGISTIC_INPUT_SIZE)
      /\ result_reads (cr_dev r)
         = (result_reads d + ceil_div size LOGISTIC_INPUT_SIZE)%nat)
  /\ (exists (q : Q) (d' : accel),
        dot_product_accel_dot_product true size xs ws d = Some (q, d')
        /\ result_reads d'
           = (result_reads d + ceil_div size DOT_PRODUCT_ACCEL_INPUT_SIZE)%nat)
  /\ (size = 0%nat ->
      ceil_div size LOGISTIC_INPUT_SIZE = 0%nat
      /\ ceil_div size DOT_PRODUCT_ACCEL_INPUT_SIZE = 0%nat).
Proof.
  intros HL HD Hsize _ _ _ _ Hacc.
  assert (HLpos : (0 < LOGISTIC_INPUT_SIZE)%nat) by lia.
  assert (HDpos : (0 < DOT_PRODUCT_ACCEL_INPUT_SIZE)%nat) by lia.
  split; [ | split ].
  - destruct (process_chunks_some inputs weights size acc0 d HLpos Hacc)
      as [r [Hrun [Hret [_ Hreads]]]].
    exists r. split; [ exact Hrun | ]. split; [ | exact Hreads ].
    rewrite Hret. apply to_int32_id. unfold in_int32.
    pose proof (ceil_div_le_size size LOGISTIC_INPUT_SIZE HLpos). lia.
  - destruct (dot_product_some true size xs ws d HDpos) as [d' [Hrun Hreads]].
    eexists. exists d'. split; [ exact Hrun | ]. rewrite Hreads. lia.
  - intros ->. split; apply ceil_div_0; assumption.
Qed.

(** ** The predictors *)

Lemma predict_large_dataset_some (inputs weights : list Z) (data_size : nat) (bias : Z)
    (d : accel) :
  (0 < LOGISTIC_INPUT_SIZE)%nat ->
  Z.of_nat data_size < 2 ^ 31 ->
  exists d' : accel,
    logistic_predict_large_dataset (Some inputs) (Some weights) data_size bias d
    = Some (to_int64 (sum_upto (ceil_div data_size LOGISTIC_INPUT_SIZE)
                        (chunk_result inputs weights data_size)
                      + bias),
            d').
Proof.
  intros Hn Hsize. unfold logistic_predict_large_dataset.
  destruct (process_chunks_some inputs weights data_size 0 d Hn ltac:(lia))
    as [r [Hrun [Hret [Hacc _]]]].
  rewrite Hrun, Hret, Hacc.
  assert (Hfit : in_int32 (Z.of_nat (ceil_div data_size LOGISTIC_INPUT_SIZE))).
  { unfold in_int32. pose proof (ceil_div_le_size data_size LOGISTIC_INPUT_SIZE Hn). lia. }
  rewrite (to_int32_id _ Hfit).
  rewrite (proj2 (Z.ltb_ge _ 0)) by lia.
  eexists. f_equal. f_equal.
  rewrite Z.add_0_l, to_int64_add_l, to_int64_uint64_add. reflexivity.
Qed.

(** C3.  With the 8 lanes of [inference_dumb.h],
    [logistic_predict_large_dataset] returns the sum of the chunk results plus
    [bias] (in [int64_t]) and [logistic_predict_raw] the result of the single
    chunk plus [bias] (in [int32_t]).  On a unit that passes the driver's
    [logistic_self_test], which expects 36 on exactly these vectors, the
    prediction for inputs 1..8, weights all one and bias 1000 is 1036. *)
Theorem predict_is_dot_product_plus_bias
    (inputs weights : list Z) (data_size : nat) (bias : Z) (d : accel) :
  LOGISTIC_INPUT_SIZE = 8%nat ->
  Z.of_nat data_size < 2 ^ 31 ->
  (exists d' : accel,
      logistic_predict_large_dataset (Some inputs) (Some weights) data_size bias d
      = Some (to_int64 (sum_upto (ceil_div data_size 8)
                          (chunk_result inputs weights data_size)
                        + bias),
              d'))
  /\ fst (logistic_predict_raw (Some inputs) (Some weights) bias d)
     = to_int32 (chunk_result inputs weights 8 0 + bias)
  /\ (fst (logistic_self_test d) = 0 ->
      exists d' : accel,
        logistic_predict_large_dataset
          (Some [1; 2; 3; 4; 5; 6; 7; 8]) (Some [1; 1; 1; 1; 1; 1; 1; 1]) 8 1000 d
        = Some (36 + 1000, d')).
Proof.
  intros H8 Hsize.
  assert (Hn : (0 < LOGISTIC_INPUT_SIZE)%nat) by lia.
  split; [ | split ].
  - rewrite <- H8. apply predict_large_dataset_some; assumption.
  - unfold logistic_predict_raw.
    pose proof (full_chunk_result inputs weights 8 0 d ltac:(lia)) as Hc.
    simpl skipn in Hc.
    destruct (logistic_compute_dot_product (Some inputs) (Some weights) d) as [v d'].
    simpl in *. subst v. apply to_int32_add_l.
  - intros Htest.
    destruct (predict_large_dataset_some [1; 2; 3; 4; 5; 6; 7; 8] [1; 1; 1; 1; 1; 1; 1; 1]
                8 1000 d Hn ltac:(simpl; lia)) as [d' Hrun].
    exists d'. rewrite Hrun. f_equal. f_equal.
    unfold logistic_self_test in Htest.
    pose proof (full_chunk_result [1; 2; 3; 4; 5; 6; 7; 8] [1; 1; 1; 1; 1; 1; 1; 1]
                  8 0 d ltac:(lia)) as Hc.
    simpl skipn in Hc.
    destruct (logistic_compute_dot_product (Some [1; 2; 3; 4; 5; 6; 7; 8])
                (Some [1; 1; 1; 1; 1; 1; 1; 1]) d) as [v d1].
    simpl fst in Hc.
    destruct (Z.eqb_spec v (1 + 2 + 3 + 4 + 5 + 6 + 7 + 8)) as [Hv | Hv].
    + rewrite H8. change (ceil_div 8 8) with 1%nat.
      unfold sum_upto. simpl map. simpl fold_right.
      rewrite <- Hc, Hv. reflexivity.
    + simpl in Htest. discriminate.
Qed.

(** ** Absent vectors *)

Lemma process_chunks_empty (d : accel) (a : Z) :
  (0 < LOGISTIC_INPUT_SIZE)%nat ->
  logistic_process_chunks (Some []) (Some []) 0 (Some a) d
  = Some {| cr_return := 0; cr_accumulator := Some a; cr_dev := d |}.
Proof.
  intros Hn. unfold logistic_process_chunks, logistic_process_chunks_fuel.
  cbn [process_full_chunks remaining_data].
  destruct (Nat.leb_spec LOGISTIC_INPUT_SIZE 0) as [H | H]; [ lia | ].
  reflexivity.
Qed.

(** C9.  With [inputs] or [weights] absent, [logistic_compute_dot_product]
    returns 0 and [logistic_predict_large_dataset] returns 0 whatever the
    bias, without touching the unit.  Both are also results of legitimate
    calls: a dot product on which the unit answers 0, and a prediction on
    empty vectors with bias 0; the return value tells the cases apart in
    neither function. *)
Theorem null_vectors_return_zero
    (inputs weights : option (list Z)) (data_size : nat) (bias : Z) (d : accel) :
  (0 < LOGISTIC_INPUT_SIZE)%nat ->
  inputs = None \/ weights = None ->
  logistic_compute_dot_product inputs weights d = (0, d)
  /\ logistic_predict_large_dataset inputs weights data_size bias d = Some (0, d)
  /\ (forall i w : list Z,
        to_uint32 (logistic_unit
                     (map (fun j => nth j i 0) (seq 0 LOGISTIC_INPUT_SIZE))
                     (map (fun j => nth j w 0) (seq 0 LOGISTIC_INPUT_SIZE))) = 0 ->
        fst (logistic_compute_dot_product (Some i) (Some w) d)
        = fst (logistic_compute_dot_product inputs weights d))
  /\ logistic_predict_large_dataset (Some []) (Some []) 0 0 d
     = logistic_predict_large_dataset inputs weights data_size bias d.
Proof.
  intros Hn Hnull.
  assert (Hc : logistic_compute_dot_product inputs weights d = (0, d)).
  { destruct Hnull as [-> | ->]; [ reflexivity | destruct inputs; reflexivity ]. }
  assert (Hp : logistic_predict_large_dataset inputs weights data_size bias d = Some (0, d)).
  { destruct Hnull as [-> | ->]; [ reflexivity | destruct inputs; reflexivity ]. }
  split; [ exact Hc | ]. split; [ exact Hp | ]. split.
  - intros i w Hzero. rewrite Hc, compute_dot_product_some. simpl. exact Hzero.
  - rewrite Hp. unfold logistic_predict_large_dataset.
    rewrite (process_chunks_empty d 0 Hn). reflexivity.
Qed.

(** C6, amended.  With [inputs] or [weights] absent,
    [logistic_process_chunks] and [logistic_process_chunks_float] return -1
    and leave the accumulator and the unit as they were; a run on present
    pointers returns a chunk count, which is not negative, so the two are told
    apart.  [dot_product_accel_dot_product] checks nothing and has no error
    result: for [size = 0] it returns the same value for absent pointers as
    for present ones. *)
Theorem null_vectors_in_chunk_engines
    (inputs weights : option (list Z)) (finputs fweights : option (list Q))
    (data_size : nat) (scale_factor : Z) (acc : option Z) (available : bool) (d : accel) :
  (inputs = None \/ weights = None ->
   logistic_process_chunks inputs weights data_size acc d
   = Some {| cr_return := -1; cr_accumulator := acc; cr_dev := d |})
  /\ (finputs = None \/ fweights = None ->
      logistic_process_chunks_float finputs fweights data_size scale_factor acc d
      = Some {| cr_return := -1; cr_accumulator := acc; cr_dev := d |})
  /\ (forall (i w : list Z) (a : Z),
        (0 < LOGISTIC_INPUT_SIZE)%nat -> Z.of_nat data_size < 2 ^ 31 -> 0 <= a < 2 ^ 64 ->
        exists r : chunks_result,
          logistic_process_chunks (Some i) (Some w) data_size (Some a) d = Some r
          /\ 0 <= cr_return r)
  /\ (forall (i w : list Q) (a : Z),
        (0 < LOGISTIC_INPUT_SIZE)%nat -> Z.of_nat data_size < 2 ^ 31 -> 0 <= a < 2 ^ 64 ->
        scale_factor <> 0 ->
        exists r : chunks_result,
          logistic_process_chunks_float (Some i) (Some w) data_size scale_factor (Some a) d
          = Some r
          /\ 0 <= cr_return r)
  /\ (forall p q : option (list Q),
        dot_product_accel_dot_product_ptr available 0 p q d
        = dot_product_accel_dot_product available 0 [] [] d).
Proof.
  split; [ | split; [ | split; [ | split ] ] ].
  - intros [-> | ->]; [ reflexivity | ].
    destruct inputs; reflexivity.
  - intros [-> | ->]; [ reflexivity | ].
    destruct finputs; reflexivity.
  - intros i w a Hn Hsize Ha.
    destruct (process_chunks_some i w data_size a d Hn Ha) as [r [Hrun [Hret _]]].
    exists r. split; [ exact Hrun | ].
    rewrite Hret.
    pose proof (ceil_div_le_size data_size LOGISTIC_INPUT_SIZE Hn).
    rewrite to_int32_id; [ lia | ]. unfold in_int32. lia.
  - intros i w a Hn Hsize Ha Hs.
    destruct (process_chunks_float_some i w data_size scale_factor a d Hn Hs Ha)
      as [r [Hrun [Hret _]]].
    exists r. split; [ exact Hrun | ].
    rewrite Hret.
    pose proof (ceil_div_le_size data_size LOGISTIC_INPUT_SIZE Hn).
    rewrite to_int32_id; [ lia | ]. unfold in_int32. lia.
  - intros p q. reflexivity.
Qed.

(** ** Waiting for completion *)

Lemma wait_done_spins :
  (forall k, inference_accel_is_done k = false) ->
  forall fuel polls, inference_accel_wait_done fuel polls = None.
Proof.
  intros Hnever. induction fuel as [ | fuel IH ]; intros polls.
  - reflexivity.
  - simpl. rewrite Hnever. apply IH.
Qed.

Lemma wait_done_sound :
  forall fuel polls n,
    inference_accel_wait_done fuel polls = Some n ->
    (polls < n)%nat
    /\ inference_accel_is_done (n - 1) = true
    /\ forall j, (polls <= j < n - 1)%nat -> inference_accel_is_done j = false.
Proof.
  induction fuel as [ | fuel IH ]; intros polls n H; [ discriminate | ].
  simpl in H. destruct (inference_accel_is_done polls) eqn:Hd.
  - injection H as <-. replace (S polls - 1)%nat with polls by lia.
    repeat split; [ lia | exact Hd | intros j Hj; lia ].
  - destruct (IH (S polls) n H) as [Hlt [Hdone Hbefore]].
    repeat split; [ lia | exact Hdone | ].
    intros j Hj. destruct (Nat.eq_dec j polls) as [-> | Hne]; [ exact Hd | ].
    apply Hbefore. lia.
Qed.

Lemma wait_done_complete :
  forall k fuel polls,
    inference_accel_is_done k = true -> (polls <= k)%nat -> (k - polls < fuel)%nat ->
    exists n, inference_accel_wait_done fuel polls = Some n /\ (n <= S k)%nat.
Proof.
  intros k. induction fuel as [ | fuel IH ]; intros polls Hk Hle Hfuel; [ lia | ].
  simpl. destruct (inference_accel_is_done polls) eqn:Hd.
  - exists (S polls). split; [ reflexivity | lia ].
  - assert (polls <> k) by (intros ->; congruence).
    apply IH; [ exact Hk | lia | lia ].
Qed.

(** The timed loop of the 64-lane driver on a unit that is never done: the
    [j]-th test of the clock sees [j] ticks, so the loop gives up after
    [timeout_ms + 1] reads of the done register. *)
Lemma logistic_wait_loop_times_out (c : logistic_ctx_t) (start : Z) :
  initialized c = true ->
  0 <= timeout_ms c < 2 ^ 32 - 1 ->
  (forall k, Z.land (logistic_done k) 1 = 0) ->
  forall (fuel : nat) (j : Z) (s : lr_state),
    0 <= j <= timeout_ms c ->
    system_time_ms s = to_uint32 (start + 1 + j) ->
    (Z.to_nat (timeout_ms c - j) < fuel)%nat ->
    exists s' : lr_state,
      logistic_wait_loop fuel c start s = Some (LOGISTIC_ERROR_TIMEOUT, s')
      /\ done_reads s' = (done_reads s + Z.to_nat (timeout_ms c - j) + 1)%nat.
Proof.
  intros Hinit HT Hnever.
  induction fuel as [ | fuel IH ]; intros j s Hj Htime Hfuel; [ lia | ].
  cbn [logistic_wait_loop logistic_is_done get_time_ms].
  rewrite Hinit, Hnever. cbn [negb Z.eqb].
  rewrite Htime.
  assert (Hdiff : to_uint32 (to_uint32 (start + 1 + j) - start) = 1 + j).
  { unfold to_uint32. rewrite Zminus_mod_idemp_l.
    replace (start + 1 + j - start) with (1 + j) by lia.
    apply Z.mod_small. lia. }
  cbn [system_time_ms done_reads]. rewrite Hdiff.
  destruct (Z.gtb_spec (1 + j) (timeout_ms c)) as [Hgt | Hle].
  - eexists. split; [ reflexivity | ]. cbn [done_reads].
    replace (timeout_ms c - j) with 0 by lia. simpl. lia.
  - match goal with |- context [logistic_wait_loop fuel c start ?s1] => set (s2 := s1) end.
    destruct (IH (j + 1) s2) as [s' [Hrun Hreads]].
    + lia.
    + subst s2. cbn [system_time_ms]. unfold to_uint32.
      rewrite Zplus_mod_idemp_l. f_equal. lia.
    + lia.
    + exists s'. split; [ exact Hrun | ].
      rewrite Hreads. subst s2. cbn [done_reads]. lia.
Qed.

(** The reset loop is left within 100 tests of the clock, done or not. *)
Lemma logistic_reset_loop_ends (c : logistic_ctx_t) (start : Z) :
  forall (fuel : nat) (j : Z) (s : lr_state),
    0 <= j <= 99 ->
    system_time_ms s = to_uint32 (start + 1 + j) ->
    (Z.to_nat (100 - j) <= fuel)%nat ->
    exists s' : lr_state, logistic_reset_loop fuel c start s = Some s'.
Proof.
  induction fuel as [ | fuel IH ]; intros j s Hj Htime Hfuel; [ lia | ].
  cbn [logistic_reset_loop].
  destruct (logistic_is_done (Some c) s) as [done s1] eqn:Hd.
  assert (Ht1 : system_time_ms s1 = system_time_ms s).
  { unfold logistic_is_done in Hd. destruct (negb (initialized c)).
    - injection Hd as _ <-. reflexivity.
    - injection Hd as _ <-. reflexivity. }
  destruct done; [ eexists; reflexivity | ].
  cbn [get_time_ms]. rewrite Ht1, Htime.
  assert (Hdiff : to_uint32 (to_uint32 (start + 1 + j) - start) = 1 + j).
  { unfold to_uint32. rewrite Zminus_mod_idemp_l.
    replace (start + 1 + j - start) with (1 + j) by lia.
    apply Z.mod_small. lia. }
  rewrite Hdiff.
  destruct (Z.ltb_spec (1 + j) 100) as [Hlt | Hge]; [ | eexists; reflexivity ].
  apply (IH (j + 1)).
  - lia.
  - cbn [system_time_ms]. unfold to_uint32.
    rewrite Zplus_mod_idemp_l. f_equal. lia.
  - lia.
Qed.

Lemma logistic_ctx_init_default (c0 : logistic_ctx_t) (s : lr_state) :
  exists (status : logistic_status_t) (c : logistic_ctx_t) (s' : lr_state),
    logistic_ctx_init 100 (Some c0) 0 s = Some (status, Some c, s')
    /\ initialized c = true
    /\ timeout_ms c = LOGISTIC_TIMEOUT_MS.
Proof.
  unfold logistic_ctx_init, logistic_reset. cbn [get_time_ms Z.gtb Z.compare].
  destruct (logistic_reset_loop_ends
              {| initialized := true; timeout_ms := LOGISTIC_TIMEOUT_MS |}
              (system_time_ms s) 100 0
              {| system_time_ms := to_uint32 (system_time_ms s + 1);
                 done_reads := done_reads s |}) as [s' Hrun].
  - lia.
  - cbn [system_time_ms]. f_equal. lia.
  - simpl. lia.
  - rewrite Hrun. eexists. eexists. exists s'. repeat split.
Qed.

(** C8, amended.  [inference_accel_wait_done] polls [is_done] until it is true
    and has neither a timeout nor a failure result: it returns exactly when a
    poll sees the DONE bit, and on a unit that never shows it the loop is never
    left.  The timeout is in [logistic_wait_done] of the 64-lane driver: on a
    unit that is never done it returns [LOGISTIC_ERROR_TIMEOUT] after
    [timeout_ms + 1] polls (the placeholder clock advances by one each time it
    is read), and a context that [logistic_init] has set up with a timeout of
    0 holds the default of 1000. *)
Theorem wait_done_polls_until_done :
  (forall fuel polls n,
      inference_accel_wait_done fuel polls = Some n ->
      (polls < n)%nat
      /\ inference_accel_is_done (n - 1) = true
      /\ forall j, (polls <= j < n - 1)%nat -> inference_accel_is_done j = false)
  /\ (forall k, inference_accel_is_done k = true ->
        exists n, inference_accel_wait_done (S k) 0 = Some n /\ (n <= S k)%nat)
  /\ ((forall k, inference_accel_is_done k = false) ->
      forall fuel polls, inference_accel_wait_done fuel polls = None)
  /\ (forall (c : logistic_ctx_t) (s : lr_state),
        initialized c = true ->
        0 <= timeout_ms c < 2 ^ 32 - 1 ->
        (forall k, Z.land (logistic_done k) 1 = 0) ->
        exists s' : lr_state,
          logistic_wait_done (Z.to_nat (timeout_ms c) + 1) (Some c) s
          = Some (LOGISTIC_ERROR_TIMEOUT, s')
          /\ done_reads s' = (done_reads s + Z.to_nat (timeout_ms c) + 1)%nat)
  /\ (forall (c0 : logistic_ctx_t) (s : lr_state),
        exists (status : logistic_status_t) (c : logistic_ctx_t) (s' : lr_state),
          logistic_ctx_init 100 (Some c0) 0 s = Some (status, Some c, s')
          /\ initialized c = true
          /\ timeout_ms c = LOGISTIC_TIMEOUT_MS).
Proof.
  split; [ exact wait_done_sound | ]. split; [ | split; [ | split ] ].
  - intros k Hk. apply (wait_done_complete k); [ exact Hk | lia | lia ].
  - exact wait_done_spins.
  - intros c s Hinit HT Hnever.
    unfold logistic_wait_done. rewrite Hinit. cbn [negb get_time_ms].
    destruct (logistic_wait_loop_times_out c (system_time_ms s) Hinit HT Hnever
                (Z.to_nat (timeout_ms c) + 1) 0
                {| system_time_ms := to_uint32 (system_time_ms s + 1);
                   done_reads := done_reads s |})
      as [s' [Hrun Hreads]].
    + lia.
    + cbn [system_time_ms]. f_equal. lia.
    + rewrite Z.sub_0_r. lia.
    + exists s'. split; [ exact Hrun | ].
      rewrite Hreads. cbn [done_reads]. rewrite Z.sub_0_r. reflexivity.
  - exact logistic_ctx_init_default.
Qed.

(** ** Zero padding *)


Lemma sum_upto_app (a b : nat) (f : nat -> Z) :
  sum_upto (a + b) f = sum_upto a f + sum_upto b (fun j => f (a + j)%nat).
Proof.
  induction b as [ | b IH ].
  - rewrite Nat.add_0_r. unfold sum_upto at 3. simpl. lia.
  - rewrite Nat.add_succ_r, !sum_upto_S, IH. lia.
Qed.

(** A sum over [m] chunks of [n] lanes is the sum over the [m * n] elements. *)
Lemma sum_upto_chunks (m n : nat) (g : nat -> Z) :
  sum_upto m (fun k => sum_upto n (fun j => g (k * n + j)%nat)) = sum_upto (m * n) g.
Proof.
  induction m as [ | m IH ].
  - reflexivity.
  - rewrite sum_upto_S, IH.
    replace (S m * n)%nat with (m * n + n)%nat by lia.
    rewrite sum_upto_app. reflexivity.
Qed.

Lemma sum_upto_nonneg (m : nat) (f : nat -> Z) :
  (forall k, 0 <= f k) -> 0 <= sum_upto m f.
Proof.
  intros H. induction m as [ | m IH ].
  - unfold sum_upto. simpl. lia.
  - rewrite sum_upto_S. specialize (H m). lia.
Qed.

Lemma sum_upto_term_le (m k : nat) (f : nat -> Z) :
  (forall i, 0 <= f i) -> (k < m)%nat -> f k <= sum_upto m f.
Proof.
  intros H. induction m as [ | m IH ]; intros Hk; [ lia | ].
  rewrite sum_upto_S. pose proof (sum_upto_nonneg m f H). pose proof (H m).
  destruct (Nat.eq_dec k m) as [-> | Hne]; [ lia | ].
  specialize (IH ltac:(lia)). lia.
Qed.


Lemma ceil_div_covers (size n k : nat) :
  (0 < n)%nat -> (ceil_div size n <= k)%nat -> (size <= k * n)%nat.
Proof.
  intros Hn. rewrite ceil_div_split by exact Hn.
  pose proof (Nat.div_mod_eq size n).
  pose proof (Nat.mod_upper_bound size n ltac:(lia)).
  destruct (Nat.eqb_spec (size mod n) 0); nia.
Qed.









Lemma actual_count_small (cs : nat) :
  (cs <= DOT_PRODUCT_ACCEL_INPUT_SIZE)%nat ->
  Z.to_nat (actual_count (Z.of_nat cs)) = cs.
Proof.
  intros H. unfold actual_count.
  destruct (Z.gtb_spec (Z.of_nat cs) (Z.of_nat DOT_PRODUCT_ACCEL_INPUT_SIZE)); lia.
Qed.

(** The value of a chunk with the accelerator: the unit on the encodings of
    the first [cs] elements, zero in the other lanes. *)
Lemma chunk_value_hw (xs ws : list Q) (cs : nat) :
  (cs <= DOT_PRODUCT_ACCEL_INPUT_SIZE)%nat ->
  chunk_value true xs ws cs
  = to_int32 (dot_product_accel_unit
                (map (fun j => if Nat.ltb j cs
                               then to_uint32 (double_to_fixed (nth j xs 0%Q)
                                                 FIXED_POINT_FRACTIONAL_BITS)
                               else 0)
                     (seq 0 DOT_PRODUCT_ACCEL_INPUT_SIZE))
                (map (fun j => if Nat.ltb j cs
                               then to_uint32 (double_to_fixed (nth j ws 0%Q)
                                                 FIXED_POINT_FRACTIONAL_BITS)
                               else 0)
                     (seq 0 DOT_PRODUCT_ACCEL_INPUT_SIZE))).
Proof.
  intros Hcs. unfold chunk_value. rewrite compute_chunk_hw. cbn [fst].
  f_equal. f_equal; apply map_ext_in; intros j _;
    rewrite nth_fixed_array, actual_count_small by exact Hcs; reflexivity.
Qed.

Lemma chunk_value_sw (xs ws : list Q) (cs : nat) :
  chunk_value false xs ws cs
  = to_int32 (sum_upto cs
                (fun j => double_to_fixed (nth j xs 0%Q * nth j ws 0%Q)
                            FIXED_POINT_FRACTIONAL_BITS)).
Proof.
  unfold chunk_value. rewrite compute_chunk_sw. cbn [fst]. rewrite Nat2Z.id. reflexivity.
Qed.






(** * Further properties of the drivers *)

(** ** The codec, the other way round *)

Lemma c_trunc_scaled (v s : Z) :
  0 < s -> c_trunc (inject_Z v / inject_Z s * inject_Z s) = v.
Proof.
  intros Hs. rewrite <- (c_trunc_inject_Z v) at 2. apply c_trunc_Qeq.
  field. intro E. pose proof (inject_Z_pos s Hs) as H. rewrite E in H. discriminate.
Qed.

(** X2.  Decoding and encoding again gives the integer back: for every
    [int32_t] value and 0 <= F <= 30, [double_to_fixed (fixed_to_double v F) F]
    is [v], and so is [FLOAT_TO_FIXED (FIXED_TO_FLOAT v)] with the macros of
    [inference_accel.h], which encode as [double_to_fixed] does with 16
    fractional bits. *)
Theorem decode_then_encode (v F : Z) (x : Q) :
  in_int32 v ->
  0 <= F <= 30 ->
  double_to_fixed (fixed_to_double v F) F = v
  /\ FLOAT_TO_FIXED (FIXED_TO_FLOAT v) = v
  /\ FLOAT_TO_FIXED x = double_to_fixed x FIXED_POINT_FRACTIONAL_BITS.
Proof.
  intros Hv HF. split; [ | split ].
  - unfold double_to_fixed, fixed_to_double. rewrite shiftl_1_pow by lia.
    rewrite c_trunc_scaled by (apply Z.pow_pos_nonneg; lia).
    apply to_int32_id. exact Hv.
  - unfold FLOAT_TO_FIXED, FIXED_TO_FLOAT.
    rewrite c_trunc_scaled by lia. apply to_int32_id. exact Hv.
  - reflexivity.
Qed.

Lemma c_trunc_opp (q : Q) : c_trunc (- q) = - c_trunc q.
Proof.
  destruct q as [n d]. unfold c_trunc. simpl. apply Z.quot_opp_l. discriminate.
Qed.

Lemma c_trunc_mono (p q : Q) : (p <= q)%Q -> c_trunc p <= c_trunc q.
Proof.
  intros Hpq.
  destruct (Qlt_le_dec p 0) as [Hp | Hp]; destruct (Qlt_le_dec q 0) as [Hq | Hq].
  - rewrite !c_trunc_ceiling by (apply Qlt_le_weak; assumption).
    apply Qceiling_resp_le. exact Hpq.
  - rewrite (c_trunc_ceiling p) by (apply Qlt_le_weak; assumption).
    rewrite (c_trunc_floor q) by assumption.
    apply Z.le_trans with 0.
    + change 0 with (Qceiling (inject_Z 0)). apply Qceiling_resp_le.
      apply Qlt_le_weak. exact Hp.
    + change 0 with (Qfloor (inject_Z 0)) at 1. apply Qfloor_resp_le. exact Hq.
  - exfalso. apply (Qlt_irrefl 0).
    apply Qle_lt_trans with q; [ | exact Hq ]. apply Qle_trans with p; assumption.
  - rewrite !c_trunc_floor by assumption. apply Qfloor_resp_le. exact Hpq.
Qed.

(** X3.  In the safe range the encoder is odd and monotone: truncation is
    toward zero, so [double_to_fixed (- x) F] is [- double_to_fixed x F]
    (never one unit off, as a floor would be), and a larger value never gets a
    smaller encoding. *)
Theorem encode_odd_and_monotone (x y : Q) (F : Z) :
  0 <= F <= 30 ->
  (inject_Z (- 2 ^ 31) < x * inject_Z (2 ^ F))%Q ->
  (x <= y)%Q ->
  (y * inject_Z (2 ^ F) < inject_Z (2 ^ 31))%Q ->
  double_to_fixed (- x) F = - double_to_fixed x F
  /\ double_to_fixed x F <= double_to_fixed y F.
Proof.
  intros HF Hlo Hxy Hhi.
  assert (Hpow : 0 < 2 ^ F) by (apply Z.pow_pos_nonneg; lia).
  assert (Hs : (0 < inject_Z (2 ^ F))%Q) by (apply inject_Z_pos; exact Hpow).
  assert (Hxs : (x * inject_Z (2 ^ F) <= y * inject_Z (2 ^ F))%Q).
  { apply Qmult_le_compat_r; [ exact Hxy | apply Qlt_le_weak; exact Hs ]. }
  assert (Hx : in_int32 (c_trunc (x * inject_Z (2 ^ F)))).
  { apply c_trunc_in_int32; [ apply Qlt_le_weak; exact Hlo | ].
    eapply Qle_lt_trans; [ exact Hxs | exact Hhi ]. }
  assert (Hy : in_int32 (c_trunc (y * inject_Z (2 ^ F)))).
  { apply c_trunc_in_int32; [ | exact Hhi ].
    eapply Qle_trans; [ apply Qlt_le_weak; exact Hlo | exact Hxs ]. }
  assert (Hnx : in_int32 (c_trunc (- x * inject_Z (2 ^ F)))).
  { apply c_trunc_in_int32.
    - assert (Hb : (x * inject_Z (2 ^ F) < inject_Z (2 ^ 31))%Q)
        by (eapply Qle_lt_trans; [ exact Hxs | exact Hhi ]).
      change (inject_Z (- 2 ^ 31)) with (- inject_Z (2 ^ 31))%Q.
      setoid_replace (- x * inject_Z (2 ^ F))%Q with (- (x * inject_Z (2 ^ F)))%Q by ring.
      apply Qopp_le_compat. apply Qlt_le_weak. exact Hb.
    - setoid_replace (- x * inject_Z (2 ^ F))%Q with (- (x * inject_Z (2 ^ F)))%Q by ring.
      change (inject_Z (2 ^ 31)) with (- inject_Z (- 2 ^ 31))%Q.
      apply Qopp_lt_compat. exact Hlo. }
  unfold double_to_fixed. rewrite shiftl_1_pow by lia.
  rewrite !to_int32_id by assumption. split.
  - rewrite <- c_trunc_opp. apply c_trunc_Qeq. ring.
  - apply c_trunc_mono. exact Hxs.
Qed.

(** ** The lane-by-lane setter of [inference_dumb.h] *)

Lemma land_low_high (c m : Z) :
  0 <= c < 2 ^ 32 -> Z.land (Z.ones 32) m = 0 -> Z.land c m = 0.
Proof.
  intros Hc Hm.
  rewrite <- (Z.mod_small c (2 ^ 32)) by exact Hc.
  rewrite <- Z.land_ones by lia.
  rewrite <- Z.land_assoc, Hm. apply Z.land_0_r.
Qed.

Lemma land_low_ones (c : Z) : 0 <= c < 2 ^ 32 -> Z.land c (Z.ones 32) = c.
Proof.
  intros Hc. rewrite Z.land_ones by lia. apply Z.mod_small. exact Hc.
Qed.

Lemma shiftl_32_low (v : Z) : 0 <= v < 2 ^ 32 -> Z.land (Z.shiftl v 32) (Z.ones 32) = 0.
Proof.
  intros Hv. rewrite Z.land_ones by lia.
  rewrite Z.shiftl_mul_pow2 by lia. apply Z.mod_mul. lia.
Qed.

(** Writing [value] at bit offset 0 of a 32-bit word, then at bit offset 32. *)
Lemma rmw_offset_0 (c v : Z) :
  0 <= c < 2 ^ 32 -> 0 <= v < 2 ^ 32 ->
  to_uint32
    (Z.lor (Z.land c (to_uint64 (Z.lnot (to_uint64 (Z.shiftl 4294967295 0)))))
           (to_uint64 (Z.shiftl v 0))) = v.
Proof.
  intros Hc Hv.
  rewrite (land_low_high c) by (try exact Hc; reflexivity).
  rewrite Z.lor_0_l, Z.shiftl_0_r.
  unfold to_uint64, to_uint32. rewrite (Z.mod_small v (2 ^ 64)) by lia.
  apply Z.mod_small. exact Hv.
Qed.

Lemma rmw_offset_32 (c v : Z) :
  0 <= c < 2 ^ 32 -> 0 <= v < 2 ^ 32 ->
  let w := Z.lor (Z.land c (to_uint64 (Z.lnot (to_uint64 (Z.shiftl 4294967295 32)))))
                 (to_uint64 (Z.shiftl v 32)) in
  to_uint32 w = c /\ to_uint32 (Z.shiftr w 32) = v.
Proof.
  intros Hc Hv.
  change (to_uint64 (Z.lnot (to_uint64 (Z.shiftl 4294967295 32)))) with (Z.ones 32).
  rewrite (land_low_ones c Hc).
  assert (Hsh : to_uint64 (Z.shiftl v 32) = Z.shiftl v 32).
  { unfold to_uint64. apply Z.mod_small. rewrite Z.shiftl_mul_pow2 by lia. lia. }
  rewrite Hsh. cbv zeta. split.
  - unfold to_uint32. rewrite <- Z.land_ones by lia.
    rewrite Z.land_lor_distr_l, (land_low_ones c Hc), (shiftl_32_low v Hv).
    apply Z.lor_0_r.
  - rewrite Z.shiftr_lor.
    rewrite (Z.shiftr_div_pow2 c 32) by lia. rewrite (Z.div_small c) by exact Hc.
    rewrite Z.shiftr_shiftl_l by lia. simpl Z.sub. rewrite Z.shiftl_0_r, Z.lor_0_l.
    unfold to_uint32. apply Z.mod_small. exact Hv.
Qed.

Lemma set_input_body (index value : Z) (d : accel) :
  LOGISTIC_INPUT_SIZE = 8%nat ->
  0 <= index < 8 ->
  0 <= value < 2 ^ 32 ->
  (forall j, 0 <= input_regs d j < 2 ^ 32) ->
  (index mod 4 = 0 ->
   logistic_set_input index value d
   = Some (csr_write_input d (Z.to_nat (index / 4)) value))
  /\ (index mod 4 = 1 ->
      logistic_set_input index value d
      = Some (csr_write_input
                (csr_write_input d (Z.to_nat (index / 4))
                   (input_regs d (Z.to_nat (index / 4))))
                (S (Z.to_nat (index / 4))) value))
  /\ (2 <= index mod 4 -> logistic_set_input index value d = None).
Proof.
  intros H8 Hi Hv Hd.
  assert (Hc : to_uint32 (input_regs d (Z.to_nat (index / 4)))
               = input_regs d (Z.to_nat (index / 4))).
  { unfold to_uint32. apply Z.mod_small. apply Hd. }
  unfold logistic_set_input. rewrite H8.
  assert (Hlt8 : (index >=? Z.of_nat 8) = false)
    by (rewrite Z.geb_leb; apply Z.leb_gt; simpl; lia).
  rewrite Hlt8, Hc.
  split; [ | split ]; intros Hm.
  - rewrite Hm. change (0 * 32) with 0.
    change (0 >=? 64) with false. change (0 >=? 32) with false. cbv iota.
    rewrite (rmw_offset_0 _ value (Hd _) Hv). reflexivity.
  - rewrite Hm. change (1 * 32) with 32.
    change (32 >=? 64) with false. change (32 >=? 32) with true. cbv iota.
    destruct (rmw_offset_32 _ value (Hd (Z.to_nat (index / 4))) Hv) as [Hlow Hhigh].
    cbv zeta in Hlow, Hhigh. rewrite Hlow, Hhigh. reflexivity.
  - assert (Hoff : (index mod 4 * 32 >=? 64) = true).
    { rewrite Z.geb_leb. apply Z.leb_le. lia. }
    rewrite Hoff. reflexivity.
Qed.

(** X4.  With the 8 lanes of [inference_dumb.h], [logistic_set_input index
    value] does nothing for [index >= 8]; for an index below 8 it stores
    [value] in lane [index / 4 + index mod 4] and changes no other lane when
    [index mod 4] is 0 or 1, and shifts a 64-bit value by 64 bits or more
    (undefined) when [index mod 4] is 2 or 3.  So the lane written is lane
    [index] for 0 and 1 only: index 4 overwrites lane 1 and index 5 lane 2,
    unlike [logistic_set_inputs_direct], which stores element [i] in lane [i]. *)
Theorem set_input_lane (index value : Z) (d : accel) :
  LOGISTIC_INPUT_SIZE = 8%nat ->
  0 <= index < 256 ->
  0 <= value < 2 ^ 32 ->
  (forall j, 0 <= input_regs d j < 2 ^ 32) ->
  (8 <= index -> logistic_set_input index value d = Some d)
  /\ (index < 8 -> 2 <= index mod 4 -> logistic_set_input index value d = None)
  /\ (index < 8 -> index mod 4 < 2 ->
      exists d' : accel,
        logistic_set_input index value d = Some d'
        /\ (forall j : nat,
              input_regs d' j
              = if Nat.eqb j (Z.to_nat (index / 4 + index mod 4))
                then value else input_regs d j)
        /\ weight_regs d' = weight_regs d
        /\ result_reads d' = result_reads d)
  /\ (forall values : list Z,
        (forall j, (j < 8)%nat ->
           input_regs (logistic_set_inputs_direct values d) j = nth j values 0)).
Proof.
  intros H8 Hi Hv Hd. split; [ | split; [ | split ] ].
  - intros Hge. unfold logistic_set_input. rewrite H8.
    rewrite (proj2 (Z.geb_le index (Z.of_nat 8))) by (simpl; lia). reflexivity.
  - intros Hlt Hm.
    destruct (set_input_body index value d H8 ltac:(lia) Hv Hd) as [_ [_ H]].
    apply H. exact Hm.
  - intros Hlt Hm.
    destruct (set_input_body index value d H8 ltac:(lia) Hv Hd) as [H0 [H1 _]].
    assert (Hcases : index mod 4 = 0 \/ index mod 4 = 1)
      by (pose proof (Z.mod_pos_bound index 4 ltac:(lia)); lia).
    destruct Hcases as [Hm0 | Hm1].
    + eexists. split; [ apply H0; exact Hm0 | ].
      rewrite Hm0, Z.add_0_r. split; [ | split; reflexivity ].
      intros j. unfold csr_write_input, reg_write. simpl. reflexivity.
    + eexists. split; [ apply H1; exact Hm1 | ].
      rewrite Hm1. split; [ | split; reflexivity ].
      intros j. unfold csr_write_input, reg_write. simpl.
      replace (Z.to_nat (index / 4 + 1)) with (S (Z.to_nat (index / 4)))
        by (pose proof (Z.div_pos index 4 ltac:(lia) ltac:(lia)); lia).
      destruct (Nat.eqb_spec j (S (Z.to_nat (index / 4)))) as [-> | Hne];
        [ reflexivity | ].
      destruct (Nat.eqb_spec j (Z.to_nat (index / 4))) as [-> | Hne'];
        reflexivity.
  - intros values j Hj. unfold logistic_set_inputs_direct. rewrite H8.
    destruct (input_write_loop (fun i => nth i values 0) 8 d) as [Hin _].
    rewrite Hin. rewrite (proj2 (Nat.ltb_lt j 8) Hj). reflexivity.
Qed.

Lemma set_weight_body (index value : Z) (d : accel) :
  LOGISTIC_INPUT_SIZE = 8%nat ->
  0 <= index < 8 ->
  0 <= value < 2 ^ 32 ->
  (forall j, 0 <= weight_regs d j < 2 ^ 32) ->
  (index mod 4 = 0 ->
   logistic_set_weight index value d
   = Some (csr_write_weight d (Z.to_nat (index / 4)) value))
  /\ (index mod 4 = 1 ->
      logistic_set_weight index value d
      = Some (csr_write_weight
                (csr_write_weight d (Z.to_nat (index / 4))
                   (weight_regs d (Z.to_nat (index / 4))))
                (S (Z.to_nat (index / 4))) value))
  /\ (2 <= index mod 4 -> logistic_set_weight index value d = None).
Proof.
  intros H8 Hi Hv Hd.
  assert (Hc : to_uint32 (weight_regs d (Z.to_nat (index / 4)))
               = weight_regs d (Z.to_nat (index / 4))).
  { unfold to_uint32. apply Z.mod_small. apply Hd. }
  unfold logistic_set_weight. rewrite H8.
  assert (Hlt8 : (index >=? Z.of_nat 8) = false)
    by (rewrite Z.geb_leb; apply Z.leb_gt; simpl; lia).
  rewrite Hlt8, Hc.
  split; [ | split ]; intros Hm.
  - rewrite Hm. change (0 * 32) with 0.
    change (0 >=? 64) with false. change (0 >=? 32) with false. cbv iota.
    rewrite (rmw_offset_0 _ value (Hd _) Hv). reflexivity.
  - rewrite Hm. change (1 * 32) with 32.
    change (32 >=? 64) with false. change (32 >=? 32) with true. cbv iota.
    destruct (rmw_offset_32 _ value (Hd (Z.to_nat (index / 4))) Hv) as [Hlow Hhigh].
    cbv zeta in Hlow, Hhigh. rewrite Hlow, Hhigh. reflexivity.
  - assert (Hoff : (index mod 4 * 32 >=? 64) = true).
    { rewrite Z.geb_leb. apply Z.leb_le. lia. }
    rewrite Hoff. reflexivity.
Qed.

(** X5.  [logistic_set_weight] has the same arithmetic on the weight bank: no
    write for [index >= 8], lane [index / 4 + index mod 4] written for
    [index mod 4] 0 or 1 (lane [index] only for 0 and 1), an undefined shift
    for [index mod 4] 2 or 3; the input bank is never touched. *)
Theorem set_weight_lane (index value : Z) (d : accel) :
  LOGISTIC_INPUT_SIZE = 8%nat ->
  0 <= index < 256 ->
  0 <= value < 2 ^ 32 ->
  (forall j, 0 <= weight_regs d j < 2 ^ 32) ->
  (8 <= index -> logistic_set_weight index value d = Some d)
  /\ (index < 8 -> 2 <= index mod 4 -> logistic_set_weight index value d = None)
  /\ (index < 8 -> index mod 4 < 2 ->
      exists d' : accel,
        logistic_set_weight index value d = Some d'
        /\ (forall j : nat,
              weight_regs d' j
              = if Nat.eqb j (Z.to_nat (index / 4 + index mod 4))
                then value else weight_regs d j)
        /\ input_regs d' = input_regs d
        /\ result_reads d' = result_reads d).
Proof.
  intros H8 Hi Hv Hd. split; [ | split ].
  - intros Hge. unfold logistic_set_weight. rewrite H8.
    rewrite (proj2 (Z.geb_le index (Z.of_nat 8))) by (simpl; lia). reflexivity.
  - intros Hlt Hm.
    destruct (set_weight_body index value d H8 ltac:(lia) Hv Hd) as [_ [_ H]].
    apply H. exact Hm.
  - intros Hlt Hm.
    destruct (set_weight_body index value d H8 ltac:(lia) Hv Hd) as [H0 [H1 _]].
    assert (Hcases : index mod 4 = 0 \/ index mod 4 = 1)
      by (pose proof (Z.mod_pos_bound index 4 ltac:(lia)); lia).
    destruct Hcases as [Hm0 | Hm1].
    + eexists. split; [ apply H0; exact Hm0 | ].
      rewrite Hm0, Z.add_0_r. split; [ | split; reflexivity ].
      intros j. unfold csr_write_weight, reg_write. simpl. reflexivity.
    + eexists. split; [ apply H1; exact Hm1 | ].
      rewrite Hm1. split; [ | split; reflexivity ].
      intros j. unfold csr_write_weight, reg_write. simpl.
      replace (Z.to_nat (index / 4 + 1)) with (S (Z.to_nat (index / 4)))
        by (pose proof (Z.div_pos index 4 ltac:(lia) ltac:(lia)); lia).
      destruct (Nat.eqb_spec j (S (Z.to_nat (index / 4)))) as [-> | Hne];
        [ reflexivity | ].
      destruct (Nat.eqb_spec j (Z.to_nat (index / 4))) as [-> | Hne'];
        reflexivity.
Qed.

(** ** The whole-bank setters and the chunk primitive *)

Lemma set_inputs_direct_regs (i : list Z) (d : accel) :
  (forall j, input_regs (logistic_set_inputs_direct i d) j
             = if Nat.ltb j LOGISTIC_INPUT_SIZE then nth j i 0 else input_regs d j)
  /\ weight_regs (logistic_set_inputs_direct i d) = weight_regs d
  /\ result_reads (logistic_set_inputs_direct i d) = result_reads d.
Proof.
  unfold logistic_set_inputs_direct.
  apply (input_write_loop (fun k => nth k i 0) LOGISTIC_INPUT_SIZE d).
Qed.

Lemma set_weights_direct_regs (w : list Z) (d : accel) :
  (forall j, weight_regs (logistic_set_weights_direct w d) j
             = if Nat.ltb j LOGISTIC_INPUT_SIZE then nth j w 0 else weight_regs d j)
  /\ input_regs (logistic_set_weights_direct w d) = input_regs d
  /\ result_reads (logistic_set_weights_direct w d) = result_reads d.
Proof.
  unfold logistic_set_weights_direct.
  apply (weight_write_loop (fun k => nth k w 0) LOGISTIC_INPUT_SIZE d).
Qed.

(** X6.  [logistic_set_inputs] and [logistic_set_weights] return -1 and write
    nothing for an absent array; otherwise they return 0, store element [j] in
    lane [j] of their own bank and leave the other bank and the lanes past
    the lane count untouched.  The two commute, and
    [logistic_compute_dot_product] returns what the unit answers after both
    have been called, in either order. *)
Theorem set_inputs_then_weights (i w : list Z) (d : accel) :
  logistic_set_inputs None d = (-1, d)
  /\ logistic_set_weights None d = (-1, d)
  /\ fst (logistic_set_inputs (Some i) d) = 0
  /\ fst (logistic_set_weights (Some w) d) = 0
  /\ (forall j : nat,
        input_regs (snd (logistic_set_inputs (Some i) d)) j
        = (if Nat.ltb j LOGISTIC_INPUT_SIZE then nth j i 0 else input_regs d j)
        /\ weight_regs (snd (logistic_set_inputs (Some i) d)) j = weight_regs d j
        /\ weight_regs (snd (logistic_set_weights (Some w) d)) j
           = (if Nat.ltb j LOGISTIC_INPUT_SIZE then nth j w 0 else weight_regs d j)
        /\ input_regs (snd (logistic_set_weights (Some w) d)) j = input_regs d j)
  /\ fst (logistic_compute_dot_product (Some i) (Some w) d)
     = fst (logistic_get_result
              (snd (logistic_set_weights (Some w) (snd (logistic_set_inputs (Some i) d)))))
  /\ fst (logistic_compute_dot_product (Some i) (Some w) d)
     = fst (logistic_get_result
              (snd (logistic_set_inputs (Some i) (snd (logistic_set_weights (Some w) d))))).
Proof.
  destruct (set_inputs_direct_regs i d) as [Hi [Hiw _]].
  destruct (set_weights_direct_regs w d) as [Hw [Hwi _]].
  repeat split.
  - simpl. apply Hi.
  - simpl. rewrite Hiw. reflexivity.
  - simpl. apply Hw.
  - simpl. rewrite Hwi. reflexivity.
  - rewrite compute_dot_product_some. simpl. f_equal. f_equal.
    + unfold lanes.
      destruct (set_inputs_direct_regs i (logistic_set_weights_direct w d)) as [Hi' _].
      apply map_ext_in. intros j Hj. apply in_seq in Hj.
      rewrite Hi'. rewrite (proj2 (Nat.ltb_lt _ _)) by lia. reflexivity.
    + unfold lanes.
      destruct (set_inputs_direct_regs i (logistic_set_weights_direct w d)) as [_ [Hiw' _]].
      rewrite Hiw'.
      apply map_ext_in. intros j Hj. apply in_seq in Hj.
      rewrite Hw. rewrite (proj2 (Nat.ltb_lt _ _)) by lia. reflexivity.
Qed.

(** X7.  The float engine.  With a scale factor other than 0,
    [logistic_process_chunks_float] adds to [*accumulator], in [uint64_t], the
    unit's result on every chunk of the first [data_size] elements, each
    element converted with [float_to_fixed] and the last chunk padded with
    [0.0f], and returns the number of chunks;
    [logistic_predict_large_dataset_float] returns that sum, started from 0,
    plus the bias, in [int64_t].  The predictor returns 0 when a vector is
    absent or the scale factor is 0, whatever the bias. *)
Theorem predict_float_is_sum_plus_bias
    (inputs weights : list Q) (data_size : nat) (scale_factor bias acc0 : Z) (d : accel) :
  (0 < LOGISTIC_INPUT_SIZE)%nat ->
  Z.of_nat data_size < 2 ^ 31 ->
  scale_factor <> 0 ->
  0 <= acc0 < 2 ^ 64 ->
  (exists d' : accel,
      logistic_predict_large_dataset_float (Some inputs) (Some weights) data_size
        scale_factor bias d
      = Some (to_int64 (sum_upto (ceil_div data_size LOGISTIC_INPUT_SIZE)
                          (chunk_result_float inputs weights scale_factor data_size)
                        + bias),
              d'))
  /\ (exists rf : chunks_result,
        logistic_process_chunks_float (Some inputs) (Some weights) data_size scale_factor
          (Some acc0) d = Some rf
        /\ cr_return rf = Z.of_nat (ceil_div data_size LOGISTIC_INPUT_SIZE)
        /\ cr_accumulator rf
           = Some (to_uint64 (acc0 + sum_upto (ceil_div data_size LOGISTIC_INPUT_SIZE)
                                       (chunk_result_float inputs weights scale_factor
                                          data_size))))
  /\ logistic_predict_large_dataset_float (Some inputs) (Some weights) data_size 0 bias d
     = Some (0, d)
  /\ logistic_predict_large_dataset_float None (Some weights) data_size scale_factor bias d
     = Some (0, d)
  /\ logistic_predict_large_dataset_float (Some inputs) None data_size scale_factor bias d
     = Some (0, d).
Proof.
  intros Hn Hsize Hs Ha.
  assert (Hfit : in_int32 (Z.of_nat (ceil_div data_size LOGISTIC_INPUT_SIZE))).
  { unfold in_int32. pose proof (ceil_div_le_size data_size LOGISTIC_INPUT_SIZE Hn). lia. }
  split; [ | split; [ | repeat split ] ].
  - unfold logistic_predict_large_dataset_float.
    rewrite (proj2 (Z.eqb_neq scale_factor 0) Hs).
    destruct (process_chunks_float_some inputs weights data_size scale_factor 0 d
                Hn Hs ltac:(lia)) as [r [Hrun [Hret [Hacc _]]]].
    rewrite Hrun, Hret, Hacc.
    rewrite (to_int32_id _ Hfit).
    rewrite (proj2 (Z.ltb_ge _ 0)) by lia.
    eexists. f_equal. f_equal.
    rewrite Z.add_0_l, to_int64_add_l, to_int64_uint64_add. reflexivity.
  - destruct (process_chunks_float_some inputs weights data_size scale_factor acc0 d
                Hn Hs Ha) as [rf [Hrun [Hret [Hacc _]]]].
    exists rf. split; [ exact Hrun | ]. split; [ | exact Hacc ].
    rewrite Hret. apply to_int32_id. exact Hfit.
Qed.

(** X8.  With 8 lanes, [logistic_self_test] returns 0 after two uses of the
    unit on every unit that is a 32-bit dot product of its lanes, and -1 after
    one use as soon as the unit answers anything but 36 on its first vectors. *)
Theorem self_test_verdict (d : accel) :
  LOGISTIC_INPUT_SIZE = 8%nat ->
  ((forall ls rs : list Z,
       length ls = 8%nat -> length rs = 8%nat ->
       to_uint32 (logistic_unit ls rs) = to_uint32 (dot_lanes ls rs)) ->
   fst (logistic_self_test d) = 0
   /\ result_reads (snd (logistic_self_test d)) = (2 + result_reads d)%nat)
  /\ (to_uint32 (logistic_unit [1; 2; 3; 4; 5; 6; 7; 8] [1; 1; 1; 1; 1; 1; 1; 1]) <> 36 ->
      fst (logistic_self_test d) = -1
      /\ result_reads (snd (logistic_self_test d)) = (1 + result_reads d)%nat).
Proof.
  intros H8.
  unfold logistic_self_test. rewrite H8. cbn [repeat].
  pose proof (compute_dot_product_some [1; 2; 3; 4; 5; 6; 7; 8] [1; 1; 1; 1; 1; 1; 1; 1] d)
    as H1.
  pose proof (compute_dot_product_reads [1; 2; 3; 4; 5; 6; 7; 8] [1; 1; 1; 1; 1; 1; 1; 1] d)
    as R1.
  rewrite H8 in H1. cbn [map seq nth] in H1.
  destruct (logistic_compute_dot_product (Some [1; 2; 3; 4; 5; 6; 7; 8])
              (Some [1; 1; 1; 1; 1; 1; 1; 1]) d) as [v d1].
  injection H1 as Hv Hd1. cbn [snd] in R1.
  pose proof (compute_dot_product_some [0; 0; 0; 0; 0; 0; 0; 0] [1; 1; 1; 1; 1; 1; 1; 1] d1) as H2.
  pose proof (compute_dot_product_reads [0; 0; 0; 0; 0; 0; 0; 0] [1; 1; 1; 1; 1; 1; 1; 1] d1) as R2.
  rewrite H8 in H2. cbn [map seq nth] in H2.
  split.
  - intros Hdot.
    rewrite Hdot in Hv by reflexivity. rewrite Hdot in H2 by reflexivity.
    change (to_uint32 (dot_lanes [1; 2; 3; 4; 5; 6; 7; 8] [1; 1; 1; 1; 1; 1; 1; 1]))
      with 36 in Hv.
    change (to_uint32 (dot_lanes [0; 0; 0; 0; 0; 0; 0; 0] [1; 1; 1; 1; 1; 1; 1; 1]))
      with 0 in H2.
    subst v.
    change (36 =? 1 + 2 + 3 + 4 + 5 + 6 + 7 + 8) with true. cbn [negb].
    destruct (logistic_compute_dot_product (Some [0; 0; 0; 0; 0; 0; 0; 0])
                (Some [1; 1; 1; 1; 1; 1; 1; 1]) d1) as [v2 d2].
    injection H2 as Hv2 Hd2. subst v2. cbn [snd] in R2.
    cbn [Z.eqb negb fst snd]. split; [ reflexivity | ]. rewrite R2, R1. reflexivity.
  - intros Hbad. rewrite <- Hv in Hbad.
    destruct (Z.eqb_spec v (1 + 2 + 3 + 4 + 5 + 6 + 7 + 8)) as [E | E].
    + exfalso. apply Hbad. exact E.
    + cbn [negb fst snd]. split; [ reflexivity | exact R1 ].
Qed.

(** ** The timed loops of the 64-lane driver *)

Lemma clock_elapsed (start j : Z) :
  0 <= j < 2 ^ 32 - 1 ->
  to_uint32 (to_uint32 (start + 1 + j) - start) = 1 + j.
Proof.
  intros Hj. unfold to_uint32. rewrite Zminus_mod_idemp_l.
  replace (start + 1 + j - start) with (1 + j) by lia.
  apply Z.mod_small. lia.
Qed.

Lemma clock_tick (start j : Z) :
  to_uint32 (to_uint32 (start + 1 + j) + 1) = to_uint32 (start + 1 + (j + 1)).
Proof.
  unfold to_uint32. rewrite Zplus_mod_idemp_l. f_equal. lia.
Qed.

(** The wait loop from the [j]-th test of the clock on: it is left with
    [LOGISTIC_OK] at the first poll that sees the done bit, and with
    [LOGISTIC_ERROR_TIMEOUT] once [timeout_ms + 1] ticks have been seen. *)
Lemma logistic_wait_loop_outcome (c : logistic_ctx_t) (start : Z) :
  initialized c = true ->
  0 <= timeout_ms c < 2 ^ 32 - 1 ->
  forall (fuel : nat) (j : Z) (s : lr_state),
    0 <= j <= timeout_ms c ->
    system_time_ms s = to_uint32 (start + 1 + j) ->
    (Z.to_nat (timeout_ms c - j) < fuel)%nat ->
    exists (status : logistic_status_t) (s' : lr_state),
      logistic_wait_loop fuel c start s = Some (status, s')
      /\ ((status = LOGISTIC_OK
           /\ (exists k : nat,
                 (k <= Z.to_nat (timeout_ms c - j))%nat
                 /\ done_reads s' = (done_reads s + k + 1)%nat
                 /\ system_time_ms s' = to_uint32 (system_time_ms s + Z.of_nat k)
                 /\ Z.land (logistic_done (done_reads s + k)) 1 <> 0
                 /\ forall i : nat, (i < k)%nat ->
                      Z.land (logistic_done (done_reads s + i)) 1 = 0))
          \/ (status = LOGISTIC_ERROR_TIMEOUT
              /\ done_reads s' = (done_reads s + Z.to_nat (timeout_ms c - j) + 1)%nat
              /\ forall i : nat, (i <= Z.to_nat (timeout_ms c - j))%nat ->
                   Z.land (logistic_done (done_reads s + i)) 1 = 0)).
Proof.
  intros Hinit HT.
  induction fuel as [ | fuel IH ]; intros j s Hj Htime Hfuel; [ lia | ].
  cbn [logistic_wait_loop logistic_is_done get_time_ms].
  rewrite Hinit. cbn [negb].
  destruct (Z.eqb_spec (Z.land (logistic_done (done_reads s)) 1) 0) as [Hbit | Hbit].
  - cbn [negb system_time_ms done_reads].
    rewrite Htime, clock_elapsed by lia.
    destruct (Z.gtb_spec (1 + j) (timeout_ms c)) as [Hgt | Hle].
    + eexists. eexists. split; [ reflexivity | ]. right.
      replace (timeout_ms c - j) with 0 by lia.
      split; [ reflexivity | ]. split; [ cbn [done_reads]; simpl; lia | ].
      intros i Hi. replace i with 0%nat by (simpl in Hi; lia).
      rewrite Nat.add_0_r. exact Hbit.
    + match goal with |- context [logistic_wait_loop fuel c start ?s1] => set (s2 := s1) end.
      destruct (IH (j + 1) s2) as [status [s' [Hrun Hout]]].
      * lia.
      * subst s2. cbn [system_time_ms]. apply clock_tick.
      * lia.
      * exists status, s'. split; [ exact Hrun | ].
        assert (Hd2 : done_reads s2 = S (done_reads s)) by reflexivity.
        assert (Ht2 : system_time_ms s2 = to_uint32 (system_time_ms s + 1)).
        { subst s2. cbn [system_time_ms]. rewrite Htime. reflexivity. }
        destruct Hout as [[Hs [k [Hk [Hr [Htm [Hset Hclear]]]]]] | [Hs [Hr Hclear]]].
        -- left. split; [ exact Hs | ]. exists (S k).
           split; [ lia | ]. split; [ lia | ]. split.
           { rewrite <- Htime, Htm, Ht2. unfold to_uint32. rewrite Zplus_mod_idemp_l.
             replace (system_time_ms s + Z.of_nat (S k))
               with (system_time_ms s + 1 + Z.of_nat k) by lia.
             reflexivity. }
           split.
           { replace (done_reads s + S k)%nat with (done_reads s2 + k)%nat by lia.
             exact Hset. }
           intros i Hi. destruct i as [ | i ].
           { rewrite Nat.add_0_r. exact Hbit. }
           replace (done_reads s + S i)%nat with (done_reads s2 + i)%nat by lia.
           apply Hclear. lia.
        -- right. split; [ exact Hs | ]. split; [ lia | ].
           intros i Hi. destruct i as [ | i ].
           { rewrite Nat.add_0_r. exact Hbit. }
           replace (done_reads s + S i)%nat with (done_reads s2 + i)%nat by lia.
           apply Hclear. lia.
  - cbn [negb]. eexists. eexists. split; [ reflexivity | ]. left.
    split; [ reflexivity | ]. exists 0%nat. cbn [done_reads system_time_ms].
    split; [ lia | ]. split; [ lia | ]. split.
    { rewrite Z.add_0_r, Htime. unfold to_uint32. rewrite Z.mod_mod by lia. reflexivity. }
    split; [ rewrite Nat.add_0_r; exact Hbit | ].
    intros i Hi. lia.
Qed.

(** With the largest timeout a [uint32_t] holds no elapsed time exceeds it. *)
Lemma logistic_wait_loop_max_timeout (c : logistic_ctx_t) (start : Z) :
  initialized c = true ->
  timeout_ms c = 2 ^ 32 - 1 ->
  (forall k, Z.land (logistic_done k) 1 = 0) ->
  forall (fuel : nat) (s : lr_state), logistic_wait_loop fuel c start s = None.
Proof.
  intros Hinit HT Hnever.
  induction fuel as [ | fuel IH ]; intros s; [ reflexivity | ].
  cbn [logistic_wait_loop logistic_is_done get_time_ms].
  rewrite Hinit, Hnever. cbn [negb Z.eqb system_time_ms].
  rewrite HT.
  destruct (Z.gtb_spec (to_uint32 (system_time_ms s - start)) (2 ^ 32 - 1)) as [Hgt | Hle].
  - exfalso. unfold to_uint32 in Hgt.
    pose proof (Z.mod_pos_bound (system_time_ms s - start) (2 ^ 32) ltac:(lia)). lia.
  - apply IH.
Qed.

Lemma logistic_wait_done_runs (c : logistic_ctx_t) (s : lr_state) :
  initialized c = true ->
  0 <= timeout_ms c < 2 ^ 32 - 1 ->
  exists (status : logistic_status_t) (s' : lr_state),
    logistic_wait_done (Z.to_nat (timeout_ms c) + 1) (Some c) s = Some (status, s')
    /\ ((status = LOGISTIC_OK
         /\ (exists k : nat,
               (k <= Z.to_nat (timeout_ms c))%nat
               /\ done_reads s' = (done_reads s + k + 1)%nat
               /\ Z.land (logistic_done (done_reads s + k)) 1 <> 0
               /\ forall i : nat, (i < k)%nat ->
                    Z.land (logistic_done (done_reads s + i)) 1 = 0))
        \/ (status = LOGISTIC_ERROR_TIMEOUT
            /\ done_reads s' = (done_reads s + Z.to_nat (timeout_ms c) + 1)%nat
            /\ forall i : nat, (i <= Z.to_nat (timeout_ms c))%nat ->
                 Z.land (logistic_done (done_reads s + i)) 1 = 0)).
Proof.
  intros Hinit HT.
  unfold logistic_wait_done. rewrite Hinit. cbn [negb get_time_ms].
  destruct (logistic_wait_loop_outcome c (system_time_ms s) Hinit HT
              (Z.to_nat (timeout_ms c) + 1) 0
              {| system_time_ms := to_uint32 (system_time_ms s + 1);
                 done_reads := done_reads s |})
    as [status [s' [Hrun Hout]]].
  - lia.
  - cbn [system_time_ms]. f_equal. lia.
  - rewrite Z.sub_0_r. lia.
  - exists status, s'. split; [ exact Hrun | ].
    rewrite Z.sub_0_r in Hout. cbn [done_reads] in Hout.
    destruct Hout as [[Hs [k [Hk [Hr [_ [Hset Hclear]]]]]] | [Hs [Hr Hclear]]].
    + left. split; [ exact Hs | ]. exists k. repeat split; assumption.
    + right. repeat split; assumption.
Qed.

(** X9.  [logistic_wait_done] refuses an absent or uninitialised context
    without touching anything.  Otherwise, for a timeout below [UINT32_MAX], it
    returns within [timeout_ms + 1] polls: [LOGISTIC_OK] at the first poll that
    sees the done bit, [LOGISTIC_ERROR_TIMEOUT] when none of them does.  With
    a timeout of [UINT32_MAX] and a unit that is never done it never
    returns. *)
Theorem wait_done_outcome (c : logistic_ctx_t) (s : lr_state) :
  initialized c = true ->
  0 <= timeout_ms c < 2 ^ 32 - 1 ->
  (exists (status : logistic_status_t) (s' : lr_state),
      logistic_wait_done (Z.to_nat (timeout_ms c) + 1) (Some c) s = Some (status, s')
      /\ ((status = LOGISTIC_OK
           /\ (exists k : nat,
                 (k <= Z.to_nat (timeout_ms c))%nat
                 /\ done_reads s' = (done_reads s + k + 1)%nat
                 /\ Z.land (logistic_done (done_reads s + k)) 1 <> 0
                 /\ forall i : nat, (i < k)%nat ->
                      Z.land (logistic_done (done_reads s + i)) 1 = 0))
          \/ (status = LOGISTIC_ERROR_TIMEOUT
              /\ done_reads s' = (done_reads s + Z.to_nat (timeout_ms c) + 1)%nat
              /\ forall i : nat, (i <= Z.to_nat (timeout_ms c))%nat ->
                   Z.land (logistic_done (done_reads s + i)) 1 = 0)))
  /\ (forall fuel : nat,
        logistic_wait_done fuel None s = Some (LOGISTIC_ERROR_INVALID_PARAM, s)
        /\ logistic_wait_done fuel
             (Some {| initialized := false; timeout_ms := timeout_ms c |}) s
           = Some (LOGISTIC_ERROR_INVALID_PARAM, s))
  /\ ((forall k, Z.land (logistic_done k) 1 = 0) ->
      forall fuel : nat,
        logistic_wait_done fuel (Some {| initialized := true; timeout_ms := 2 ^ 32 - 1 |}) s
        = None).
Proof.
  intros Hinit HT. split; [ | split ].
  - apply logistic_wait_done_runs; assumption.
  - intros fuel. split; reflexivity.
  - intros Hnever fuel. unfold logistic_wait_done. cbn [initialized negb get_time_ms].
    apply logistic_wait_loop_max_timeout; [ reflexivity | reflexivity | exact Hnever ].
Qed.

(** The reset loop from the [j]-th test of the clock on: it is left within
    100 tests, and it reads the done register at most once per test. *)
Lemma logistic_reset_loop_outcome (c : logistic_ctx_t) (start : Z) :
  forall (fuel : nat) (j : Z) (s : lr_state),
    0 <= j <= 99 ->
    system_time_ms s = to_uint32 (start + 1 + j) ->
    (Z.to_nat (100 - j) <= fuel)%nat ->
    exists s' : lr_state,
      logistic_reset_loop fuel c start s = Some s'
      /\ (done_reads s <= done_reads s' <= done_reads s + Z.to_nat (100 - j))%nat
      /\ (initialized c = false ->
          done_reads s' = done_reads s
          /\ system_time_ms s' = to_uint32 (start + 1 + 100)).
Proof.
  induction fuel as [ | fuel IH ]; intros j s Hj Htime Hfuel; [ lia | ].
  cbn [logistic_reset_loop].
  destruct (logistic_is_done (Some c) s) as [done s1] eqn:Hd.
  assert (Hs1 : system_time_ms s1 = system_time_ms s
                /\ (done_reads s <= done_reads s1 <= S (done_reads s))%nat
                /\ (initialized c = false -> done = false /\ done_reads s1 = done_reads s)).
  { unfold logistic_is_done in Hd. destruct (initialized c); cbn [negb] in Hd.
    - injection Hd as _ <-. cbn [system_time_ms done_reads].
      split; [ reflexivity | ]. split; [ lia | discriminate ].
    - injection Hd as <- <-. split; [ reflexivity | ]. split; [ lia | ].
      intros _. split; reflexivity. }
  destruct Hs1 as [Ht1 [Hr1 Hun]].
  destruct done.
  - exists s1. split; [ reflexivity | ]. split; [ lia | ].
    intros Hc. destruct (Hun Hc) as [Hf _]. discriminate.
  - cbn [get_time_ms]. rewrite Ht1, Htime, clock_elapsed by lia.
    destruct (Z.ltb_spec (1 + j) 100) as [Hlt | Hge].
    + match goal with |- context [logistic_reset_loop fuel c start ?s1] => set (s2 := s1) end.
      destruct (IH (j + 1) s2) as [s' [Hrun [Hreads Hun']]].
      * lia.
      * subst s2. cbn [system_time_ms]. apply clock_tick.
      * lia.
      * exists s'. split; [ exact Hrun | ].
        assert (Hd2 : done_reads s2 = done_reads s1) by reflexivity.
        split; [ lia | ].
        intros Hc. destruct (Hun' Hc) as [Hr Ht]. destruct (Hun Hc) as [_ Hr1'].
        split; [ lia | exact Ht ].
    + eexists. split; [ reflexivity | ]. cbn [done_reads system_time_ms].
      split; [ lia | ].
      intros Hc. destruct (Hun Hc) as [_ Hr1']. split; [ exact Hr1' | ].
      rewrite clock_tick. f_equal. lia.
Qed.

(** X10.  [logistic_init] of the 64-lane driver refuses an absent context.
    Otherwise it returns [LOGISTIC_OK] after at most 100 polls of the done
    register, whatever the unit does, and leaves the context initialised with
    the timeout given, or with [LOGISTIC_TIMEOUT_MS] when 0 was given.
    [logistic_reset] on a context that is not initialised waits out its 100
    ticks without reading the done register once. *)
Theorem ctx_init_outcome (c0 : logistic_ctx_t) (timeout : Z) (s : lr_state) :
  0 <= timeout < 2 ^ 32 ->
  (exists (c : logistic_ctx_t) (s' : lr_state),
      logistic_ctx_init 100 (Some c0) timeout s = Some (LOGISTIC_OK, Some c, s')
      /\ initialized c = true
      /\ timeout_ms c = (if timeout =? 0 then LOGISTIC_TIMEOUT_MS else timeout)
      /\ (done_reads s <= done_reads s' <= done_reads s + 100)%nat)
  /\ (forall fuel : nat,
        logistic_ctx_init fuel None timeout s = Some (LOGISTIC_ERROR_INVALID_PARAM, None, s)
        /\ logistic_reset fuel None s = Some (LOGISTIC_ERROR_INVALID_PARAM, s))
  /\ (exists s' : lr_state,
        logistic_reset 100 (Some {| initialized := false; timeout_ms := timeout |}) s
        = Some (LOGISTIC_OK, s')
        /\ done_reads s' = done_reads s
        /\ system_time_ms s' = to_uint32 (system_time_ms s + 101)).
Proof.
  intros HT. split; [ | split ].
  - unfold logistic_ctx_init, logistic_reset. cbn [get_time_ms].
    match goal with
    | |- context [logistic_reset_loop 100 ?c ?st ?s1] =>
        destruct (logistic_reset_loop_outcome c st 100 0 s1) as [s' [Hrun [Hreads _]]]
    end.
    + lia.
    + cbn [system_time_ms]. f_equal. lia.
    + simpl. lia.
    + rewrite Hrun. eexists. exists s'. split; [ reflexivity | ].
      cbn [initialized timeout_ms]. split; [ reflexivity | ]. split.
      * destruct (Z.gtb_spec timeout 0), (Z.eqb_spec timeout 0); try reflexivity; lia.
      * cbn [done_reads] in Hreads. simpl in Hreads. lia.
  - intros fuel. split; reflexivity.
  - unfold logistic_reset. cbn [get_time_ms].
    match goal with
    | |- context [logistic_reset_loop 100 ?c ?st ?s1] =>
        destruct (logistic_reset_loop_outcome c st 100 0 s1) as [s' [Hrun [_ Hun]]]
    end.
    + lia.
    + cbn [system_time_ms]. f_equal. lia.
    + simpl. lia.
    + rewrite Hrun. exists s'. split; [ reflexivity | ].
      destruct (Hun eq_refl) as [Hr Ht]. cbn [done_reads] in Hr.
      split; [ exact Hr | ]. rewrite Ht. f_equal. lia.
Qed.

(** ** The register banks of the 64-lane driver *)

Lemma to_uint8_id (i : Z) : 0 <= i < 256 -> to_uint8 i = i.
Proof.
  intros Hi. unfold to_uint8. apply Z.mod_small. lia.
Qed.

(** The array loops never meet the error branch of the register writes: the
    bank gets [data[j]] in every lane [j] that the loop has still to visit. *)
Lemma write_input_data_from (data : list Z) :
  (LOGISTIC_INPUT_SIZE <= 256)%nat ->
  forall (n : nat) (i : nat) (m : lr_regs),
    (i + n <= LOGISTIC_INPUT_SIZE)%nat ->
    exists r : reg_file,
      logistic_write_array_from logistic_write_input_data_reg n (Z.of_nat i) data m
      = (LOGISTIC_OK, set_lr_input_data m r)
      /\ forall j : nat,
           r j = if andb (Nat.leb i j) (Nat.ltb j (i + n)) then nth j data 0
                 else lr_input_data m j.
Proof.
  intros Hsize.
  induction n as [ | n IH ]; intros i m Hi.
  - exists (lr_input_data m). split; [ destruct m; reflexivity | ].
    intros j. destruct (Nat.leb_spec i j), (Nat.ltb_spec j (i + 0)); try reflexivity. lia.
  - cbn [logistic_write_array_from].
    rewrite to_uint8_id by lia. rewrite Nat2Z.id.
    unfold logistic_write_input_data_reg at 1.
    replace (Z.of_nat i >=? Z.of_nat LOGISTIC_INPUT_SIZE) with false
      by (symmetry; rewrite Z.geb_leb; apply Z.leb_gt; lia).
    rewrite Nat2Z.id.
    replace (Z.of_nat i + 1) with (Z.of_nat (S i)) by lia.
    destruct (IH (S i)
                (set_lr_input_data m (reg_write (lr_input_data m) i (nth i data 0))))
      as [r [Hrun Hr]]; [ lia | ].
    exists r. split; [ exact Hrun | ].
    intros j. rewrite Hr. cbn [set_lr_input_data lr_input_data]. unfold reg_write.
    destruct (Nat.leb_spec (S i) j), (Nat.ltb_spec j (S i + n)), (Nat.leb_spec i j),
      (Nat.ltb_spec j (i + S n)), (Nat.eqb_spec j i); cbn [andb]; subst;
      try reflexivity; lia.
Qed.

Lemma write_weights_from (data : list Z) :
  (LOGISTIC_INPUT_SIZE <= 256)%nat ->
  forall (n : nat) (i : nat) (m : lr_regs),
    (i + n <= LOGISTIC_INPUT_SIZE)%nat ->
    exists r : reg_file,
      logistic_write_array_from logistic_write_weight_reg n (Z.of_nat i) data m
      = (LOGISTIC_OK, set_lr_weights m r)
      /\ forall j : nat,
           r j = if andb (Nat.leb i j) (Nat.ltb j (i + n)) then nth j data 0
                 else lr_weights m j.
Proof.
  intros Hsize.
  induction n as [ | n IH ]; intros i m Hi.
  - exists (lr_weights m). split; [ destruct m; reflexivity | ].
    intros j. destruct (Nat.leb_spec i j), (Nat.ltb_spec j (i + 0)); try reflexivity. lia.
  - cbn [logistic_write_array_from].
    rewrite to_uint8_id by lia. rewrite Nat2Z.id.
    unfold logistic_write_weight_reg at 1.
    replace (Z.of_nat i >=? Z.of_nat LOGISTIC_INPUT_SIZE) with false
      by (symmetry; rewrite Z.geb_leb; apply Z.leb_gt; lia).
    rewrite Nat2Z.id.
    replace (Z.of_nat i + 1) with (Z.of_nat (S i)) by lia.
    destruct (IH (S i)
                (set_lr_weights m (reg_write (lr_weights m) i (nth i data 0))))
      as [r [Hrun Hr]]; [ lia | ].
    exists r. split; [ exact Hrun | ].
    intros j. rewrite Hr. cbn [set_lr_weights lr_weights]. unfold reg_write.
    destruct (Nat.leb_spec (S i) j), (Nat.ltb_spec j (S i + n)), (Nat.leb_spec i j),
      (Nat.ltb_spec j (i + S n)), (Nat.eqb_spec j i); cbn [andb]; subst;
      try reflexivity; lia.
Qed.

Lemma write_input_data_array_ok (data : list Z) (m : lr_regs) :
  (LOGISTIC_INPUT_SIZE <= 256)%nat ->
  exists r : reg_file,
    logistic_write_input_data_array data m = (LOGISTIC_OK, set_lr_input_data m r)
    /\ forall j : nat,
         r j = if Nat.ltb j LOGISTIC_INPUT_SIZE then nth j data 0 else lr_input_data m j.
Proof.
  intros Hsize.
  destruct (write_input_data_from data Hsize LOGISTIC_INPUT_SIZE 0 m ltac:(lia))
    as [r [Hrun Hr]].
  exists r. split; [ exact Hrun | ]. intros j. rewrite Hr. reflexivity.
Qed.

Lemma write_weights_array_ok (data : list Z) (m : lr_regs) :
  (LOGISTIC_INPUT_SIZE <= 256)%nat ->
  exists r : reg_file,
    logistic_write_weights_array data m = (LOGISTIC_OK, set_lr_weights m r)
    /\ forall j : nat,
         r j = if Nat.ltb j LOGISTIC_INPUT_SIZE then nth j data 0 else lr_weights m j.
Proof.
  intros Hsize.
  destruct (write_weights_from data Hsize LOGISTIC_INPUT_SIZE 0 m ltac:(lia))
    as [r [Hrun Hr]].
  exists r. split; [ exact Hrun | ]. intros j. rewrite Hr. reflexivity.
Qed.

(** X11.  With at most 256 lanes, [logistic_set_input_data] and
    [logistic_set_weights] of the 64-lane driver return [LOGISTIC_OK] on a
    usable context and a present array (the error branch of their loops is
    never taken), store element [j] in lane [j] of their bank and change
    nothing else; without a usable context or array they return
    [LOGISTIC_ERROR_INVALID_PARAM] and write nothing.  A single register write
    is refused exactly for an index that is not below the lane count, and what
    was written is read back at the same index. *)
Theorem set_input_data_writes_bank
    (c : logistic_ctx_t) (data : list Z) (index value : Z) (m : lr_regs) :
  (LOGISTIC_INPUT_SIZE <= 256)%nat ->
  initialized c = true ->
  0 <= index < 256 ->
  (exists r : reg_file,
      logistic_set_input_data (Some c) (Some data) m = (LOGISTIC_OK, set_lr_input_data m r)
      /\ forall j : nat,
           r j = if Nat.ltb j LOGISTIC_INPUT_SIZE then nth j data 0 else lr_input_data m j)
  /\ (exists r : reg_file,
        logistic_ctx_set_weights (Some c) (Some data) m = (LOGISTIC_OK, set_lr_weights m r)
        /\ forall j : nat,
             r j = if Nat.ltb j LOGISTIC_INPUT_SIZE then nth j data 0 else lr_weights m j)
  /\ (logistic_set_input_data None (Some data) m = (LOGISTIC_ERROR_INVALID_PARAM, m)
      /\ logistic_set_input_data (Some c) None m = (LOGISTIC_ERROR_INVALID_PARAM, m)
      /\ logistic_set_input_data
           (Some {| initialized := false; timeout_ms := timeout_ms c |}) (Some data) m
         = (LOGISTIC_ERROR_INVALID_PARAM, m)
      /\ logistic_ctx_set_weights None (Some data) m = (LOGISTIC_ERROR_INVALID_PARAM, m)
      /\ logistic_ctx_set_weights (Some c) None m = (LOGISTIC_ERROR_INVALID_PARAM, m)
      /\ logistic_ctx_set_weights
           (Some {| initialized := false; timeout_ms := timeout_ms c |}) (Some data) m
         = (LOGISTIC_ERROR_INVALID_PARAM, m))
  /\ (Z.of_nat LOGISTIC_INPUT_SIZE <= index ->
      logistic_write_input_data_reg index value m = (LOGISTIC_ERROR_INVALID_PARAM, m)
      /\ logistic_write_weight_reg index value m = (LOGISTIC_ERROR_INVALID_PARAM, m)
      /\ logistic_read_input_data_reg index (Some 0) m
         = (LOGISTIC_ERROR_INVALID_PARAM, Some 0)
      /\ logistic_read_weight_reg index (Some 0) m = (LOGISTIC_ERROR_INVALID_PARAM, Some 0))
  /\ (index < Z.of_nat LOGISTIC_INPUT_SIZE ->
      fst (logistic_write_input_data_reg index value m) = LOGISTIC_OK
      /\ logistic_read_input_data_reg index (Some 0)
           (snd (logistic_write_input_data_reg index value m))
         = (LOGISTIC_OK, Some value)
      /\ fst (logistic_write_weight_reg index value m) = LOGISTIC_OK
      /\ logistic_read_weight_reg index (Some 0)
           (snd (logistic_write_weight_reg index value m))
         = (LOGISTIC_OK, Some value)
      /\ logistic_read_input_data_reg index None m = (LOGISTIC_ERROR_INVALID_PARAM, None)).
Proof.
  intros Hsize Hinit Hindex.
  split; [ | split; [ | split; [ | split ] ] ].
  - unfold logistic_set_input_data, ctx_unusable. rewrite Hinit. cbn [negb].
    apply write_input_data_array_ok. exact Hsize.
  - unfold logistic_ctx_set_weights, ctx_unusable. rewrite Hinit. cbn [negb].
    apply write_weights_array_ok. exact Hsize.
  - unfold logistic_set_input_data, logistic_ctx_set_weights, ctx_unusable.
    rewrite Hinit. cbn [negb initialized]. repeat split.
  - intros Hge.
    unfold logistic_write_input_data_reg, logistic_write_weight_reg,
      logistic_read_input_data_reg, logistic_read_weight_reg.
    replace (index >=? Z.of_nat LOGISTIC_INPUT_SIZE) with true
      by (symmetry; apply Z.geb_le; exact Hge).
    repeat split.
  - intros Hlt.
    unfold logistic_write_input_data_reg, logistic_write_weight_reg,
      logistic_read_input_data_reg, logistic_read_weight_reg.
    replace (index >=? Z.of_nat LOGISTIC_INPUT_SIZE) with false
      by (symmetry; rewrite Z.geb_leb; apply Z.leb_gt; exact Hlt).
    cbn [fst snd set_lr_input_data set_lr_weights lr_input_data lr_weights].
    unfold reg_write. rewrite Nat.eqb_refl. repeat split.
Qed.

(** X12.  [logistic_inference] on a usable context and present arrays: it
    loads both banks and the bias first, then polls the done register once.
    If that poll is clear it returns [LOGISTIC_ERROR_BUSY] with the start
    register unwritten.  Otherwise it writes 1 to the start register once and
    waits: it stores the output register in [*result] and returns
    [LOGISTIC_OK] if one of the next [timeout_ms + 1] polls sees the done
    bit, and returns [LOGISTIC_ERROR_TIMEOUT] if none does.  [*result] is
    written only with [LOGISTIC_OK]; the banks and the bias have been
    overwritten in all three cases. *)
Theorem inference_outcome
    (c : logistic_ctx_t) (data weights : list Z) (bias r0 : Z) (m : lr_regs) :
  (LOGISTIC_INPUT_SIZE <= 256)%nat ->
  initialized c = true ->
  0 <= timeout_ms c < 2 ^ 32 - 1 ->
  (exists (status : logistic_status_t) (result : option Z) (m' : lr_regs),
    logistic_inference (Z.to_nat (timeout_ms c) + 1) (Some c) (Some data) (Some weights)
      bias (Some r0) m
    = Some (status, result, m')
    /\ (forall j : nat, (j < LOGISTIC_INPUT_SIZE)%nat ->
          lr_input_data m' j = nth j data 0 /\ lr_weights m' j = nth j weights 0)
    /\ lr_bias m' = bias
    /\ ((status = LOGISTIC_ERROR_BUSY
         /\ Z.land (logistic_done (done_reads (lr_clock m))) 1 = 0
         /\ result = Some r0
         /\ lr_start_writes m' = lr_start_writes m
         /\ done_reads (lr_clock m') = S (done_reads (lr_clock m)))
        \/ (status = LOGISTIC_OK
            /\ Z.land (logistic_done (done_reads (lr_clock m))) 1 <> 0
            /\ result = Some (to_uint32 (logistic_output m'))
            /\ lr_start_writes m' = lr_start_writes m ++ [1]
            /\ exists k : nat,
                 (k <= Z.to_nat (timeout_ms c))%nat
                 /\ done_reads (lr_clock m') = (done_reads (lr_clock m) + 1 + k + 1)%nat
                 /\ Z.land (logistic_done (done_reads (lr_clock m) + 1 + k)) 1 <> 0)
        \/ (status = LOGISTIC_ERROR_TIMEOUT
            /\ Z.land (logistic_done (done_reads (lr_clock m))) 1 <> 0
            /\ result = Some r0
            /\ lr_start_writes m' = lr_start_writes m ++ [1]
            /\ forall i : nat, (i <= Z.to_nat (timeout_ms c))%nat ->
                 Z.land (logistic_done (done_reads (lr_clock m) + 1 + i)) 1 = 0)))
  /\ (forall (fuel : nat) (result : option Z),
        logistic_inference fuel None (Some data) (Some weights) bias result m
        = Some (LOGISTIC_ERROR_INVALID_PARAM, result, m)
        /\ logistic_inference fuel
             (Some {| initialized := false; timeout_ms := timeout_ms c |})
             (Some data) (Some weights) bias result m
           = Some (LOGISTIC_ERROR_INVALID_PARAM, result, m)
        /\ logistic_inference fuel (Some c) None (Some weights) bias result m
           = Some (LOGISTIC_ERROR_INVALID_PARAM, result, m)
        /\ logistic_inference fuel (Some c) (Some data) None bias result m
           = Some (LOGISTIC_ERROR_INVALID_PARAM, result, m)
        /\ logistic_inference fuel (Some c) (Some data) (Some weights) bias None m
           = Some (LOGISTIC_ERROR_INVALID_PARAM, None, m)).
Proof.
  intros Hsize Hinit HT.
  assert (Hctx : ctx_unusable (Some c) = false).
  { unfold ctx_unusable. rewrite Hinit. reflexivity. }
  split.
  2: { intros fuel result. unfold logistic_inference. rewrite Hctx.
       cbn [ctx_unusable initialized negb]. repeat split. }
  unfold logistic_inference.
  rewrite Hctx.
  unfold logistic_set_input_data, logistic_ctx_set_weights, logistic_set_bias.
  rewrite Hctx.
  destruct (write_input_data_array_ok data m Hsize) as [r1 [Hrun1 Hr1]].
  rewrite Hrun1.
  destruct (write_weights_array_ok weights (set_lr_input_data m r1) Hsize)
    as [r2 [Hrun2 Hr2]].
  rewrite Hrun2.
  unfold logistic_start_inference. rewrite Hctx.
  unfold logistic_is_done at 1. rewrite Hinit.
  cbn [negb set_lr_bias set_lr_weights set_lr_input_data lr_clock lr_input_data lr_weights
       lr_bias lr_start_writes].
  assert (Hbanks : forall j : nat, (j < LOGISTIC_INPUT_SIZE)%nat ->
                     r1 j = nth j data 0 /\ r2 j = nth j weights 0).
  { intros j Hj. rewrite Hr1, Hr2. rewrite (proj2 (Nat.ltb_lt _ _) Hj). split; reflexivity. }
  destruct (Z.eqb_spec (Z.land (logistic_done (done_reads (lr_clock m))) 1) 0)
    as [Hbit | Hbit]; cbn [negb].
  - eexists. eexists. eexists. split; [ reflexivity | ].
    cbn [set_lr_clock lr_input_data lr_weights lr_bias lr_start_writes lr_clock done_reads].
    split; [ exact Hbanks | ]. split; [ reflexivity | ].
    left. repeat split. exact Hbit.
  - cbn [logistic_start_write set_lr_clock lr_clock lr_input_data lr_weights lr_bias
         lr_start_writes].
    destruct (logistic_wait_done_runs c
                {| system_time_ms := system_time_ms (lr_clock m);
                   done_reads := S (done_reads (lr_clock m)) |} Hinit HT)
      as [status [s5 [Hrun Hout]]].
    rewrite Hrun.
    destruct Hout as [[Hs [k [Hk [Hr [Hset _]]]]] | [Hs [Hr Hclear]]]; subst status.
    + unfold logistic_ctx_get_result. rewrite Hctx.
      eexists. eexists. eexists. split; [ reflexivity | ].
      cbn [set_lr_clock lr_input_data lr_weights lr_bias lr_start_writes lr_clock].
      split; [ exact Hbanks | ]. split; [ reflexivity | ].
      right. left. split; [ reflexivity | ]. split; [ exact Hbit | ].
      split; [ reflexivity | ]. split; [ reflexivity | ].
      exists k. cbn [done_reads] in Hr, Hset.
      split; [ exact Hk | ]. split; [ lia | ].
      replace (done_reads (lr_clock m) + 1 + k)%nat with (S (done_reads (lr_clock m)) + k)%nat
        by lia.
      exact Hset.
    + eexists. eexists. eexists. split; [ reflexivity | ].
      cbn [set_lr_clock lr_input_data lr_weights lr_bias lr_start_writes lr_clock].
      split; [ exact Hbanks | ]. split; [ reflexivity | ].
      right. right. split; [ reflexivity | ]. split; [ exact Hbit | ].
      split; [ reflexivity | ]. split; [ reflexivity | ].
      intros i Hi. cbn [done_reads] in Hclear.
      replace (done_reads (lr_clock m) + 1 + i)%nat with (S (done_reads (lr_clock m)) + i)%nat
        by lia.
      apply Hclear. exact Hi.
Qed.

(** ** The handshake of [inference_accel_compute_fixed] *)

Lemma wait_ready_sound :
  forall fuel polls n,
    wait_ready_loop fuel polls = Some n ->
    (polls < n)%nat
    /\ inference_accel_is_ready (n - 1) = true
    /\ forall j, (polls <= j < n - 1)%nat -> inference_accel_is_ready j = false.
Proof.
  induction fuel as [ | fuel IH ]; intros polls n H; [ discriminate | ].
  simpl in H. destruct (inference_accel_is_ready polls) eqn:Hd.
  - injection H as <-. replace (S polls - 1)%nat with polls by lia.
    repeat split; [ lia | exact Hd | intros j Hj; lia ].
  - destruct (IH (S polls) n H) as [Hlt [Hdone Hbefore]].
    repeat split; [ lia | exact Hdone | ].
    intros j Hj. destruct (Nat.eq_dec j polls) as [-> | Hne]; [ exact Hd | ].
    apply Hbefore. lia.
Qed.

Lemma wait_ready_first (r : nat) :
  inference_accel_is_ready r = true ->
  forall fuel polls,
    (polls <= r)%nat -> (r - polls < fuel)%nat ->
    (forall i, (polls <= i < r)%nat -> inference_accel_is_ready i = false) ->
    wait_ready_loop fuel polls = Some (S r).
Proof.
  intros Hr. induction fuel as [ | fuel IH ]; intros polls Hle Hfuel Hbefore; [ lia | ].
  simpl. destruct (Nat.eq_dec polls r) as [-> | Hne].
  - rewrite Hr. reflexivity.
  - rewrite (Hbefore polls) by lia. apply IH; [ lia | lia | ].
    intros i Hi. apply Hbefore. lia.
Qed.

Lemma wait_done_first (q : nat) :
  inference_accel_is_done q = true ->
  forall fuel polls,
    (polls <= q)%nat -> (q - polls < fuel)%nat ->
    (forall i, (polls <= i < q)%nat -> inference_accel_is_done i = false) ->
    inference_accel_wait_done fuel polls = Some (S q).
Proof.
  intros Hq. induction fuel as [ | fuel IH ]; intros polls Hle Hfuel Hbefore; [ lia | ].
  simpl. destruct (Nat.eq_dec polls q) as [-> | Hne].
  - rewrite Hq. reflexivity.
  - rewrite (Hbefore polls) by lia. apply IH; [ lia | lia | ].
    intros i Hi. apply Hbefore. lia.
Qed.

Lemma wait_ready_spins :
  (forall k, inference_accel_is_ready k = false) ->
  forall fuel polls, wait_ready_loop fuel polls = None.
Proof.
  intros Hnever. induction fuel as [ | fuel IH ]; intros polls.
  - reflexivity.
  - simpl. rewrite Hnever. apply IH.
Qed.

(** X13.  [inference_accel_compute_fixed] returns exactly when some status
    read [r] shows READY and a later read [q] shows DONE: with [r] and [q] the
    first such reads it has then read the status [q + 1] times, and it has
    written the input, then 1 and then 0 to the control register, and nothing
    else: the reset bit is never written.  A DONE bit shown together with
    READY is not looked at.  On a unit that never shows READY it does not
    return and writes nothing. *)
Theorem compute_fixed_handshake (input_fixed : Z) (s : ia_state) :
  (forall r q : nat,
      (ia_polls s <= r < q)%nat ->
      inference_accel_is_ready r = true ->
      (forall i, (ia_polls s <= i < r)%nat -> inference_accel_is_ready i = false) ->
      inference_accel_is_done q = true ->
      (forall i, (r < i < q)%nat -> inference_accel_is_done i = false) ->
      exists s' : ia_state,
        inference_accel_compute_fixed (S q) input_fixed s
        = Some (to_int32 (to_uint32 (inference_accel_result s')), s')
        /\ ia_polls s' = S q
        /\ ia_writes s'
           = ia_writes s ++ [IA_INPUT_DATA (to_uint32 input_fixed); IA_CONTROL 1; IA_CONTROL 0])
  /\ (forall (fuel : nat) (v : Z) (s' : ia_state),
        inference_accel_compute_fixed fuel input_fixed s = Some (v, s') ->
        exists r q : nat,
          (ia_polls s <= r < q)%nat
          /\ inference_accel_is_ready r = true
          /\ inference_accel_is_done q = true
          /\ (forall i, (r < i < q)%nat -> inference_accel_is_done i = false)
          /\ ia_polls s' = S q
          /\ ia_writes s'
             = ia_writes s
               ++ [IA_INPUT_DATA (to_uint32 input_fixed); IA_CONTROL 1; IA_CONTROL 0]
          /\ v = inference_accel_get_result_fixed s')
  /\ ((forall k, inference_accel_is_ready k = false) ->
      forall fuel : nat, inference_accel_compute_fixed fuel input_fixed s = None).
Proof.
  split; [ | split ].
  - intros r q Hrq Hr Hnr Hq Hnq.
    unfold inference_accel_compute_fixed.
    rewrite (wait_ready_first r Hr (S q) (ia_polls s)) by (lia || exact Hnr).
    cbn [ia_csr_write ia_polls ia_writes].
    rewrite (wait_done_first q Hq (S q) (S r))
      by (lia || (intros i Hi; apply Hnq; lia)).
    eexists. split; [ reflexivity | ]. cbn [ia_polls ia_writes].
    split; [ reflexivity | ].
    rewrite <- !app_assoc. reflexivity.
  - intros fuel v s' H.
    unfold inference_accel_compute_fixed in H.
    destruct (wait_ready_loop fuel (ia_polls s)) as [p1 | ] eqn:H1; [ | discriminate ].
    cbn [ia_csr_write ia_polls ia_writes] in H.
    destruct (inference_accel_wait_done fuel p1) as [p2 | ] eqn:H2; [ | discriminate ].
    injection H as <- <-.
    destruct (wait_ready_sound _ _ _ H1) as [Hlt1 [Hready _]].
    destruct (wait_done_sound _ _ _ H2) as [Hlt2 [Hdone Hbefore]].
    exists (p1 - 1)%nat, (p2 - 1)%nat.
    split; [ lia | ]. split; [ exact Hready | ]. split; [ exact Hdone | ].
    split; [ intros i Hi; apply Hbefore; lia | ].
    cbn [ia_polls ia_writes]. split; [ lia | ].
    split; [ rewrite <- !app_assoc; reflexivity | reflexivity ].
  - intros Hnever fuel. unfold inference_accel_compute_fixed.
    rewrite wait_ready_spins by exact Hnever. reflexivity.
Qed.

(** X14.  [inference_accel_get_result_float] decodes the result register as an
    unsigned number: it agrees with [FIXED_TO_FLOAT] of
    [inference_accel_get_result_fixed] when that is not negative, lies 65536
    above it when it is, and is never negative itself. *)
Theorem result_float_is_unsigned (s : ia_state) :
  (0 <= inference_accel_get_result_fixed s ->
   inference_accel_get_result_float s = FIXED_TO_FLOAT (inference_accel_get_result_fixed s))
  /\ (inference_accel_get_result_fixed s < 0 ->
      (inference_accel_get_result_float s
       == FIXED_TO_FLOAT (inference_accel_get_result_fixed s) + 65536)%Q)
  /\ (0 <= inference_accel_get_result_float s)%Q
  /\ (inference_accel_get_result_float s < 65536)%Q.
Proof.
  unfold inference_accel_get_result_float, inference_accel_get_result_fixed,
    inference_accel_result_read.
  set (u := to_uint32 (inference_accel_result s)).
  assert (Hu : 0 <= u < 2 ^ 32).
  { subst u. unfold to_uint32. apply Z.mod_pos_bound. lia. }
  assert (Hcase : (u < 2 ^ 31 /\ to_int32 u = u) \/ (2 ^ 31 <= u /\ to_int32 u = u - 2 ^ 32)).
  { unfold to_int32.
    destruct (Z_lt_le_dec u (2 ^ 31)) as [Hlo | Hhi].
    - left. split; [ exact Hlo | ]. rewrite Z.mod_small by lia. lia.
    - right. split; [ exact Hhi | ].
      replace (u + 2 ^ 31) with (u - 2 ^ 31 + 1 * 2 ^ 32) by lia.
      rewrite Z.mod_add by lia. rewrite Z.mod_small by lia. lia. }
  split; [ | split; [ | split ] ].
  - intros Hpos. destruct Hcase as [[_ ->] | [Hhi Heq]]; [ reflexivity | lia ].
  - intros Hneg. destruct Hcase as [[Hlo Heq] | [_ ->]]; [ lia | ].
    unfold FIXED_TO_FLOAT. unfold Z.sub. rewrite inject_Z_plus, inject_Z_opp.
    change (inject_Z (2 ^ 32)) with (4294967296 # 1)%Q.
    change (inject_Z 65536) with (65536 # 1)%Q. field.
  - unfold FIXED_TO_FLOAT. apply Qle_shift_div_l; [ reflexivity | ].
    rewrite Qmult_0_l. change 0%Q with (inject_Z 0). rewrite <- Zle_Qle. lia.
  - unfold FIXED_TO_FLOAT. apply Qlt_shift_div_r; [ reflexivity | ].
    change (65536 * inject_Z 65536)%Q with (inject_Z (2 ^ 32)).
    rewrite <- Zlt_Qlt. lia.
Qed.

(** ** The stopwatch *)

(** X15.  [stop_stopwatch] after [start_stopwatch] leaves in [elapsed_ticks]
    the number of ticks [t < 2^32] by which the down-counter went down between
    the two reads of its value, also when the counter passed zero and wrapped
    in between.  The timer is loaded while disabled and enabled before the
    first read. *)
Theorem stopwatch_measures_ticks (w : stopwatch) (t : Z) :
  0 <= t < 2 ^ 32 ->
  to_uint32 (timer0_value (S (timer0_reads w)))
  = to_uint32 (timer0_value (timer0_reads w) - t) ->
  get_elapsed_ticks (stop_stopwatch (start_stopwatch w)) = t
  /\ timer0_reads (stop_stopwatch (start_stopwatch w)) = S (S (timer0_reads w))
  /\ timer0_writes (start_stopwatch w)
     = timer0_writes w
       ++ [TIMER0_EN 0; TIMER0_RELOAD (2 ^ 32 - 1); TIMER0_LOAD (2 ^ 32 - 1); TIMER0_EN 1;
           TIMER0_UPDATE_VALUE 1].
Proof.
  intros Ht Hdown.
  unfold get_elapsed_ticks, stop_stopwatch, start_stopwatch, timer0_value_read, timer0_write.
  cbn [start_ticks elapsed_ticks timer0_writes timer0_reads].
  split; [ | split; [ reflexivity | rewrite <- !app_assoc; reflexivity ] ].
  rewrite Hdown. unfold to_uint32.
  rewrite Zminus_mod_idemp_l, Zminus_mod_idemp_r.
  replace (timer0_value (timer0_reads w) - (timer0_value (timer0_reads w) - t)) with t by lia.
  apply Z.mod_small. lia.
Qed.

(** X16.  For a clock of at least 1 MHz, [print_elapsed_time] prints fields
    that recompose to the number of milliseconds it prints: minutes * 60000 +
    seconds * 1000 + milliseconds, with seconds below 60 and milliseconds
    below 1000; that number is [ticks / MHz / 1000], and the minutes never
    exceed 71, so that two digits hold them.  Below 1 MHz the function divides
    by zero. *)
Theorem elapsed_time_fields (ticks : Z) :
  0 <= ticks < 2 ^ 32 ->
  0 <= CONFIG_CLOCK_FREQUENCY < 2 ^ 31 ->
  (1000000 <= CONFIG_CLOCK_FREQUENCY ->
   exists r : elapsed_report,
     print_elapsed_time ticks = Some r
     /\ rep_milliseconds r
        = rep_minutes r * 60000 + rep_rem_seconds r * 1000 + rep_rem_milliseconds r
     /\ 0 <= rep_rem_seconds r < 60
     /\ 0 <= rep_rem_milliseconds r < 1000
     /\ 0 <= rep_minutes r <= 71
     /\ rep_MHz r = CONFIG_CLOCK_FREQUENCY / 1000000
     /\ rep_milliseconds r = ticks / (rep_MHz r * 1000)
     /\ rep_milliseconds r * (rep_MHz r * 1000) <= ticks
        < (rep_milliseconds r + 1) * (rep_MHz r * 1000))
  /\ (CONFIG_CLOCK_FREQUENCY < 1000000 -> print_elapsed_time ticks = None).
Proof.
  intros Hticks Hclock.
  assert (Hq : Z.quot CONFIG_CLOCK_FREQUENCY 1000000 = CONFIG_CLOCK_FREQUENCY / 1000000).
  { apply Z.quot_div_nonneg; lia. }
  unfold print_elapsed_time. rewrite Hq.
  split.
  - intros Hmhz.
    set (M := CONFIG_CLOCK_FREQUENCY / 1000000).
    assert (HM : 1 <= M < 2 ^ 31).
    { subst M. split.
      - apply Z.div_le_lower_bound; lia.
      - apply Z.div_lt_upper_bound; lia. }
    assert (HMu : to_uint32 M = M) by (unfold to_uint32; apply Z.mod_small; lia).
    rewrite HMu.
    destruct (Z.eqb_spec M 0) as [H0 | _]; [ lia | ].
    eexists. split; [ reflexivity | ].
    cbn [rep_milliseconds rep_minutes rep_rem_seconds rep_rem_milliseconds rep_MHz].
    set (ms := ticks / M / 1000).
    assert (Hms : 0 <= ms < 4294968).
    { subst ms. split.
      - apply Z.div_pos; [ apply Z.div_pos; lia | lia ].
      - apply Z.div_lt_upper_bound; [ lia | ].
        apply Z.le_lt_trans with ticks; [ | lia ].
        apply Z.div_le_upper_bound; nia. }
    assert (Hsec : 0 <= ms / 1000 < 4295).
    { split; [ apply Z.div_pos; lia | apply Z.div_lt_upper_bound; lia ]. }
    assert (Hmin : 0 <= ms / 1000 / 60 <= 71).
    { split; [ apply Z.div_pos; lia | ].
      assert (ms / 1000 / 60 < 72) by (apply Z.div_lt_upper_bound; lia). lia. }
    pose proof (Z.mod_pos_bound (ms / 1000) 60 ltac:(lia)) as Hrs.
    pose proof (Z.mod_pos_bound ms 1000 ltac:(lia)) as Hrm.
    rewrite !to_int32_id by (unfold in_int32; lia).
    split.
    { pose proof (Z.div_mod ms 1000 ltac:(lia)).
      pose proof (Z.div_mod (ms / 1000) 60 ltac:(lia)). lia. }
    split; [ exact Hrs | ]. split; [ exact Hrm | ]. split; [ exact Hmin | ].
    split; [ reflexivity | ].
    assert (Hdd : ms = ticks / (M * 1000)).
    { subst ms. apply Z.div_div; lia. }
    split; [ exact Hdd | ].
    rewrite Hdd.
    pose proof (Z.div_mod ticks (M * 1000) ltac:(lia)).
    pose proof (Z.mod_pos_bound ticks (M * 1000) ltac:(lia)). lia.
  - intros Hlow.
    rewrite Z.div_small by lia. reflexivity.
Qed.

(** ** The console *)

Lemma firstn_array_set {A : Type} (a : list A) (k : nat) (v : A) :
  (k < length a)%nat ->
  firstn k (array_set a k v) = firstn k a
  /\ firstn (S k) (array_set a k v) = firstn k a ++ [v].
Proof.
  revert k. induction a as [ | h t IH ]; intros k Hk; [ simpl in Hk; lia | ].
  destruct k as [ | k ]; [ split; reflexivity | ].
  simpl in Hk. destruct (IH k ltac:(lia)) as [H1 H2].
  split.
  - cbn [array_set firstn]. rewrite H1. reflexivity.
  - cbn [array_set]. cbn [firstn] in *. rewrite H2. reflexivity.
Qed.

Lemma c_string_array_set (s : list Z) (k : nat) :
  (k < length s)%nat ->
  Forall (fun c => c <> 0) (firstn k s) ->
  c_string (array_set s k 0) = firstn k s.
Proof.
  revert k. induction s as [ | h t IH ]; intros k Hk Hnz; [ simpl in Hk; lia | ].
  destruct k as [ | k ]; [ reflexivity | ].
  cbn [array_set c_string firstn] in *.
  inversion Hnz as [ | ? ? Hh Ht ]; subst.
  destruct (Z.eqb_spec h 0) as [E | _]; [ contradiction | ].
  rewrite IH; [ reflexivity | simpl in Hk; lia | exact Ht ].
Qed.

Lemma firstn_firstn_app {A : Type} (n : nat) (a b : list A) :
  firstn n (firstn n a ++ b) = firstn n (a ++ b).
Proof.
  rewrite !firstn_app, firstn_firstn, Nat.min_id, length_firstn.
  destruct (Nat.le_gt_cases (length a) n) as [Hle | Hgt].
  - rewrite Nat.min_r by lia. reflexivity.
  - rewrite Nat.min_l by lia.
    replace (n - n)%nat with 0%nat by lia. replace (n - length a)%nat with 0%nat by lia.
    reflexivity.
Qed.

Lemma readstr_plain (c : Z) (st : console) :
  plain_char c ->
  readstr (Some c) st
  = if to_uint32 (line_ptr st) >=? 64 - 1 then (None, st)
    else (None, {| line_s := array_set (line_s st) (Z.to_nat (line_ptr st)) c;
                   line_ptr := to_int32 (line_ptr st + 1);
                   console_out := console_out st ++ [c] |}).
Proof.
  intros [H0 [H7 [H8 [H10 [H13 H127]]]]].
  unfold readstr.
  rewrite (proj2 (Z.eqb_neq c 127) H127), (proj2 (Z.eqb_neq c 8) H8),
    (proj2 (Z.eqb_neq c 7) H7), (proj2 (Z.eqb_neq c 13) H13), (proj2 (Z.eqb_neq c 10) H10).
  cbn [orb c_string]. rewrite (proj2 (Z.eqb_neq c 0) H0). reflexivity.
Qed.

Lemma readstr_plain_holds (c : Z) (st : console) (typed : list Z) :
  plain_char c ->
  console_holds st typed ->
  console_holds (snd (readstr (Some c) st)) (firstn 63 (typed ++ [c])).
Proof.
  intros Hc [Hlen [Hptr [Hmax [Hfirst Hnz]]]].
  rewrite (readstr_plain c st Hc).
  assert (Hu : to_uint32 (line_ptr st) = line_ptr st).
  { unfold to_uint32. apply Z.mod_small. lia. }
  rewrite Hu.
  destruct (Z.geb_spec (line_ptr st) (64 - 1)) as [Hfull | Hroom]; cbn [snd].
  - assert (Hl : length typed = 63%nat) by lia.
    assert (Hsame : firstn 63 (typed ++ [c]) = typed).
    { rewrite firstn_app, Hl, Nat.sub_diag. change (firstn 0 [c]) with (@nil Z).
      rewrite app_nil_r. rewrite <- Hl. apply firstn_all. }
    rewrite Hsame. repeat split; assumption.
  - assert (Hl : (length typed < 63)%nat) by lia.
    rewrite firstn_all2 by (rewrite length_app; simpl; lia).
    unfold console_holds. cbn [line_s line_ptr].
    rewrite length_array_set, length_app. cbn [length].
    rewrite Hptr, Nat2Z.id.
    split; [ exact Hlen | ].
    split; [ rewrite to_int32_id by (unfold in_int32; lia); lia | ].
    split; [ lia | ].
    split.
    + replace (length typed + 1)%nat with (S (length typed)) by lia.
      destruct (firstn_array_set (line_s st) (length typed) c ltac:(lia)) as [_ H2].
      rewrite H2, Hfirst. reflexivity.
    + apply Forall_app. split; [ exact Hnz | ].
      constructor; [ apply Hc | constructor ].
Qed.

Lemma readstr_all_holds (cs : list Z) :
  Forall plain_char cs ->
  forall (st : console) (typed : list Z),
    console_holds st typed ->
    console_holds (readstr_all cs st) (firstn 63 (typed ++ cs)).
Proof.
  induction 1 as [ | c cs Hc Hcs IH ]; intros st typed Hst.
  - rewrite app_nil_r. cbn [readstr_all fold_left].
    destruct Hst as [Hlen [Hptr [Hmax [Hfirst Hnz]]]].
    rewrite firstn_all2 by lia. repeat split; assumption.
  - unfold readstr_all. cbn [fold_left]. fold (readstr_all cs (snd (readstr (Some c) st))).
    pose proof (IH _ _ (readstr_plain_holds c st typed Hc Hst)) as Hnext.
    rewrite firstn_firstn_app in Hnext.
    rewrite <- app_assoc in Hnext. exact Hnext.
Qed.

Lemma readstr_newline (c : Z) (st : console) (typed : list Z) :
  c = 10 \/ c = 13 ->
  console_holds st typed ->
  readstr (Some c) st
  = (Some typed,
     {| line_s := array_set (line_s st) (length typed) 0; line_ptr := 0;
        console_out := console_out st ++ [10] |}).
Proof.
  intros Hc [Hlen [Hptr [Hmax [Hfirst Hnz]]]].
  unfold readstr.
  replace ((c =? 127) || (c =? 8)) with false by (destruct Hc; subst; reflexivity).
  replace (c =? 7) with false by (destruct Hc; subst; reflexivity).
  replace ((c =? 13) || (c =? 10)) with true by (destruct Hc; subst; reflexivity).
  rewrite Hptr, Nat2Z.id.
  rewrite c_string_array_set; [ | lia | rewrite Hfirst; exact Hnz ].
  rewrite Hfirst. reflexivity.
Qed.

Lemma readstr_backspace_holds (c : Z) (st : console) (typed : list Z) :
  c = 127 \/ c = 8 ->
  console_holds st typed ->
  console_holds (snd (readstr (Some c) st)) (removelast typed).
Proof.
  intros Hc [Hlen [Hptr [Hmax [Hfirst Hnz]]]].
  unfold readstr.
  replace ((c =? 127) || (c =? 8)) with true by (destruct Hc; subst; reflexivity).
  destruct (Z.gtb_spec (line_ptr st) 0) as [Hpos | Hzero]; cbn [snd].
  - destruct (exists_last (l := typed)) as [t [h ->]];
      [ intros ->; simpl in Hptr; lia | ].
    rewrite removelast_last.
    rewrite length_app in *. cbn [length] in *.
    unfold console_holds. cbn [line_s line_ptr].
    split; [ exact Hlen | ].
    split; [ rewrite to_int32_id by (unfold in_int32; lia); lia | ].
    split; [ lia | ].
    split.
    + rewrite <- (removelast_last t h) at 2. rewrite <- Hfirst.
      replace (length t + 1)%nat with (S (length t)) by lia.
      symmetry. apply removelast_firstn. lia.
    + apply Forall_app in Hnz. apply Hnz.
  - assert (Hl : length typed = 0%nat) by lia.
    destruct typed; [ | discriminate ].
    repeat split; assumption.
Qed.

Lemma console_ok_holds (st : console) :
  console_ok st -> line_ptr st = 0 -> console_holds st [].
Proof.
  intros [Hlen _] Hptr. repeat split; [ exact Hlen | exact Hptr | cbn; lia | constructor ].
Qed.

(** X17.  [readstr] keeps [ptr] inside its 64-character buffer whatever is
    typed.  From an empty line, typing characters that are neither NUL nor
    control characters returns [NULL] each time, and the line feed or carriage
    return that follows returns the first 63 of them and empties the line; a
    delete or backspace typed before it removes the last of them. *)
Theorem readstr_returns_typed_line (cs : list Z) (st : console) :
  console_ok st ->
  line_ptr st = 0 ->
  Forall plain_char cs ->
  fst (readstr (Some 10) (readstr_all cs st)) = Some (firstn 63 cs)
  /\ fst (readstr (Some 13) (readstr_all cs st)) = Some (firstn 63 cs)
  /\ line_ptr (snd (readstr (Some 10) (readstr_all cs st))) = 0
  /\ fst (readstr (Some 10) (snd (readstr (Some 127) (readstr_all cs st))))
     = Some (removelast (firstn 63 cs))
  /\ fst (readstr (Some 10) (snd (readstr (Some 8) (readstr_all cs st))))
     = Some (removelast (firstn 63 cs))
  /\ (forall (c : Z) (st0 : console), plain_char c -> fst (readstr (Some c) st0) = None)
  /\ (forall (input : option Z) (st0 : console),
        console_ok st0 -> console_ok (snd (readstr input st0))).
Proof.
  intros Hok Hptr Hcs.
  pose proof (readstr_all_holds cs Hcs st [] (console_ok_holds st Hok Hptr)) as Hline.
  cbn [app] in Hline.
  split; [ | split; [ | split; [ | split; [ | split; [ | split ] ] ] ] ].
  - rewrite (readstr_newline 10 _ _ (or_introl eq_refl) Hline). reflexivity.
  - rewrite (readstr_newline 13 _ _ (or_intror eq_refl) Hline). reflexivity.
  - rewrite (readstr_newline 10 _ _ (or_introl eq_refl) Hline). reflexivity.
  - rewrite (readstr_newline 10 _ _ (or_introl eq_refl)
               (readstr_backspace_holds 127 _ _ (or_introl eq_refl) Hline)).
    reflexivity.
  - rewrite (readstr_newline 10 _ _ (or_introl eq_refl)
               (readstr_backspace_holds 8 _ _ (or_intror eq_refl) Hline)).
    reflexivity.
  - intros c st0 Hc. rewrite (readstr_plain c st0 Hc).
    destruct (to_uint32 (line_ptr st0) >=? 64 - 1); reflexivity.
  - intros input st0 [Hlen Hp]. unfold console_ok, readstr.
    destruct input as [c | ]; [ | split; assumption ].
    assert (Hu : to_uint32 (line_ptr st0) = line_ptr st0).
    { unfold to_uint32. apply Z.mod_small. lia. }
    destruct ((c =? 127) || (c =? 8)).
    { destruct (Z.gtb_spec (line_ptr st0) 0); cbn [snd line_s line_ptr];
        [ rewrite to_int32_id by (unfold in_int32; lia) | ]; split; (assumption || lia). }
    destruct (c =? 7); [ split; assumption | ].
    destruct ((c =? 13) || (c =? 10)).
    { cbn [snd line_s line_ptr]. rewrite length_array_set. split; [ exact Hlen | lia ]. }
    rewrite Hu.
    destruct (Z.geb_spec (line_ptr st0) (64 - 1)); cbn [snd line_s line_ptr].
    + split; assumption.
    + rewrite length_array_set, to_int32_id by (unfold in_int32; lia).
      split; [ exact Hlen | lia ].
Qed.

Lemma strchr_some (c : Z) (s : list Z) :
  forall k : nat,
    strchr s c = Some k ->
    s = firstn k s ++ c :: skipn (S k) s /\ ~ In c (firstn k s).
Proof.
  induction s as [ | h t IH ]; intros k H; [ discriminate | ].
  cbn [strchr] in H. destruct (Z.eqb_spec h c) as [-> | Hne].
  - injection H as <-. split; [ reflexivity | intros [] ].
  - destruct (strchr t c) as [j | ] eqn:Ht; [ | discriminate ].
    injection H as <-. destruct (IH j eq_refl) as [Hsplit Hnot].
    cbn [firstn skipn]. split.
    + cbn [app]. f_equal. exact Hsplit.
    + intros [E | Hin]; [ contradiction | exact (Hnot Hin) ].
Qed.

Lemma strchr_none (c : Z) (s : list Z) : strchr s c = None <-> ~ In c s.
Proof.
  induction s as [ | h t IH ]; [ split; [ intros _ [] | reflexivity ] | ].
  cbn [strchr]. destruct (Z.eqb_spec h c) as [-> | Hne].
  - split; [ discriminate | intros H; exfalso; apply H; left; reflexivity ].
  - destruct (strchr t c) as [j | ] eqn:Ht.
    + split; [ discriminate | ].
      intros H. exfalso. destruct IH as [_ IH]. 
      assert (Hn : ~ In c t) by (intros Hin; apply H; right; exact Hin).
      specialize (IH Hn). discriminate.
    + split; [ | reflexivity ].
      intros _ [E | Hin]; [ contradiction | ]. destruct IH as [IH _]. exact (IH eq_refl Hin).
Qed.

Lemma strchr_app (c : Z) (t r : list Z) :
  ~ In c t -> strchr (t ++ c :: r) c = Some (length t).
Proof.
  induction t as [ | h t IH ]; intros Hnot.
  - cbn [app strchr length]. rewrite Z.eqb_refl. reflexivity.
  - cbn [app strchr length].
    destruct (Z.eqb_spec h c) as [-> | Hne]; [ exfalso; apply Hnot; left; reflexivity | ].
    rewrite IH by (intros Hin; apply Hnot; right; exact Hin). reflexivity.
Qed.

(** X18.  [get_token] cuts its string at the first space: the token has no
    space, and the token, a space and the rest make up the string again; a
    string without a space is the token, with nothing left.  It undoes the
    joining of a space-free token and a rest, and what it leaves is shorter
    than a non-empty string it was given, so that taking tokens ends. *)
Theorem get_token_splits (str : list Z) :
  ~ In 32 (fst (get_token str))
  /\ (In 32 str -> str = fst (get_token str) ++ 32 :: snd (get_token str))
  /\ (~ In 32 str -> get_token str = (str, []))
  /\ (forall t r : list Z, ~ In 32 t -> get_token (t ++ 32 :: r) = (t, r))
  /\ (str <> [] -> (length (snd (get_token str)) < length str)%nat).
Proof.
  unfold get_token.
  split; [ | split; [ | split; [ | split ] ] ].
  - destruct (strchr str 32) as [k | ] eqn:Hk; cbn [fst].
    + apply (strchr_some 32 str k Hk).
    + apply strchr_none. exact Hk.
  - intros Hin. destruct (strchr str 32) as [k | ] eqn:Hk; cbn [fst snd].
    + apply (strchr_some 32 str k Hk).
    + exfalso. apply (proj1 (strchr_none 32 str) Hk). exact Hin.
  - intros Hnot. rewrite (proj2 (strchr_none 32 str) Hnot). reflexivity.
  - intros t r Hnot. rewrite (strchr_app 32 t r Hnot).
    rewrite firstn_app, firstn_all, Nat.sub_diag. cbn [firstn]. rewrite app_nil_r.
    replace (S (length t)) with (length t + 1)%nat by lia.
    rewrite skipn_app, skipn_all2 by lia.
    replace (length t + 1 - length t)%nat with 1%nat by lia. reflexivity.
  - intros Hne. destruct (strchr str 32) as [k | ] eqn:Hk; cbn [snd].
    + destruct (strchr_some 32 str k Hk) as [Hsplit _].
      rewrite Hsplit at 2. rewrite length_app. cbn [length]. lia.
    + destruct str; [ contradiction | simpl; lia ].
Qed.

(** ** The two builds of [dot_product_accel_dot_product] on Q16.16 data *)

Lemma sum_upto_abs (n : nat) (f : nat -> Z) :
  Z.abs (sum_upto n f) <= sum_upto n (fun i => Z.abs (f i)).
Proof.
  induction n as [ | n IH ].
  - unfold sum_upto. simpl. lia.
  - rewrite !sum_upto_S. lia.
Qed.

Lemma Forall_nth_int32 (a : list Z) (i : nat) : Forall in_int32 a -> in_int32 (nth i a 0).
Proof.
  intros Ha. destruct (Nat.lt_ge_cases i (length a)) as [Hlt | Hge].
  - apply (proj1 (Forall_forall in_int32 a) Ha). apply nth_In. exact Hlt.
  - rewrite nth_overflow by exact Hge. unfold in_int32. lia.
Qed.

(** One chunk of Q16.16 data, in either build: the sum of the products of the
    raw values, each divided by 2^16 toward zero. *)
Lemma chunk_value_q16 (available : bool) (a b : list Z) (cs : nat) :
  (forall xs ws : list Z,
      length xs = DOT_PRODUCT_ACCEL_INPUT_SIZE ->
      length ws = DOT_PRODUCT_ACCEL_INPUT_SIZE ->
      to_int32 (dot_product_accel_unit xs ws) = to_int32 (q16_mac_lanes xs ws)) ->
  (cs <= DOT_PRODUCT_ACCEL_INPUT_SIZE)%nat ->
  (cs <= length a)%nat -> (cs <= length b)%nat ->
  Forall in_int32 a -> Forall in_int32 b ->
  (forall i : nat, (i < cs)%nat -> Z.abs (nth i a 0 * nth i b 0) < 2 ^ 47) ->
  chunk_value available (map q16 a) (map q16 b) cs
  = to_int32 (sum_upto cs (fun i => Z.quot (nth i a 0 * nth i b 0) (2 ^ 16))).
Proof.
  intros Hunit Hcs Hla Hlb Ha Hb Hprod.
  destruct available.
  - rewrite chunk_value_hw by exact Hcs.
    rewrite Hunit by (rewrite length_map, length_seq; reflexivity).
    rewrite q16_mac_lanes_seq. f_equal.
    rewrite <- (sum_upto_padded cs DOT_PRODUCT_ACCEL_INPUT_SIZE) by exact Hcs.
    apply sum_upto_ext. intros i _.
    destruct (Nat.ltb_spec i cs) as [Hi | Hi]; [ | reflexivity ].
    rewrite !nth_map_q16 by lia. rewrite !double_to_fixed_q16.
    rewrite !to_uint32_to_int32.
    rewrite !to_int32_id by (rewrite ?to_int32_id; apply Forall_nth_int32; assumption).
    reflexivity.
  - rewrite chunk_value_sw. f_equal.
    apply sum_upto_ext. intros i Hi.
    rewrite !nth_map_q16 by lia. rewrite double_to_fixed_q16_mul.
    apply to_int32_id. apply quot_in_int32. apply Hprod. exact Hi.
Qed.

Lemma Forall_skipn_int32 (n : nat) (a : list Z) :
  Forall in_int32 a -> Forall in_int32 (skipn n a).
Proof.
  revert a. induction n as [ | n IH ]; intros a Ha; [ exact Ha | ].
  destruct a as [ | h t ]; [ constructor | ].
  cbn [skipn]. apply IH. inversion Ha; assumption.
Qed.

(** The chunks of Q16.16 data add up to the sum over the whole vectors when
    no partial sum leaves the 32-bit range. *)
Lemma dp_chunk_values_q16 (available : bool) (a b : list Z) (size : nat) :
  (0 < DOT_PRODUCT_ACCEL_INPUT_SIZE)%nat ->
  (forall xs ws : list Z,
      length xs = DOT_PRODUCT_ACCEL_INPUT_SIZE ->
      length ws = DOT_PRODUCT_ACCEL_INPUT_SIZE ->
      to_int32 (dot_product_accel_unit xs ws) = to_int32 (q16_mac_lanes xs ws)) ->
  length a = size -> length b = size ->
  Forall in_int32 a -> Forall in_int32 b ->
  sum_upto size (fun i => Z.abs (Z.quot (nth i a 0 * nth i b 0) (2 ^ 16))) < 2 ^ 31 ->
  sum_upto (ceil_div size DOT_PRODUCT_ACCEL_INPUT_SIZE)
    (dp_chunk_value available (map q16 a) (map q16 b) size)
  = sum_upto size (fun i => Z.quot (nth i a 0 * nth i b 0) (2 ^ 16)).
Proof.
  intros Hn Hunit Hla Hlb Ha Hb Hsum.
  set (N := DOT_PRODUCT_ACCEL_INPUT_SIZE) in *.
  set (T := fun i : nat => Z.quot (nth i a 0 * nth i b 0) (2 ^ 16)).
  change (sum_upto size (fun i => Z.abs (T i)) < 2 ^ 31) in Hsum.
  set (G := fun i : nat => if Nat.ltb i size then T i else 0).
  set (m := ceil_div size N).
  assert (Hcover : (size <= m * N)%nat) by (apply ceil_div_covers; [ exact Hn | lia ]).
  assert (Hterm : forall i : nat, (i < size)%nat -> Z.abs (T i) < 2 ^ 31).
  { intros i Hi.
    pose proof (sum_upto_term_le size i (fun i => Z.abs (T i))
                  ltac:(intros; apply Z.abs_nonneg) Hi) as Hle.
    cbv beta in Hle. lia. }
  assert (Hprod : forall i : nat, (i < size)%nat -> Z.abs (nth i a 0 * nth i b 0) < 2 ^ 47).
  { intros i Hi. specialize (Hterm i Hi). subst T. cbv beta in Hterm.
    set (p := nth i a 0 * nth i b 0) in *.
    pose proof (Z.quot_rem' p (2 ^ 16)) as Hqr.
    pose proof (Z.rem_bound_abs p (2 ^ 16) ltac:(lia)) as Hr.
    lia. }
  assert (HabsG : sum_upto (m * N) (fun i => Z.abs (G i)) < 2 ^ 31).
  { rewrite (sum_upto_ext (m * N) _ (fun i => if Nat.ltb i size then Z.abs (T i) else 0)).
    - rewrite sum_upto_padded by exact Hcover. exact Hsum.
    - intros i _. subst G. cbv beta. destruct (Nat.ltb i size); reflexivity. }
  assert (Hchunk : forall k : nat, (k < m)%nat ->
            dp_chunk_value available (map q16 a) (map q16 b) size k
            = sum_upto N (fun j => G (k * N + j)%nat)).
  { intros k Hk. unfold dp_chunk_value. fold N.
    assert (HkN : (k * N < size)%nat).
    { pose proof (ceil_div_split size N Hn) as Hsplit. fold m in Hsplit.
      pose proof (Nat.div_mod_eq size N) as Hdm.
      destruct (Nat.eqb_spec (size mod N) 0) as [H0 | H0]; nia. }
    rewrite !skipn_map.
    rewrite (chunk_value_q16 available (skipn (k * N) a) (skipn (k * N) b)
               (Nat.min N (size - k * N)) Hunit).
    - assert (Heq : sum_upto (Nat.min N (size - k * N))
                      (fun i => Z.quot (nth i (skipn (k * N) a) 0 * nth i (skipn (k * N) b) 0)
                                  (2 ^ 16))
                    = sum_upto N (fun j => G (k * N + j)%nat)).
      { rewrite <- (sum_upto_padded (Nat.min N (size - k * N)) N) by apply Nat.le_min_l.
        apply sum_upto_ext. intros j Hj. subst G T. cbv beta.
        rewrite !nth_skipn.
        destruct (Nat.ltb_spec j (Nat.min N (size - k * N))),
          (Nat.ltb_spec (k * N + j) size); try reflexivity; lia. }
      rewrite Heq. apply to_int32_id. unfold in_int32.
      pose proof (sum_upto_abs N (fun j => G (k * N + j)%nat)) as Habs.
      cbv beta in Habs.
      pose proof (sum_upto_term_le m k
                    (fun k => sum_upto N (fun j => Z.abs (G (k * N + j)%nat)))
                    ltac:(intros; apply sum_upto_nonneg; intros; apply Z.abs_nonneg) Hk)
        as Hle.
      cbv beta in Hle.
      rewrite (sum_upto_chunks m N (fun i => Z.abs (G i))) in Hle.
      lia.
    - apply Nat.le_min_l.
    - rewrite length_skipn. lia.
    - rewrite length_skipn. lia.
    - apply Forall_skipn_int32. exact Ha.
    - apply Forall_skipn_int32. exact Hb.
    - intros i Hi. rewrite !nth_skipn. apply Hprod. lia. }
  rewrite (sum_upto_ext m _ (fun k => sum_upto N (fun j => G (k * N + j)%nat)))
    by (intros k Hk; apply Hchunk; exact Hk).
  rewrite (sum_upto_chunks m N G).
  subst G. apply sum_upto_padded. exact Hcover.
Qed.

(** X19.  On vectors of Q16.16 values [a[i] / 2^16] and [b[i] / 2^16],
    [dot_product_accel_dot_product] returns the same number with the
    accelerator (a unit that multiplies and accumulates in Q16.16, truncating
    each product) and with the software fallback: the sum of the products
    [a[i] * b[i] / 2^16], each truncated toward zero, read as Q16.16; this
    holds as long as the magnitudes of the truncated products add up to less
    than 2^31. *)
Theorem dot_product_on_q16 (a b : list Z) (size : nat) (d : accel) :
  (0 < DOT_PRODUCT_ACCEL_INPUT_SIZE)%nat ->
  (forall xs ws : list Z,
      length xs = DOT_PRODUCT_ACCEL_INPUT_SIZE ->
      length ws = DOT_PRODUCT_ACCEL_INPUT_SIZE ->
      to_int32 (dot_product_accel_unit xs ws) = to_int32 (q16_mac_lanes xs ws)) ->
  length a = size -> length b = size ->
  Forall in_int32 a -> Forall in_int32 b ->
  sum_upto size (fun i => Z.abs (Z.quot (nth i a 0 * nth i b 0) (2 ^ 16))) < 2 ^ 31 ->
  exists d1 d2 : accel,
    dot_product_accel_dot_product true size (map q16 a) (map q16 b) d
    = Some (fixed64_to_double
              (sum_upto size (fun i => Z.quot (nth i a 0 * nth i b 0) (2 ^ 16)))
              FIXED_POINT_FRACTIONAL_BITS,
            d1)
    /\ dot_product_accel_dot_product false size (map q16 a) (map q16 b) d
       = Some (fixed64_to_double
                 (sum_upto size (fun i => Z.quot (nth i a 0 * nth i b 0) (2 ^ 16)))
                 FIXED_POINT_FRACTIONAL_BITS,
               d2).
Proof.
  intros Hn Hunit Hla Hlb Ha Hb Hsum.
  pose proof (sum_upto_abs size (fun i => Z.quot (nth i a 0 * nth i b 0) (2 ^ 16))) as Habs.
  cbv beta in Habs.
  destruct (dot_product_some true size (map q16 a) (map q16 b) d Hn) as [d1 [Hrun1 _]].
  destruct (dot_product_some false size (map q16 a) (map q16 b) d Hn) as [d2 [Hrun2 _]].
  rewrite (dp_chunk_values_q16 true a b size Hn Hunit Hla Hlb Ha Hb Hsum) in Hrun1.
  rewrite (dp_chunk_values_q16 false a b size Hn Hunit Hla Hlb Ha Hb Hsum) in Hrun2.
  rewrite to_int64_id in Hrun1, Hrun2 by lia.
  exists d1, d2. split; [ exact Hrun1 | exact Hrun2 ].
Qed.

(** ** Single-precision rounding and [float_to_fixed] *)

Lemma Qpow2_pos (e : Z) : (0 < Qpow2 e)%Q.
Proof. unfold Qpow2. apply Qpower_0_lt. reflexivity. Qed.

Lemma Qpow2_plus (a b : Z) : (Qpow2 (a + b) == Qpow2 a * Qpow2 b)%Q.
Proof. unfold Qpow2. apply Qpower_plus. discriminate. Qed.

Lemma Qpow2_Z (n : Z) : 0 <= n -> (Qpow2 n == inject_Z (2 ^ n))%Q.
Proof. intros Hn. unfold Qpow2. symmetry. apply (Zpower_Qpower 2 n Hn). Qed.

Lemma Qpow2_le (a b : Z) : a <= b -> (Qpow2 a <= Qpow2 b)%Q.
Proof. intros H. unfold Qpow2. apply Qpower_le_compat_l; [ exact H | discriminate ]. Qed.

Lemma Qpow2_lt_inv (a b : Z) : (Qpow2 a < Qpow2 b)%Q -> a < b.
Proof. intros H. apply (Qpower_lt_compat_l_inv (2 # 1)); [ exact H | reflexivity ]. Qed.

(** [2^e * 2^(-e) = 1], with [2^(-e)] an integer when [e <= 0]. *)
Lemma Qpow2_inv (e : Z) : e <= 0 -> (Qpow2 e * inject_Z (2 ^ (- e)) == 1)%Q.
Proof.
  intros He. rewrite <- Qpow2_Z by lia. rewrite <- Qpow2_plus.
  replace (e + - e) with 0 by lia. reflexivity.
Qed.

Lemma Qdiv_cross_lt (n a : Z) (d b : Z) :
  0 < d -> 0 < b -> n * b < a * d ->
  (inject_Z n / inject_Z d < inject_Z a / inject_Z b)%Q.
Proof.
  intros Hd Hb H.
  apply Qlt_shift_div_l; [ apply inject_Z_pos; exact Hb | ].
  setoid_replace (inject_Z n / inject_Z d * inject_Z b)%Q
    with (inject_Z n * inject_Z b / inject_Z d)%Q by (unfold Qdiv; ring).
  apply Qlt_shift_div_r; [ apply inject_Z_pos; exact Hd | ].
  rewrite <- !inject_Z_mult. rewrite <- Zlt_Qlt. exact H.
Qed.

Lemma Qdiv_cross_le (n a : Z) (d b : Z) :
  0 < d -> 0 < b -> a * d <= n * b ->
  (inject_Z a / inject_Z b <= inject_Z n / inject_Z d)%Q.
Proof.
  intros Hd Hb H.
  apply Qle_shift_div_r; [ apply inject_Z_pos; exact Hb | ].
  setoid_replace (inject_Z n / inject_Z d * inject_Z b)%Q
    with (inject_Z n * inject_Z b / inject_Z d)%Q by (unfold Qdiv; ring).
  apply Qle_shift_div_l; [ apply inject_Z_pos; exact Hd | ].
  rewrite <- !inject_Z_mult. rewrite <- Zle_Qle. exact H.
Qed.

Lemma Qabs_frac (q : Q) :
  (Qabs q == inject_Z (Z.abs (Qnum q)) / inject_Z (Zpos (Qden q)))%Q.
Proof.
  destruct q as [n d]. unfold Qabs. cbn [Qnum Qden]. apply Qmake_Qdiv.
Qed.

(** [Qlog2] is the exponent of the binade, whatever fraction stands for [q]. *)
Lemma Qlog2_spec (q : Q) :
  ~ (q == 0)%Q ->
  (Qpow2 (Qlog2 q) <= Qabs q)%Q /\ (Qabs q < Qpow2 (Qlog2 q + 1))%Q.
Proof.
  intros Hq.
  set (n := Z.abs (Qnum q)). set (d := Zpos (Qden q)).
  assert (Hn : 0 < n).
  { subst n. assert (Qnum q <> 0); [ | lia ].
    intros H0. apply Hq. unfold Qeq. rewrite H0. reflexivity. }
  assert (Hd : 0 < d) by (subst d; lia).
  pose proof (Z.log2_spec n Hn) as [Hn1 Hn2].
  pose proof (Z.log2_spec d Hd) as [Hd1 Hd2].
  pose proof (Z.log2_nonneg n) as Ha. pose proof (Z.log2_nonneg d) as Hb.
  rewrite <- Z.add_1_r in Hn2, Hd2.
  assert (Hpa : 0 < 2 ^ Z.log2 n) by (apply Z.pow_pos_nonneg; lia).
  assert (Hpb : 0 < 2 ^ Z.log2 d) by (apply Z.pow_pos_nonneg; lia).
  assert (Hpa1 : 2 ^ (Z.log2 n + 1) = 2 * 2 ^ Z.log2 n) by (rewrite Z.pow_add_r; lia).
  assert (Hpb1 : 2 ^ (Z.log2 d + 1) = 2 * 2 ^ Z.log2 d) by (rewrite Z.pow_add_r; lia).
  assert (Hup : (Qabs q < Qpow2 (Z.log2 n - Z.log2 d + 1))%Q).
  { rewrite Qabs_frac. fold n d.
    replace (Z.log2 n - Z.log2 d + 1) with ((Z.log2 n + 1) - Z.log2 d) by lia.
    unfold Qpow2 at 1. rewrite Qpower_minus by discriminate.
    fold (Qpow2 (Z.log2 n + 1)). fold (Qpow2 (Z.log2 d)).
    rewrite !Qpow2_Z by lia.
    apply Qdiv_cross_lt; [ exact Hd | exact Hpb | nia ]. }
  assert (Hlo : (Qpow2 (Z.log2 n - Z.log2 d - 1) <= Qabs q)%Q).
  { rewrite Qabs_frac. fold n d.
    replace (Z.log2 n - Z.log2 d - 1) with (Z.log2 n - (Z.log2 d + 1)) by lia.
    unfold Qpow2 at 1. rewrite Qpower_minus by discriminate.
    fold (Qpow2 (Z.log2 n)). fold (Qpow2 (Z.log2 d + 1)).
    rewrite !Qpow2_Z by lia.
    apply Qdiv_cross_le; [ exact Hd | lia | nia ]. }
  unfold Qlog2. fold n d.
  destruct (Qle_bool (Qpow2 (Z.log2 n - Z.log2 d)) (Qabs q)) eqn:Htest.
  - split; [ apply Qle_bool_iff; exact Htest | exact Hup ].
  - split; [ exact Hlo | ].
    replace (Z.log2 n - Z.log2 d - 1 + 1) with (Z.log2 n - Z.log2 d) by lia.
    apply Qnot_le_lt. intros Hc. apply Qle_bool_iff in Hc. congruence.
Qed.

Lemma round_half_even_bounds (s : Q) :
  Qfloor s <= round_half_even s <= Qfloor s + 1.
Proof.
  unfold round_half_even.
  destruct (Qcompare (s - inject_Z (Qfloor s)) (1 # 2)); [ | lia | lia ].
  destruct (Z.even (Qfloor s)); lia.
Qed.

Lemma round_half_even_int (s : Q) (k : Z) : (s == inject_Z k)%Q -> round_half_even s = k.
Proof.
  intros E. unfold round_half_even.
  assert (Hf : Qfloor s = k) by (rewrite (Qfloor_comp _ _ E); apply Qfloor_Z).
  rewrite Hf.
  assert (Hlt : (s - inject_Z k < 1 # 2)%Q) by (rewrite E; ring_simplify; reflexivity).
  destruct (Qcompare (s - inject_Z k) (1 # 2)) eqn:C; [ | reflexivity | ].
  - apply Qeq_alt in C. rewrite C in Hlt. discriminate.
  - apply Qgt_alt in C. exfalso. apply (Qlt_irrefl (1 # 2)).
    apply Qlt_trans with (s - inject_Z k)%Q; assumption.
Qed.

(** Below 2^24 the [float]s are the multiples of a power [2^e] with
    [e <= 0]. *)
Lemma round_float_small (p : Q) :
  (0 < p)%Q -> (p < inject_Z (2 ^ 24))%Q ->
  exists e : Z,
    e <= 0
    /\ round_float p = (inject_Z (round_half_even (p / Qpow2 e)) * Qpow2 e)%Q
    /\ (p / Qpow2 e == p * inject_Z (2 ^ (- e)))%Q.
Proof.
  intros Hpos Hlt.
  assert (Hnz : ~ (p == 0)%Q) by (intros E; rewrite E in Hpos; discriminate).
  destruct (Qlog2_spec p Hnz) as [Hlo _].
  rewrite Qabs_pos in Hlo by (apply Qlt_le_weak; exact Hpos).
  assert (HL : Qlog2 p < 24).
  { apply Qpow2_lt_inv. rewrite (Qpow2_Z 24) by lia.
    apply Qle_lt_trans with p; assumption. }
  exists (Z.max (Qlog2 p - 23) (-149)).
  split; [ lia | ]. split.
  - unfold round_float.
    destruct (Qeq_bool p 0) eqn:E; [ apply Qeq_bool_iff in E; contradiction | reflexivity ].
  - set (e := Z.max (Qlog2 p - 23) (-149)).
    pose proof (Qpow2_inv e ltac:(lia)) as Hinv.
    pose proof (Qpow2_pos e) as Hp.
    apply Qmult_inj_r with (Qpow2 e).
    + intros E. rewrite E in Hp. discriminate.
    + rewrite <- Qmult_assoc, (Qmult_comm (inject_Z _)), Hinv.
      field. intros E. rewrite E in Hp. discriminate.
Qed.

(** A [float] product below 2^24 lies between the integers around the exact
    one: both are [float]s. *)
Lemma round_float_brackets (p : Q) :
  (0 < p)%Q -> (p < inject_Z (2 ^ 24))%Q ->
  (inject_Z (Qfloor p) <= round_float p)%Q /\ (round_float p <= inject_Z (Qfloor p + 1))%Q.
Proof.
  intros Hpos Hlt.
  destruct (round_float_small p Hpos Hlt) as [e [He [Hrf Hs]]].
  set (T := 2 ^ (- e)) in *.
  assert (HT : 0 < T) by (subst T; apply Z.pow_pos_nonneg; lia).
  pose proof (Qpow2_inv e He) as Hinv. fold T in Hinv.
  pose proof (Qpow2_pos e) as Hp.
  pose proof (round_half_even_bounds (p / Qpow2 e)) as [Hb1 Hb2].
  pose proof (Qfloor_le p) as Hfl. pose proof (Qlt_floor p) as Hfu.
  assert (Hlow : Qfloor p * T <= Qfloor (p / Qpow2 e)).
  { rewrite <- (Qfloor_Z (Qfloor p * T)). apply Qfloor_resp_le.
    rewrite Hs, inject_Z_mult.
    apply Qmult_le_compat_r; [ exact Hfl | ].
    apply Qlt_le_weak, inject_Z_pos. exact HT. }
  assert (Hupp : Qfloor (p / Qpow2 e) + 1 <= (Qfloor p + 1) * T).
  { assert (Hs2 : (inject_Z (Qfloor (p / Qpow2 e)) < inject_Z ((Qfloor p + 1) * T))%Q).
    { apply Qle_lt_trans with (p / Qpow2 e)%Q; [ apply Qfloor_le | ].
      rewrite Hs, inject_Z_mult.
      apply Qmult_lt_compat_r; [ apply inject_Z_pos; exact HT | exact Hfu ]. }
    rewrite <- Zlt_Qlt in Hs2. lia. }
  rewrite Hrf.
  assert (Hback : forall k : Z, (inject_Z (k * T) * Qpow2 e == inject_Z k)%Q).
  { intros k. rewrite inject_Z_mult, <- Qmult_assoc, (Qmult_comm (inject_Z T)), Hinv.
    ring. }
  split.
  - rewrite <- (Hback (Qfloor p)).
    apply Qmult_le_compat_r; [ | apply Qlt_le_weak; exact Hp ].
    rewrite <- Zle_Qle. lia.
  - rewrite <- (Hback (Qfloor p + 1)).
    apply Qmult_le_compat_r; [ | apply Qlt_le_weak; exact Hp ].
    rewrite <- Zle_Qle. lia.
Qed.

(** The integers below 2^24 are [float]s. *)
Lemma round_float_exact (p : Q) (k : Z) :
  0 < k < 2 ^ 24 -> (p == inject_Z k)%Q -> (round_float p == inject_Z k)%Q.
Proof.
  intros Hk E.
  assert (Hpos : (0 < p)%Q) by (rewrite E; apply inject_Z_pos; lia).
  assert (Hlt : (p < inject_Z (2 ^ 24))%Q) by (rewrite E; rewrite <- Zlt_Qlt; lia).
  destruct (round_float_small p Hpos Hlt) as [e [He [Hrf Hs]]].
  pose proof (Qpow2_inv e He) as Hinv.
  rewrite Hrf.
  rewrite (round_half_even_int (p / Qpow2 e) (k * 2 ^ (- e))).
  - rewrite inject_Z_mult, <- Qmult_assoc, (Qmult_comm (inject_Z (2 ^ (- e)))), Hinv. ring.
  - rewrite Hs, E, inject_Z_mult. reflexivity.
Qed.

(** X20.  For a value that is not negative and a scale factor below 2^24
    whose exact product is below 2^24, [float_to_fixed] returns the integer
    part of the exact product or that plus one, never less: the [float]
    product is the exact one rounded to the nearest [float], which can reach
    the next integer ([0.7f * 10] gives 7, not 6).  When the exact product is
    an integer it is returned. *)
Theorem float_to_fixed_brackets (value : Q) (scale_factor : Z) :
  0 < scale_factor < 2 ^ 24 ->
  (0 <= value)%Q ->
  (value * inject_Z scale_factor < inject_Z (2 ^ 24))%Q ->
  (float_to_fixed value scale_factor = Qfloor (value * inject_Z scale_factor)
   \/ float_to_fixed value scale_factor = Qfloor (value * inject_Z scale_factor) + 1)
  /\ (forall n : Z,
        (value * inject_Z scale_factor == inject_Z n)%Q ->
        float_to_fixed value scale_factor = n).
Proof.
  intros Hs Hv Hp.
  set (p := (value * inject_Z scale_factor)%Q) in *.
  assert (Hfs : (round_float (inject_Z scale_factor) == inject_Z scale_factor)%Q).
  { apply round_float_exact; [ exact Hs | reflexivity ]. }
  assert (Hp' : (value * round_float (inject_Z scale_factor) == p)%Q).
  { subst p. rewrite Hfs. reflexivity. }
  assert (Hp0 : (0 <= p)%Q).
  { subst p. apply Qmult_le_0_compat; [ exact Hv | ].
    apply Qlt_le_weak, inject_Z_pos. lia. }
  unfold float_to_fixed.
  set (p' := (value * round_float (inject_Z scale_factor))%Q) in *.
  destruct (Qeq_dec p 0) as [Hz | Hnz].
  - assert (Hr : round_float p' = 0%Q).
    { unfold round_float.
      destruct (Qeq_bool p' 0) eqn:E; [ reflexivity | ].
      exfalso. apply Qeq_bool_neq in E. apply E. rewrite Hp'. exact Hz. }
    rewrite Hr. change (to_uint32 (c_trunc 0)) with 0.
    assert (Hf : Qfloor p = 0) by (rewrite (Qfloor_comp _ _ Hz); reflexivity).
    split; [ left; rewrite Hf; reflexivity | ].
    intros n En. rewrite Hz in En.
    apply (proj1 (inject_Z_injective 0 n)). exact En.
  - assert (Hpos' : (0 < p')%Q).
    { rewrite Hp'. destruct (Qlt_le_dec 0 p) as [H | H]; [ exact H | ].
      exfalso. apply Hnz. apply Qle_antisym; assumption. }
    assert (Hlt' : (p' < inject_Z (2 ^ 24))%Q) by (rewrite Hp'; exact Hp).
    destruct (round_float_brackets p' Hpos' Hlt') as [Hb1 Hb2].
    rewrite (Qfloor_comp _ _ Hp') in Hb1, Hb2.
    assert (Hf0 : 0 <= Qfloor p).
    { rewrite <- (Qfloor_Z 0). apply Qfloor_resp_le. exact Hp0. }
    assert (Hf24 : Qfloor p < 2 ^ 24).
    { rewrite Zlt_Qlt. apply Qle_lt_trans with p; [ apply Qfloor_le | exact Hp ]. }
    assert (Hr0 : (0 <= round_float p')%Q).
    { apply Qle_trans with (inject_Z (Qfloor p)); [ | exact Hb1 ].
      change 0%Q with (inject_Z 0). rewrite <- Zle_Qle. exact Hf0. }
    rewrite (c_trunc_floor _ Hr0).
    assert (H1 : Qfloor p <= Qfloor (round_float p')).
    { rewrite <- (Qfloor_Z (Qfloor p)). apply Qfloor_resp_le. exact Hb1. }
    assert (H2 : Qfloor (round_float p') <= Qfloor p + 1).
    { rewrite <- (Qfloor_Z (Qfloor p + 1)). apply Qfloor_resp_le. exact Hb2. }
    assert (Hu : to_uint32 (Qfloor (round_float p')) = Qfloor (round_float p')).
    { unfold to_uint32. apply Z.mod_small. lia. }
    rewrite Hu. split; [ lia | ].
    intros n En.
    assert (Hn : 0 < n < 2 ^ 24).
    { assert (Hfn : Qfloor p = n) by (rewrite (Qfloor_comp _ _ En); apply Qfloor_Z).
      split; [ | lia ].
      assert (n <> 0); [ | lia ].
      intros ->. apply Hnz. exact En. }
    rewrite (Qfloor_comp _ _ (round_float_exact p' n Hn ltac:(rewrite Hp'; exact En))).
    apply Qfloor_Z.
Qed.

End Drivers.

(** ** Concrete runs *)

Lemma codec_truncation_round_trip_witness :
  double_to_fixed (-7 # 3) 16
    = (if Qle_bool 0 (-7 # 3) then Qfloor ((-7 # 3) * inject_Z (2 ^ 16))
       else Qceiling ((-7 # 3) * inject_Z (2 ^ 16)))
  /\ (forall fixed : Z,
        (fixed_to_double fixed 16 == inject_Z fixed / inject_Z (2 ^ 16))%Q)
  /\ (Qabs (fixed_to_double (double_to_fixed (-7 # 3) 16) 16 - (-7 # 3))
      < 1 / inject_Z (2 ^ 16))%Q.
Proof.
  apply (codec_truncation_round_trip (-7 # 3) 16).
  - lia.
  - vm_compute. discriminate.
  - vm_compute. reflexivity.
Defined.

Lemma compute_chunk_builds_agree_on_q16_witness :
  fst (dot_product_accel_compute_chunk 8 q16_mac_lanes true
         (map q16 [98304; -32768; 65536]) (map q16 [32768; 65536; -3]) 3 accel_zero)
  = fst (dot_product_accel_compute_chunk 8 q16_mac_lanes false
           (map q16 [98304; -32768; 65536]) (map q16 [32768; 65536; -3]) 3 accel_zero).
Proof.
  apply (compute_chunk_builds_agree_on_q16 8 q16_mac_lanes).
  - intros xs ws _ _. reflexivity.
  - simpl. lia.
  - simpl. lia.
  - simpl. lia.
  - repeat constructor; unfold in_int32; lia.
  - repeat constructor; unfold in_int32; lia.
  - intros i Hi. destruct i as [ | [ | [ | i ] ] ]; simpl in *; lia.
Defined.

(** C1, as stated, fails whatever the accelerator computes and however many
    lanes it has.  The accelerator build truncates each operand to Q16.16
    before the unit sees it; the fallback truncates the product.  The inputs
    [2^-17] and [0] both reach the unit as 0, yet against the weight [2^17] the
    fallback returns 65536 for the first and 0 for the second. *)
Lemma compute_chunk_builds_differ :
  ~ (exists (lane_count : nat) (unit : list Z -> list Z -> Z),
        forall (inputs weights : list Q) (chunk_size : Z) (d : accel),
          fst (dot_product_accel_compute_chunk lane_count unit true
                 inputs weights chunk_size d)
          = fst (dot_product_accel_compute_chunk lane_count unit false
                   inputs weights chunk_size d)).
Proof.
  intros [n [u H]].
  pose proof (H [1 # 131072]%Q [131072 # 1]%Q 1 accel_zero) as H1.
  pose proof (H [0%Q] [131072 # 1]%Q 1 accel_zero) as H2.
  rewrite compute_chunk_hw, compute_chunk_sw in H1, H2.
  cbn [fst] in H1, H2.
  rewrite (fixed_array_ext n [1 # 131072]%Q [0%Q] 1) in H1
    by (intros i; destruct i as [ | [ | i ] ]; reflexivity).
  rewrite H2 in H1. vm_compute in H1. discriminate.
Qed.

(** The two builds on that input, run on the Q16.16 multiply-accumulate unit
    with 8 lanes: the product of [2^-17] and [2^17] is 0 with the accelerator
    and 1.0 (65536) in the fallback. *)
Example compute_chunk_builds_differ_run :
  fst (dot_product_accel_compute_chunk 8 q16_mac_lanes true
         [1 # 131072]%Q [131072 # 1]%Q 1 accel_zero) = 0
  /\ fst (dot_product_accel_compute_chunk 8 q16_mac_lanes false
            [1 # 131072]%Q [131072 # 1]%Q 1 accel_zero) = 65536.
Proof. split; vm_compute; reflexivity. Qed.

Lemma chunk_count_is_ceiling_witness :
  (exists r : chunks_result,
      logistic_process_chunks 8 dot_lanes
        (Some (repeat 3 20)) (Some (repeat 5 20)) 20 (Some 7) accel_zero = Some r
      /\ cr_return r = Z.of_nat (ceil_div 20 8)
      /\ result_reads (cr_dev r) = (result_reads accel_zero + ceil_div 20 8)%nat)
  /\ (exists (q : Q) (d' : accel),
        dot_product_accel_dot_product 64 q16_mac_lanes true 20
          (repeat (1 # 2)%Q 20) (repeat (3 # 1)%Q 20) accel_zero = Some (q, d')
        /\ result_reads d' = (result_reads accel_zero + ceil_div 20 64)%nat)
  /\ (20%nat = 0%nat -> ceil_div 20 8 = 0%nat /\ ceil_div 20 64 = 0%nat).
Proof.
  apply (chunk_count_is_ceiling 64 8 q16_mac_lanes dot_lanes
           (repeat 3 20) (repeat 5 20) (repeat (1 # 2)%Q 20) (repeat (3 # 1)%Q 20)
           20 7 accel_zero).
  - left. reflexivity.
  - right. reflexivity.
  - lia.
  - reflexivity.
  - reflexivity.
  - reflexivity.
  - reflexivity.
  - lia.
Defined.

(** C8, as stated, fails on [inference_accel_wait_done]: on a unit whose
    status register never shows the DONE bit no number of polls leaves the
    loop, so nothing is returned, a timeout included. *)
Lemma wait_done_never_times_out :
  ~ (exists (fuel n : nat), inference_accel_wait_done (fun _ => 0) fuel 0 = Some n).
Proof.
  intros [fuel [n H]].
  rewrite (wait_done_spins (fun _ => 0)) in H; [ discriminate | ].
  intros k. reflexivity.
Qed.

Lemma process_chunks_accumulates_witness :
  exists r : chunks_result,
    logistic_process_chunks 8 dot_lanes (Some test_data) (Some test_weights) 24 (Some 5)
      accel_zero = Some r
    /\ cr_accumulator r
       = Some (to_uint64 (5 + sum_upto (ceil_div 24 8)
                                (chunk_result 8 dot_lanes test_data test_weights 24)))
    /\ (exists r2 : chunks_result,
          logistic_process_chunks 8 dot_lanes (Some [3; 4; 5]) (Some [2; 2; 2]) 3
            (cr_accumulator r) (cr_dev r) = Some r2
          /\ cr_accumulator r2
             = Some (to_uint64 (5
                                + sum_upto (ceil_div 24 8)
                                    (chunk_result 8 dot_lanes test_data test_weights 24)
                                + sum_upto (ceil_div 3 8)
                                    (chunk_result 8 dot_lanes [3; 4; 5] [2; 2; 2] 3))))
    /\ (exists r0 : chunks_result,
          logistic_process_chunks 8 dot_lanes (Some test_data) (Some test_weights) 0
            (Some 5) accel_zero = Some r0
          /\ cr_return r0 = 0
          /\ cr_accumulator r0 = Some 5
          /\ result_reads (cr_dev r0) = result_reads accel_zero).
Proof.
  apply (process_chunks_accumulates 8 dot_lanes test_data test_weights [3; 4; 5] [2; 2; 2]
           24 3 5 accel_zero).
  - lia.
  - lia.
  - simpl. lia.
  - simpl. lia.
  - simpl. lia.
  - simpl. lia.
Defined.

(** The run of the chunked self-test: 3 chunks, 36 + 72 + 8 = 116. *)
Example process_chunks_self_test :
  option_map (fun r => (cr_return r, cr_accumulator r, result_reads (cr_dev r)))
    (logistic_process_chunks 8 dot_lanes (Some test_data) (Some test_weights) 24 (Some 0)
       accel_zero)
  = Some (3, Some (36 + 72 + 8), 3%nat).
Proof. vm_compute. reflexivity. Qed.

(** The float engine on the same vectors with scale factor 1000. *)
Example process_chunks_float_runs :
  option_map (fun r => (cr_return r, cr_accumulator r))
    (logistic_process_chunks_float 8 dot_lanes
       (Some (map inject_Z test_data)) (Some (map inject_Z test_weights)) 24 1000
       (Some 0) accel_zero)
  = Some (3, Some 116000000).
Proof. vm_compute. reflexivity. Qed.

Lemma predict_is_dot_product_plus_bias_witness :
  exists d' : accel,
    logistic_predict_large_dataset 8 dot_lanes
      (Some [1; 2; 3; 4; 5; 6; 7; 8]) (Some [1; 1; 1; 1; 1; 1; 1; 1]) 8 1000 accel_zero
    = Some (36 + 1000, d').
Proof.
  apply (predict_is_dot_product_plus_bias 8 dot_lanes test_data test_weights 24 1000
           accel_zero).
  - reflexivity.
  - simpl. lia.
  - vm_compute. reflexivity.
Defined.

(** The same prediction, run. *)
Example predict_example_runs :
  option_map fst
    (logistic_predict_large_dataset 8 dot_lanes
       (Some [1; 2; 3; 4; 5; 6; 7; 8]) (Some [1; 1; 1; 1; 1; 1; 1; 1]) 8 1000 accel_zero)
  = Some 1036.
Proof. vm_compute. reflexivity. Qed.

Lemma null_vectors_return_zero_witness :
  logistic_compute_dot_product 8 dot_lanes None (Some test_weights) accel_zero
  = (0, accel_zero)
  /\ logistic_predict_large_dataset 8 dot_lanes None (Some test_weights) 24 1000 accel_zero
     = Some (0, accel_zero).
Proof.
  pose proof (null_vectors_return_zero 8 dot_lanes None (Some test_weights) 24 1000 accel_zero
                ltac:(lia) (or_introl eq_refl)) as [H1 [H2 _]].
  split; [ exact H1 | exact H2 ].
Defined.

(** C6, as stated, fails on [dot_product_accel_dot_product]: called with both
    pointers absent and [size = 0] it returns what it returns on present
    (empty) vectors, the value 0 and the unit untouched, not an error. *)
Lemma dot_product_null_is_not_an_error :
  dot_product_accel_dot_product_ptr 8 dot_lanes true 0 None None accel_zero
  = dot_product_accel_dot_product_ptr 8 dot_lanes true 0 (Some []) (Some []) accel_zero
  /\ dot_product_accel_dot_product_ptr 8 dot_lanes true 0 None None accel_zero
     = Some (fixed64_to_double 0 16, accel_zero).
Proof.
  split; reflexivity.
Qed.


(** The padded run of the example, computed: 10 elements in chunks of 8. *)
Example padded_run :
  option_map cr_accumulator
    (logistic_process_chunks 8 dot_lanes
       (Some ([3; 4; 5; 6; 7; 8; 9; 10; 11; 12] ++ repeat 0 9))
       (Some ([1; 2; 3; 4; 5; 6; 7; 8; 9; 10] ++ repeat 0 9)) 19 (Some 0) accel_zero)
  = Some (Some 495).
Proof. vm_compute. reflexivity. Qed.

(** ** Concrete runs of the lane setters, the codec and the self-test *)

Lemma decode_then_encode_witness :
  double_to_fixed (fixed_to_double (-98304) 16) 16 = -98304
  /\ FLOAT_TO_FIXED (FIXED_TO_FLOAT (-98304)) = -98304
  /\ FLOAT_TO_FIXED (3 # 2) = double_to_fixed (3 # 2) FIXED_POINT_FRACTIONAL_BITS.
Proof.
  apply (decode_then_encode (-98304) 16 (3 # 2)).
  - unfold in_int32. lia.
  - lia.
Defined.

Lemma encode_odd_and_monotone_witness :
  double_to_fixed (- (-7 # 3)) 16 = - double_to_fixed (-7 # 3) 16
  /\ double_to_fixed (-7 # 3) 16 <= double_to_fixed (5 # 4) 16.
Proof.
  apply (encode_odd_and_monotone (-7 # 3) (5 # 4) 16).
  - lia.
  - vm_compute. reflexivity.
  - vm_compute. discriminate.
  - vm_compute. reflexivity.
Defined.

Lemma set_input_lane_witness :
  (8 <= 5 -> logistic_set_input 8 5 7 accel_zero = Some accel_zero)
  /\ (5 < 8 -> 2 <= 5 mod 4 -> logistic_set_input 8 5 7 accel_zero = None)
  /\ (5 < 8 -> 5 mod 4 < 2 ->
      exists d' : accel,
        logistic_set_input 8 5 7 accel_zero = Some d'
        /\ (forall j : nat,
              input_regs d' j
              = if Nat.eqb j (Z.to_nat (5 / 4 + 5 mod 4))
                then 7 else input_regs accel_zero j)
        /\ weight_regs d' = weight_regs accel_zero
        /\ result_reads d' = result_reads accel_zero)
  /\ (forall values : list Z,
        (forall j, (j < 8)%nat ->
           input_regs (logistic_set_inputs_direct 8 values accel_zero) j = nth j values 0)).
Proof.
  apply (set_input_lane 8 5 7 accel_zero).
  - reflexivity.
  - lia.
  - lia.
  - intros j. simpl. lia.
Defined.

Lemma set_weight_lane_witness :
  (8 <= 4 -> logistic_set_weight 8 4 9 accel_zero = Some accel_zero)
  /\ (4 < 8 -> 2 <= 4 mod 4 -> logistic_set_weight 8 4 9 accel_zero = None)
  /\ (4 < 8 -> 4 mod 4 < 2 ->
      exists d' : accel,
        logistic_set_weight 8 4 9 accel_zero = Some d'
        /\ (forall j : nat,
              weight_regs d' j
              = if Nat.eqb j (Z.to_nat (4 / 4 + 4 mod 4))
                then 9 else weight_regs accel_zero j)
        /\ input_regs d' = input_regs accel_zero
        /\ result_reads d' = result_reads accel_zero).
Proof.
  apply (set_weight_lane 8 4 9 accel_zero).
  - reflexivity.
  - lia.
  - lia.
  - intros j. simpl. lia.
Defined.

(** The [float]s [0.7f], [0.3f] and [0.1f] with the scale factor 10: the
    products [0.7f * 10], [0.3f * 10] and [0.1f * 10] are rounded to the
    [float]s 7, 3 and 1, so that the unit sees the lanes 7, 3 against 1, 7 and
    answers 28. *)
Lemma predict_float_is_sum_plus_bias_witness :
  (exists d' : accel,
      logistic_predict_large_dataset_float 8 dot_lanes
        (Some [round_float (7 # 10); round_float (3 # 10)])
        (Some [round_float (1 # 10); round_float (7 # 10)]) 2 10 5 accel_zero
      = Some (28 + 5, d'))
  /\ (exists rf : chunks_result,
        logistic_process_chunks_float 8 dot_lanes
          (Some [round_float (7 # 10); round_float (3 # 10)])
          (Some [round_float (1 # 10); round_float (7 # 10)]) 2 10 (Some 3) accel_zero
        = Some rf
        /\ cr_return rf = 1
        /\ cr_accumulator rf = Some (3 + 28))
  /\ logistic_predict_large_dataset_float 8 dot_lanes
       (Some [round_float (7 # 10); round_float (3 # 10)])
       (Some [round_float (1 # 10); round_float (7 # 10)]) 2 0 5 accel_zero
     = Some (0, accel_zero)
  /\ logistic_predict_large_dataset_float 8 dot_lanes
       None (Some [round_float (1 # 10); round_float (7 # 10)]) 2 10 5 accel_zero
     = Some (0, accel_zero)
  /\ logistic_predict_large_dataset_float 8 dot_lanes
       (Some [round_float (7 # 10); round_float (3 # 10)]) None 2 10 5 accel_zero
     = Some (0, accel_zero).
Proof.
  apply (predict_float_is_sum_plus_bias 8 dot_lanes
           [round_float (7 # 10); round_float (3 # 10)]
           [round_float (1 # 10); round_float (7 # 10)] 2 10 5 3 accel_zero).
  - lia.
  - simpl. lia.
  - discriminate.
  - lia.
Defined.

Lemma self_test_verdict_witness :
  ((forall ls rs : list Z,
       length ls = 8%nat -> length rs = 8%nat ->
       to_uint32 (dot_lanes ls rs) = to_uint32 (dot_lanes ls rs)) ->
   fst (logistic_self_test 8 dot_lanes accel_zero) = 0
   /\ result_reads (snd (logistic_self_test 8 dot_lanes accel_zero))
      = (2 + result_reads accel_zero)%nat)
  /\ (to_uint32 (dot_lanes [1; 2; 3; 4; 5; 6; 7; 8] [1; 1; 1; 1; 1; 1; 1; 1]) <> 36 ->
      fst (logistic_self_test 8 dot_lanes accel_zero) = -1
      /\ result_reads (snd (logistic_self_test 8 dot_lanes accel_zero))
         = (1 + result_reads accel_zero)%nat).
Proof.
  apply (self_test_verdict 8 dot_lanes accel_zero).
  reflexivity.
Defined.

(** ** Concrete runs of the 64-lane driver, the stopwatch and the console *)

Lemma wait_done_outcome_witness :
  (exists (status : logistic_status_t) (s' : lr_state),
      logistic_wait_done (done_after 3) (Z.to_nat (timeout_ms demo_ctx) + 1) (Some demo_ctx) lr_state_zero = Some (status, s')
      /\ ((status = LOGISTIC_OK
           /\ (exists k : nat,
                 (k <= Z.to_nat (timeout_ms demo_ctx))%nat
                 /\ done_reads s' = (done_reads lr_state_zero + k + 1)%nat
                 /\ Z.land ((done_after 3) (done_reads lr_state_zero + k)) 1 <> 0
                 /\ forall i : nat, (i < k)%nat ->
                      Z.land ((done_after 3) (done_reads lr_state_zero + i)) 1 = 0))
          \/ (status = LOGISTIC_ERROR_TIMEOUT
              /\ done_reads s' = (done_reads lr_state_zero + Z.to_nat (timeout_ms demo_ctx) + 1)%nat
              /\ forall i : nat, (i <= Z.to_nat (timeout_ms demo_ctx))%nat ->
                   Z.land ((done_after 3) (done_reads lr_state_zero + i)) 1 = 0)))
  /\ (forall fuel : nat,
        logistic_wait_done (done_after 3) fuel None lr_state_zero = Some (LOGISTIC_ERROR_INVALID_PARAM, lr_state_zero)
        /\ logistic_wait_done (done_after 3) fuel
             (Some {| initialized := false; timeout_ms := timeout_ms demo_ctx |}) lr_state_zero
           = Some (LOGISTIC_ERROR_INVALID_PARAM, lr_state_zero))
  /\ ((forall k, Z.land ((done_after 3) k) 1 = 0) ->
      forall fuel : nat,
        logistic_wait_done (done_after 3) fuel (Some {| initialized := true; timeout_ms := 2 ^ 32 - 1 |}) lr_state_zero
        = None).
Proof.
  apply (wait_done_outcome (done_after 3) demo_ctx lr_state_zero).
  - reflexivity.
  - unfold demo_ctx. cbn [timeout_ms]. lia.
Defined.

Lemma ctx_init_outcome_witness :
  (exists (c : logistic_ctx_t) (s' : lr_state),
      logistic_ctx_init (done_after 3) 100 (Some demo_ctx) 0 lr_state_zero = Some (LOGISTIC_OK, Some c, s')
      /\ initialized c = true
      /\ timeout_ms c = (if 0 =? 0 then LOGISTIC_TIMEOUT_MS else 0)
      /\ (done_reads lr_state_zero <= done_reads s' <= done_reads lr_state_zero + 100)%nat)
  /\ (forall fuel : nat,
        logistic_ctx_init (done_after 3) fuel None 0 lr_state_zero = Some (LOGISTIC_ERROR_INVALID_PARAM, None, lr_state_zero)
        /\ logistic_reset (done_after 3) fuel None lr_state_zero = Some (LOGISTIC_ERROR_INVALID_PARAM, lr_state_zero))
  /\ (exists s' : lr_state,
        logistic_reset (done_after 3) 100 (Some {| initialized := false; timeout_ms := 0 |}) lr_state_zero
        = Some (LOGISTIC_OK, s')
        /\ done_reads s' = done_reads lr_state_zero
        /\ system_time_ms s' = to_uint32 (system_time_ms lr_state_zero + 101)).
Proof.
  apply (ctx_init_outcome (done_after 3) demo_ctx 0 lr_state_zero).
  - lia.
Defined.

Lemma set_input_data_writes_bank_witness :
  (exists r : reg_file,
      logistic_set_input_data 64 (Some demo_ctx) (Some test_data) lr_regs_zero = (LOGISTIC_OK, set_lr_input_data lr_regs_zero r)
      /\ forall j : nat,
           r j = if Nat.ltb j 64%nat then nth j test_data 0 else lr_input_data lr_regs_zero j)
  /\ (exists r : reg_file,
        logistic_ctx_set_weights 64 (Some demo_ctx) (Some test_data) lr_regs_zero = (LOGISTIC_OK, set_lr_weights lr_regs_zero r)
        /\ forall j : nat,
             r j = if Nat.ltb j 64%nat then nth j test_data 0 else lr_weights lr_regs_zero j)
  /\ (logistic_set_input_data 64 None (Some test_data) lr_regs_zero = (LOGISTIC_ERROR_INVALID_PARAM, lr_regs_zero)
      /\ logistic_set_input_data 64 (Some demo_ctx) None lr_regs_zero = (LOGISTIC_ERROR_INVALID_PARAM, lr_regs_zero)
      /\ logistic_set_input_data 64
           (Some {| initialized := false; timeout_ms := timeout_ms demo_ctx |}) (Some test_data) lr_regs_zero
         = (LOGISTIC_ERROR_INVALID_PARAM, lr_regs_zero)
      /\ logistic_ctx_set_weights 64 None (Some test_data) lr_regs_zero = (LOGISTIC_ERROR_INVALID_PARAM, lr_regs_zero)
      /\ logistic_ctx_set_weights 64 (Some demo_ctx) None lr_regs_zero = (LOGISTIC_ERROR_INVALID_PARAM, lr_regs_zero)
      /\ logistic_ctx_set_weights 64
           (Some {| initialized := false; timeout_ms := timeout_ms demo_ctx |}) (Some test_data) lr_regs_zero
         = (LOGISTIC_ERROR_INVALID_PARAM, lr_regs_zero))
  /\ (Z.of_nat 64%nat <= 63 ->
      logistic_write_input_data_reg 64 63 7 lr_regs_zero = (LOGISTIC_ERROR_INVALID_PARAM, lr_regs_zero)
      /\ logistic_write_weight_reg 64 63 7 lr_regs_zero = (LOGISTIC_ERROR_INVALID_PARAM, lr_regs_zero)
      /\ logistic_read_input_data_reg 64 63 (Some 0) lr_regs_zero
         = (LOGISTIC_ERROR_INVALID_PARAM, Some 0)
      /\ logistic_read_weight_reg 64 63 (Some 0) lr_regs_zero = (LOGISTIC_ERROR_INVALID_PARAM, Some 0))
  /\ (63 < Z.of_nat 64%nat ->
      fst (logistic_write_input_data_reg 64 63 7 lr_regs_zero) = LOGISTIC_OK
      /\ logistic_read_input_data_reg 64 63 (Some 0)
           (snd (logistic_write_input_data_reg 64 63 7 lr_regs_zero))
         = (LOGISTIC_OK, Some 7)
      /\ fst (logistic_write_weight_reg 64 63 7 lr_regs_zero) = LOGISTIC_OK
      /\ logistic_read_weight_reg 64 63 (Some 0)
           (snd (logistic_write_weight_reg 64 63 7 lr_regs_zero))
         = (LOGISTIC_OK, Some 7)
      /\ logistic_read_input_data_reg 64 63 None lr_regs_zero = (LOGISTIC_ERROR_INVALID_PARAM, None)).
Proof.
  apply (set_input_data_writes_bank 64%nat demo_ctx test_data 63 7 lr_regs_zero).
  - lia.
  - reflexivity.
  - lia.
Defined.

Lemma inference_outcome_witness :
  (exists (status : logistic_status_t) (result : option Z) (m' : lr_regs),
    logistic_inference 64 (done_after 0) demo_output (Z.to_nat (timeout_ms demo_ctx) + 1) (Some demo_ctx) (Some test_data) (Some test_weights)
      5 (Some 0) lr_regs_zero
    = Some (status, result, m')
    /\ (forall j : nat, (j < 64%nat)%nat ->
          lr_input_data m' j = nth j test_data 0 /\ lr_weights m' j = nth j test_weights 0)
    /\ lr_bias m' = 5
    /\ ((status = LOGISTIC_ERROR_BUSY
         /\ Z.land ((done_after 0) (done_reads (lr_clock lr_regs_zero))) 1 = 0
         /\ result = Some 0
         /\ lr_start_writes m' = lr_start_writes lr_regs_zero
         /\ done_reads (lr_clock m') = S (done_reads (lr_clock lr_regs_zero)))
        \/ (status = LOGISTIC_OK
            /\ Z.land ((done_after 0) (done_reads (lr_clock lr_regs_zero))) 1 <> 0
            /\ result = Some (to_uint32 (demo_output m'))
            /\ lr_start_writes m' = lr_start_writes lr_regs_zero ++ [1]
            /\ exists k : nat,
                 (k <= Z.to_nat (timeout_ms demo_ctx))%nat
                 /\ done_reads (lr_clock m') = (done_reads (lr_clock lr_regs_zero) + 1 + k + 1)%nat
                 /\ Z.land ((done_after 0) (done_reads (lr_clock lr_regs_zero) + 1 + k)) 1 <> 0)
        \/ (status = LOGISTIC_ERROR_TIMEOUT
            /\ Z.land ((done_after 0) (done_reads (lr_clock lr_regs_zero))) 1 <> 0
            /\ result = Some 0
            /\ lr_start_writes m' = lr_start_writes lr_regs_zero ++ [1]
            /\ forall i : nat, (i <= Z.to_nat (timeout_ms demo_ctx))%nat ->
                 Z.land ((done_after 0) (done_reads (lr_clock lr_regs_zero) + 1 + i)) 1 = 0)))
  /\ (forall (fuel : nat) (result : option Z),
        logistic_inference 64 (done_after 0) demo_output fuel None (Some test_data) (Some test_weights) 5 result lr_regs_zero
        = Some (LOGISTIC_ERROR_INVALID_PARAM, result, lr_regs_zero)
        /\ logistic_inference 64 (done_after 0) demo_output fuel
             (Some {| initialized := false; timeout_ms := timeout_ms demo_ctx |})
             (Some test_data) (Some test_weights) 5 result lr_regs_zero
           = Some (LOGISTIC_ERROR_INVALID_PARAM, result, lr_regs_zero)
        /\ logistic_inference 64 (done_after 0) demo_output fuel (Some demo_ctx) None (Some test_weights) 5 result lr_regs_zero
           = Some (LOGISTIC_ERROR_INVALID_PARAM, result, lr_regs_zero)
        /\ logistic_inference 64 (done_after 0) demo_output fuel (Some demo_ctx) (Some test_data) None 5 result lr_regs_zero
           = Some (LOGISTIC_ERROR_INVALID_PARAM, result, lr_regs_zero)
        /\ logistic_inference 64 (done_after 0) demo_output fuel (Some demo_ctx) (Some test_data) (Some test_weights) 5 None lr_regs_zero
           = Some (LOGISTIC_ERROR_INVALID_PARAM, None, lr_regs_zero)).
Proof.
  apply (inference_outcome 64%nat (done_after 0) demo_output demo_ctx test_data test_weights 5 0 lr_regs_zero).
  - lia.
  - reflexivity.
  - unfold demo_ctx. cbn [timeout_ms]. lia.
Defined.

Lemma stopwatch_measures_ticks_witness :
  get_elapsed_ticks (stop_stopwatch demo_timer (start_stopwatch demo_timer stopwatch_zero)) = 11
  /\ timer0_reads (stop_stopwatch demo_timer (start_stopwatch demo_timer stopwatch_zero)) = S (S (timer0_reads stopwatch_zero))
  /\ timer0_writes (start_stopwatch demo_timer stopwatch_zero)
     = timer0_writes stopwatch_zero
       ++ [TIMER0_EN 0; TIMER0_RELOAD (2 ^ 32 - 1); TIMER0_LOAD (2 ^ 32 - 1); TIMER0_EN 1;
           TIMER0_UPDATE_VALUE 1].
Proof.
  apply (stopwatch_measures_ticks demo_timer stopwatch_zero 11).
  - lia.
  - reflexivity.
Defined.

Lemma elapsed_time_fields_witness :
  (1000000 <= 100000000 ->
   exists r : elapsed_report,
     print_elapsed_time 100000000 123456789 = Some r
     /\ rep_milliseconds r
        = rep_minutes r * 60000 + rep_rem_seconds r * 1000 + rep_rem_milliseconds r
     /\ 0 <= rep_rem_seconds r < 60
     /\ 0 <= rep_rem_milliseconds r < 1000
     /\ 0 <= rep_minutes r <= 71
     /\ rep_MHz r = 100000000 / 1000000
     /\ rep_milliseconds r = 123456789 / (rep_MHz r * 1000)
     /\ rep_milliseconds r * (rep_MHz r * 1000) <= 123456789
        < (rep_milliseconds r + 1) * (rep_MHz r * 1000))
  /\ (100000000 < 1000000 -> print_elapsed_time 100000000 123456789 = None).
Proof.
  apply (elapsed_time_fields 100000000 123456789).
  - lia.
  - lia.
Defined.

Lemma readstr_returns_typed_line_witness :
  fst (readstr (Some 10) (readstr_all [104; 101; 108; 112] console_empty)) = Some (firstn 63 [104; 101; 108; 112])
  /\ fst (readstr (Some 13) (readstr_all [104; 101; 108; 112] console_empty)) = Some (firstn 63 [104; 101; 108; 112])
  /\ line_ptr (snd (readstr (Some 10) (readstr_all [104; 101; 108; 112] console_empty))) = 0
  /\ fst (readstr (Some 10) (snd (readstr (Some 127) (readstr_all [104; 101; 108; 112] console_empty))))
     = Some (removelast (firstn 63 [104; 101; 108; 112]))
  /\ fst (readstr (Some 10) (snd (readstr (Some 8) (readstr_all [104; 101; 108; 112] console_empty))))
     = Some (removelast (firstn 63 [104; 101; 108; 112]))
  /\ (forall (c : Z) (st0 : console), plain_char c -> fst (readstr (Some c) st0) = None)
  /\ (forall (input : option Z) (st0 : console),
        console_ok st0 -> console_ok (snd (readstr input st0))).
Proof.
  apply (readstr_returns_typed_line [104; 101; 108; 112] console_empty).
  - split; [ reflexivity | simpl; lia ].
  - reflexivity.
  - repeat constructor; discriminate.
Defined.

Lemma dot_product_on_q16_witness :
  exists d1 d2 : accel,
    dot_product_accel_dot_product 8 q16_mac_lanes true 3%nat (map q16 [98304; -32768; 65536]) (map q16 [32768; 65536; -3]) accel_zero
    = Some (fixed64_to_double
              (sum_upto 3%nat (fun i => Z.quot (nth i [98304; -32768; 65536] 0 * nth i [32768; 65536; -3] 0) (2 ^ 16)))
              FIXED_POINT_FRACTIONAL_BITS,
            d1)
    /\ dot_product_accel_dot_product 8 q16_mac_lanes false 3%nat (map q16 [98304; -32768; 65536]) (map q16 [32768; 65536; -3]) accel_zero
       = Some (fixed64_to_double
                 (sum_upto 3%nat (fun i => Z.quot (nth i [98304; -32768; 65536] 0 * nth i [32768; 65536; -3] 0) (2 ^ 16)))
                 FIXED_POINT_FRACTIONAL_BITS,
               d2).
Proof.
  apply (dot_product_on_q16 8%nat q16_mac_lanes [98304; -32768; 65536] [32768; 65536; -3] 3%nat accel_zero).
  - lia.
  - intros xs ws _ _. reflexivity.
  - reflexivity.
  - reflexivity.
  - repeat constructor; unfold in_int32; lia.
  - repeat constructor; unfold in_int32; lia.
  - vm_compute. reflexivity.
Defined.


(** A status register that shows READY at its third read and DONE, together
    with READY, from its sixth read on. *)
Example compute_fixed_run :
  option_map (fun r => (ia_polls (snd r), ia_writes (snd r)))
    (inference_accel_compute_fixed
       (fun k => if Nat.ltb k 2 then 4 else if Nat.ltb k 5 then 1 else 3)
       (fun s => Z.of_nat (length (ia_writes s))) 6 (-98304)
       {| ia_polls := 0; ia_writes := [] |})
  = Some (6%nat, [IA_INPUT_DATA 4294868992; IA_CONTROL 1; IA_CONTROL 0]).
Proof. vm_compute. reflexivity. Qed.

(** The 64-lane driver on a unit that is done at once: the result is the bias
    plus the products of the first two lanes of [test_data] and
    [test_weights]; on a unit that is not done at the first poll the driver
    answers [LOGISTIC_ERROR_BUSY] and leaves [*result] as it was. *)
Example inference_run :
  option_map (fun r => fst r)
    (logistic_inference 64 (done_after 0) demo_output 6 (Some demo_ctx)
       (Some test_data) (Some test_weights) 5 (Some 0) lr_regs_zero)
  = Some (LOGISTIC_OK, Some 8)
  /\ option_map (fun r => fst r)
       (logistic_inference 64 (done_after 1) demo_output 6 (Some demo_ctx)
          (Some test_data) (Some test_weights) 5 (Some 0) lr_regs_zero)
     = Some (LOGISTIC_ERROR_BUSY, Some 0).
Proof. split; vm_compute; reflexivity. Qed.

(** Typing [help x], a delete and a line feed returns [help ], of which
    [get_token] takes [help] and leaves nothing. *)
Example console_run :
  fst (readstr (Some 10) (readstr_all [104; 101; 108; 112; 32; 120; 127] console_empty))
  = Some [104; 101; 108; 112; 32]
  /\ get_token [104; 101; 108; 112; 32] = ([104; 101; 108; 112], []).
Proof. split; vm_compute; reflexivity. Qed.

(** At 100 MHz, 2^32 - 1 ticks are 42 s 949 ms. *)
Example elapsed_time_run :
  option_map (fun r => (rep_minutes r, rep_rem_seconds r, rep_rem_milliseconds r))
    (print_elapsed_time 100000000 (2 ^ 32 - 1))
  = Some (0, 42, 949).
Proof. vm_compute. reflexivity. Qed.

(** [float_to_fixed] on [0.7f] and the scale factor 10: [0.7f] is
    11744051 / 2^24, the exact product lies below 7, and the [float] product
    is 7. *)
Example float_to_fixed_rounds :
  (round_float (7 # 10) == 11744051 # 16777216)%Q
  /\ c_trunc (round_float (7 # 10) * inject_Z 10) = 6
  /\ float_to_fixed (round_float (7 # 10)) 10 = 7
  /\ float_to_fixed (round_float (3 # 10)) 10 = 3
  /\ float_to_fixed (round_float (1 # 10)) 10 = 1.
Proof. repeat split; vm_compute; reflexivity. Qed.

(** [round_float] against the Standard Library's specification of IEEE 754
    binary32 ([binary_normalize 24 128] rounds [m * 2^e], [SFmul 24 128]
    multiplies): normal and subnormal numbers, ties, both signs, and the
    product of [0.7f] and 10. *)
Example round_float_is_binary32 :
  forallb
    (fun p =>
       Qeq_bool (round_float (inject_Z (fst p) * Qpow2 (snd p)))
         (SF2Q (binary_normalize 24 128 (fst p) (snd p) false)))
    [(7, 0); (1, -149); (1, -150); (3, -150); (3, -151); (5, -151); (16777217, 0);
     (16777219, 0); (33554433, 0); (33554435, 5); (-16777217, 0); (-16777219, -30);
     (117440510, -24); (100663300, -25); (134217730, -27); (123456789123, -60);
     (-987654321987, -170); (1, 127); (16777215, 104); (16777217, -174);
     (33554431, -174); (33554431, 0); (33554433, 0); (67108868, 0); (67108866, 0);
     (67108870, 0); (67108867, 0); (8388609, -173); (8388609, -172); (3, -1); (5, -1);
     (-3, -1); (-5, -1); (33554431, -150); (4294967295, 0); (4294967167, 0);
     (4294967168, 0); (-1, -200); (999999999999999999, -90)]
  = true
  /\ (SF2Q (SFmul 24 128 (binary_normalize 24 128 11744051 (-24) false)
              (binary_normalize 24 128 10 0 false))
      == round_float (round_float (7 # 10) * round_float (inject_Z 10)))%Q.
Proof. split; vm_compute; reflexivity. Qed.

(** The float predictor on [0.7f, 0.3f] against [0.1f, 0.7f] with the scale
    factor 10 and no bias: 7 * 1 + 3 * 7. *)
Example predict_float_run :
  option_map fst
    (logistic_predict_large_dataset_float 8 dot_lanes
       (Some [round_float (7 # 10); round_float (3 # 10)])
       (Some [round_float (1 # 10); round_float (7 # 10)]) 2 10 0 accel_zero)
  = Some 28.
Proof. vm_compute. reflexivity. Qed.

Lemma float_to_fixed_brackets_witness :
  (float_to_fixed (round_float (7 # 10)) 10
   = Qfloor (round_float (7 # 10) * inject_Z 10)
   \/ float_to_fixed (round_float (7 # 10)) 10
      = Qfloor (round_float (7 # 10) * inject_Z 10) + 1)
  /\ (forall n : Z,
        (round_float (7 # 10) * inject_Z 10 == inject_Z n)%Q ->
        float_to_fixed (round_float (7 # 10)) 10 = n).
Proof.
  apply (float_to_fixed_brackets (round_float (7 # 10)) 10).
  - lia.
  - vm_compute. discriminate.
  - vm_compute. reflexivity.
Defined.
